(** * Legato Supervisor: application class and thread runtime

    A shallow embedding of [framework/c/src/supervisor/app.c] and of
    [framework/c/src/thread.c], with the properties of the application
    life cycle engine and of the thread runtime stated and proved over
    it.

    Conventions.
    - The collaborators of [app.c] (cgroups, proc, smack, user, the timer
      service, the config tree, libc) are not part of the embedded files.
      Calls into them are answered by an environment [Ext]: every answer
      is a function of the interaction history so far, and every call that
      acts on the outside world, or polls it, is appended to that history
      together with the answer it got.
    - C strings are [string]; [size_t] counters that stay below the array
      bound they index are [nat]; [pid_t], [ssize_t] and [int] are [Z].
    - A run that calls [LE_FATAL]/[LE_ASSERT] ends in [Fatal]; a loop that
      has no bound in the C code takes fuel and ends in [OutOfFuel] when
      the fuel is used up. *)

From Stdlib Require Import ZArith String Ascii Lia Bool.
From stdpp Require Import base option list functions gmap strings.

#[local] Set Warnings "-register-all".

Local Open Scope string_scope.
Local Open Scope Z_scope.
Local Open Scope list_scope.

(** ** Result codes ([le_result_t]) *)

Inductive le_result_t :=
| LE_OK | LE_NOT_FOUND | LE_NOT_POSSIBLE | LE_OUT_OF_RANGE | LE_NO_MEMORY
| LE_NOT_PERMITTED | LE_FAULT | LE_COMM_ERROR | LE_TIMEOUT | LE_OVERFLOW
| LE_UNDERFLOW | LE_WOULD_BLOCK | LE_DEADLOCK | LE_FORMAT_ERROR
| LE_DUPLICATE | LE_BAD_PARAMETER | LE_CLOSED | LE_BUSY.

#[global] Instance le_result_eq_dec : EqDecision le_result_t.
Proof. solve_decision. Defined.

(** The numeric value of a result code, for the places where the C code
    compares a result code with a number it got from elsewhere
    ([cgrp_SendSig] returns a count or [LE_FAULT]).  [LE_OK] is zero and
    all the others are negative, in declaration order. *)
Definition le_result_code (r : le_result_t) : Z :=
  match r with
  | LE_OK => 0 | LE_NOT_FOUND => -1 | LE_NOT_POSSIBLE => -2
  | LE_OUT_OF_RANGE => -3 | LE_NO_MEMORY => -4 | LE_NOT_PERMITTED => -5
  | LE_FAULT => -6 | LE_COMM_ERROR => -7 | LE_TIMEOUT => -8
  | LE_OVERFLOW => -9 | LE_UNDERFLOW => -10 | LE_WOULD_BLOCK => -11
  | LE_DEADLOCK => -12 | LE_FORMAT_ERROR => -13 | LE_DUPLICATE => -14
  | LE_BAD_PARAMETER => -15 | LE_CLOSED => -16 | LE_BUSY => -17
  end.

Definition uid_t := Z.
Definition gid_t := Z.
Definition pid_t := Z.

(** ** Thread runtime ([thread.c]) *)

Module Thread.

Definition pthread_t := Z.
Definition le_thread_Ref_t := positive.   (* safe reference *)
Definition ptr := positive.               (* address of a thread object *)

Inductive ThreadState_t :=
| THREAD_STATE_NEW | THREAD_STATE_RUNNING | THREAD_STATE_DYING.

(** The fields of [thread_Obj_t] that the join path reads or writes. *)
Record thread_Obj_t := mkThreadObj {
  name : string;
  isJoinable : bool;
  state : ThreadState_t;
  threadHandle : pthread_t;
  safeRef : le_thread_Ref_t
}.

(** The module's static data: the safe reference map, the thread object
    list kept for the Inspect tool, its change counter, and the blocks
    of [ThreadPool] that are currently allocated.  Releasing a block
    removes it from [ThreadPool]. *)
Record ThreadSt := mkThreadSt {
  ThreadRefMap : gmap le_thread_Ref_t ptr;
  ThreadObjList : list ptr;
  ThreadObjListChangeCount : Z;
  ThreadPool : gmap ptr thread_Obj_t
}.

(** errno values of Linux that [le_thread_Join] tells apart. *)
Definition ESRCH : Z := 3.
Definition EINVAL : Z := 22.
Definition EDEADLK : Z := 35.

Section WithOS.

(** [pthread_join caller target]: the error number the call made by
    thread [caller] on the handle [target] comes back with. *)
Variable pthread_join : pthread_t -> pthread_t -> Z.

(** Width of [size_t] on the target, for the change counter. *)
Variable size_bits : Z.

Definition le_ref_Lookup (m : gmap le_thread_Ref_t ptr) (r : le_thread_Ref_t)
  : option ptr := m !! r.

Definition le_ref_DeleteRef (m : gmap le_thread_Ref_t ptr) (r : le_thread_Ref_t)
  : gmap le_thread_Ref_t ptr := delete r m.

Definition le_dls_Remove (l : list ptr) (p : ptr) : list ptr :=
  filter (fun q => q <> p) l.

(** [DeleteThread]: destroys the attributes and releases the object. *)
Definition DeleteThread (threadPtr : ptr) (s : ThreadSt) : ThreadSt :=
  mkThreadSt (ThreadRefMap s) (ThreadObjList s) (ThreadObjListChangeCount s)
             (delete threadPtr (ThreadPool s)).

(** [le_thread_Join], called by the thread whose handle is [self].
    [None] stands for the dereference of a pointer that the reference
    map still holds although its block was released. *)
Definition le_thread_Join (self : pthread_t) (thread : le_thread_Ref_t)
    (s : ThreadSt) : option (le_result_t * ThreadSt) :=
  match le_ref_Lookup (ThreadRefMap s) thread with
  | None => Some (LE_NOT_FOUND, s)
  | Some threadPtr =>
      obj ← ThreadPool s !! threadPtr;
      let pthreadHandle := threadHandle obj in
      if negb (isJoinable obj) then Some (LE_NOT_POSSIBLE, s)
      else
        let error := pthread_join self pthreadHandle in
        if decide (error = 0) then
          let s1 := mkThreadSt
                      (le_ref_DeleteRef (ThreadRefMap s) (safeRef obj))
                      (le_dls_Remove (ThreadObjList s) threadPtr)
                      ((ThreadObjListChangeCount s + 1) mod 2 ^ size_bits)
                      (ThreadPool s) in
          Some (LE_OK, DeleteThread threadPtr s1)
        else if decide (error = EDEADLK) then Some (LE_DEADLOCK, s)
        else if decide (error = ESRCH) then Some (LE_NOT_FOUND, s)
        else Some (LE_NOT_POSSIBLE, s)
  end.

(** What [CreateThread] establishes and every function of the module
    keeps: a reference in the map points to an allocated object that
    carries this very reference. *)
Definition refs_ok (s : ThreadSt) : Prop :=
  forall r p, ThreadRefMap s !! r = Some p ->
    exists obj, ThreadPool s !! p = Some obj /\ safeRef obj = r.

(** The operating system refuses a join of a thread with itself. *)
Definition self_join_refused : Prop := forall h, pthread_join h h = EDEADLK.

(** What a successful join has done to the module's data. *)
Definition joined (thread : le_thread_Ref_t) (p : ptr) (s s' : ThreadSt) : Prop :=
  ThreadRefMap s' = delete thread (ThreadRefMap s)
  /\ ThreadRefMap s' !! thread = None
  /\ (p ∉ ThreadObjList s')
  /\ (forall q, q <> p -> q ∈ ThreadObjList s -> q ∈ ThreadObjList s')
  /\ ThreadPool s' = delete p (ThreadPool s)
  /\ ThreadPool s' !! p = None.

(** The claim as the specification words it, for one call: the failure
    modes side by side, each on its own condition. *)
Definition join_claim (self : pthread_t) (thread : le_thread_Ref_t) (s : ThreadSt) : Prop :=
  exists r s', le_thread_Join self thread s = Some (r, s') /\
    (ThreadRefMap s !! thread = None -> r = LE_NOT_FOUND) /\
    (forall p obj, ThreadRefMap s !! thread = Some p -> ThreadPool s !! p = Some obj ->
       (isJoinable obj = false -> r = LE_NOT_POSSIBLE) /\
       (threadHandle obj = self -> r = LE_DEADLOCK) /\
       (r = LE_OK -> joined thread p s s')).

End WithOS.

End Thread.

(** ** Thread runtime: the rest of [thread.c]

    The functions of [thread.c] around the join path: creation, the
    attribute setters, start, the start routine of a new thread and
    its clean-up, cancel, the destructors, and the adoption of a thread
    that Legato did not start.  A call runs as one step on the state
    [Sys]; what another thread does is another step.  The module's
    mutex is taken to work: [Lock] and [Unlock] leave no trace.  A
    function is told which OS thread runs it where the C code asks
    libc for the thread-specific pointer or for [pthread_self]. *)

Module ThreadApi.

Import Thread.

(** The address of a destructor object. *)
Definition le_thread_DestructorRef_t := positive.

(** [Destructor_t]; a function is known by its address. *)
Module Destructor.
Record t := mk {
  threadPtr : ptr;
  destructor : option nat;
  context : Z
}.
End Destructor.

(** The fields of [thread_Obj_t] that the join path leaves alone.  The
    head of [destructorList] is the top of the stack.  The attribute
    structure belongs to libc: the calls on it are entered in the
    history. *)
Record thread_More := mkMore {
  priority : Z;
  mainFunc : option nat;
  context : Z;
  destructorList : list le_thread_DestructorRef_t
}.

Inductive AttrCall :=
| attr_init
| attr_setinheritsched_explicit
| attr_setdetachstate (joinable : bool)
| attr_setschedpolicy (policy : Z)
| attr_setschedparam (sched_priority : Z)
| attr_setstacksize (size : Z).

(** What the module calls outside itself, with the answers it got. *)
Inductive Call :=
| C_pthread_attr (c : AttrCall) (p : ptr) (r : Z)
| C_pthread_key_create (r : Z)
| C_pthread_setspecific (caller : pthread_t) (p : ptr) (r : Z)
| C_pthread_create (p : ptr) (r : Z) (h : pthread_t)
| C_pthread_join (caller target : pthread_t) (r : Z)
| C_pthread_cancel (target : pthread_t) (r : Z)
| C_sched_setscheduler_idle (r : Z)
| C_thread_InitThread (caller : pthread_t)
| C_event_DestructThread
| C_timer_DestructThread
| C_user (f : nat) (context : Z).

Definition History := list Call.

(** The module's data, the thread-specific value under
    [ThreadLocalDataKey] of every OS thread, and the history.  Whether
    a block of the thread pool is allocated is told by [ThreadPool] of
    [data]; [more] is the memory behind the other fields, released
    blocks included. *)
Record Sys := mkSys {
  data : ThreadSt;
  more : ptr -> thread_More;
  DestructorPool : gmap le_thread_DestructorRef_t Destructor.t;
  ThreadLocalData : gmap pthread_t ptr;
  initialised : bool;                 (* [ThreadPool != NULL] *)
  history : History
}.

(** The operating system, the Legato libraries under [thread.c] and the
    constants of its headers. *)
Record OS := mkOS {
  MAX_THREAD_NAME_SIZE : nat;
  size_bits : Z;
  LE_THREAD_PRIORITY_IDLE : Z;
  LE_THREAD_PRIORITY_NORMAL : Z;
  LE_THREAD_PRIORITY_RT_LOWEST : Z;
  LE_THREAD_PRIORITY_RT_HIGHEST : Z;
  PTHREAD_STACK_MIN : Z;
  le_utf8_Copy : string -> nat -> le_result_t * string;
  le_mem_ForceAlloc : History -> gmap ptr thread_Obj_t -> ptr;
  le_mem_ForceAlloc_destructor :
    History -> gmap le_thread_DestructorRef_t Destructor.t -> le_thread_DestructorRef_t;
  le_ref_CreateRef : History -> gmap le_thread_Ref_t ptr -> ptr -> le_thread_Ref_t;
  pthread_attr : History -> AttrCall -> ptr -> Z;
  pthread_key_create : History -> Z;
  pthread_setspecific : History -> pthread_t -> ptr -> Z;
  pthread_create : History -> ptr -> Z * pthread_t;
  pthread_join : History -> pthread_t -> pthread_t -> Z;
  pthread_cancel : History -> pthread_t -> Z;
  sched_setscheduler_idle : History -> Z
}.

Definition SCHED_OTHER : Z := 0.
Definition SCHED_RR : Z := 2.

#[global] Instance ThreadState_t_eq_dec : EqDecision ThreadState_t.
Proof. solve_decision. Defined.

(** How a call ends: it returns, it ends the process ([LE_FATAL],
    [LE_ASSERT]), it goes through a pointer to a released block or
    through NULL, or it is out of fuel. *)
Inductive Out (A : Type) :=
| Returns (a : A) (s : Sys)
| Aborts (s : Sys)
| Dangles
| Starves.
Arguments Returns {A} a s.
Arguments Aborts {A} s.
Arguments Dangles {A}.
Arguments Starves {A}.

Definition T (A : Type) := Sys -> Out A.

Definition tret {A} (a : A) : T A := fun s => Returns a s.

Definition tbind {A B} (m : T A) (k : A -> T B) : T B :=
  fun s => match m s with
           | Returns a s' => k a s'
           | Aborts s' => Aborts s'
           | Dangles => Dangles
           | Starves => Starves
           end.

Notation "'let*' x ':=' m 'in' k" := (tbind m (fun x => k))
  (at level 10, x pattern, m at level 100, k at level 200).
Notation "m ';;*' k" := (tbind m (fun _ => k))
  (at level 100, k at level 200, right associativity).

Definition get : T Sys := fun s => Returns s s.
Definition put (s : Sys) : T unit := fun _ => Returns tt s.
Definition LE_FATAL {A} : T A := fun s => Aborts s.
Definition dangle {A} : T A := fun _ => Dangles.
Definition starve {A} : T A := fun _ => Starves.

(** A call outside the module: the answer depends on the history and
    is entered in it. *)
Definition ask {R} (answer : History -> R) (entry : R -> Call) : T R :=
  fun s => let r := answer (history s) in
           Returns r (mkSys (data s) (more s) (DestructorPool s) (ThreadLocalData s)
                            (initialised s) (history s ++ [entry r])).

Definition log (c : Call) : T unit :=
  fun s => Returns tt (mkSys (data s) (more s) (DestructorPool s) (ThreadLocalData s)
                             (initialised s) (history s ++ [c])).

Definition set_data (d : ThreadSt) (s : Sys) : Sys :=
  mkSys d (more s) (DestructorPool s) (ThreadLocalData s) (initialised s) (history s).

Definition set_more (m : ptr -> thread_More) (s : Sys) : Sys :=
  mkSys (data s) m (DestructorPool s) (ThreadLocalData s) (initialised s) (history s).

Definition set_DestructorPool (d : gmap le_thread_DestructorRef_t Destructor.t) (s : Sys)
  : Sys :=
  mkSys (data s) (more s) d (ThreadLocalData s) (initialised s) (history s).

Definition set_ThreadLocalData (t : gmap pthread_t ptr) (s : Sys) : Sys :=
  mkSys (data s) (more s) (DestructorPool s) t (initialised s) (history s).

Definition modify (f : Sys -> Sys) : T unit := fun s => Returns tt (f s).

(** Reading and writing a thread object through a pointer. *)
Definition deref (p : ptr) : T (thread_Obj_t * thread_More) :=
  fun s => match ThreadPool (data s) !! p with
           | Some obj => Returns (obj, more s p) s
           | None => Dangles
           end.

Definition store_obj (p : ptr) (obj : thread_Obj_t) : T unit :=
  modify (fun s => set_data (mkThreadSt (ThreadRefMap (data s)) (ThreadObjList (data s))
                                        (ThreadObjListChangeCount (data s))
                                        (<[p := obj]> (ThreadPool (data s)))) s).

Definition store_more (p : ptr) (m : thread_More) : T unit :=
  modify (fun s => set_more (<[p := m]> (more s)) s).

Definition set_isJoinable (b : bool) (o : thread_Obj_t) : thread_Obj_t :=
  mkThreadObj (name o) b (state o) (threadHandle o) (safeRef o).

Definition set_state (st : ThreadState_t) (o : thread_Obj_t) : thread_Obj_t :=
  mkThreadObj (name o) (isJoinable o) st (threadHandle o) (safeRef o).

Definition set_threadHandle (h : pthread_t) (o : thread_Obj_t) : thread_Obj_t :=
  mkThreadObj (name o) (isJoinable o) (state o) h (safeRef o).

Definition set_priority (v : Z) (m : thread_More) : thread_More :=
  mkMore v (mainFunc m) (context m) (destructorList m).

Definition set_destructorList (l : list le_thread_DestructorRef_t) (m : thread_More)
  : thread_More :=
  mkMore (priority m) (mainFunc m) (context m) l.

Section WithOS.

Variable os : OS.

(** What the functions do that the users of the module hand to it: a
    main function, a destructor. *)
Variable user_code : nat -> Z -> T unit.

(** [Lock (); le_ref_Lookup (ThreadRefMap, thread); Unlock ();
    LE_FATAL_IF (threadPtr == NULL, ...)]. *)
Definition lookup_or_die (thread : le_thread_Ref_t) : T ptr :=
  let* s := get in
  match le_ref_Lookup (ThreadRefMap (data s)) thread with
  | Some threadPtr => tret threadPtr
  | None => LE_FATAL
  end.

Definition GetCurrentThreadPtr (self : pthread_t) : T ptr :=
  let* s := get in
  match ThreadLocalData s !! self with
  | Some threadPtr => tret threadPtr
  | None => LE_FATAL
  end.

(** [AddDestructor]: the new object goes on top of the stack. *)
Definition AddDestructor (threadPtr : ptr) (destructor : option nat) (context : Z)
  : T le_thread_DestructorRef_t :=
  let* s := get in
  let destructorObjPtr := le_mem_ForceAlloc_destructor os (history s) (DestructorPool s) in
  modify (set_DestructorPool
            (<[destructorObjPtr := Destructor.mk threadPtr destructor context]>
               (DestructorPool s))) ;;*
  let* om := deref threadPtr in
  store_more threadPtr (set_destructorList (destructorObjPtr :: destructorList (snd om))
                                           (snd om)) ;;*
  tret destructorObjPtr.

(** The [while] loop of [CleanupThread]. *)
Fixpoint call_destructors (fuel : nat) (threadObjPtr : ptr) : T unit :=
  match fuel with
  | O => starve
  | S fuel' =>
      let* om := deref threadObjPtr in
      match destructorList (snd om) with
      | [] => tret tt
      | destructorObjPtr :: rest =>
          store_more threadObjPtr (set_destructorList rest (snd om)) ;;*
          let* s := get in
          match DestructorPool s !! destructorObjPtr with
          | None => dangle
          | Some d =>
              (match Destructor.destructor d with
               | Some f => log (C_user f (Destructor.context d)) ;;*
                           user_code f (Destructor.context d)
               | None => tret tt
               end) ;;*
              modify (fun s => set_DestructorPool (delete destructorObjPtr (DestructorPool s)) s) ;;*
              call_destructors fuel' threadObjPtr
          end
      end
  end.

Definition CleanupThread (fuel : nat) (threadObjPtr : ptr) : T unit :=
  let* om := deref threadObjPtr in
  store_obj threadObjPtr (set_state THREAD_STATE_DYING (fst om)) ;;*
  call_destructors fuel threadObjPtr ;;*
  log C_event_DestructThread ;;*
  log C_timer_DestructThread ;;*
  let* om := deref threadObjPtr in
  if negb (isJoinable (fst om)) then
    modify (fun s =>
              set_data
                (DeleteThread threadObjPtr
                   (mkThreadSt
                      (le_ref_DeleteRef (ThreadRefMap (data s)) (safeRef (fst om)))
                      (le_dls_Remove (ThreadObjList (data s)) threadObjPtr)
                      ((ThreadObjListChangeCount (data s) + 1) mod 2 ^ size_bits os)
                      (ThreadPool (data s)))) s)
  else tret tt.

Definition thread_InitThread (self : pthread_t) : T unit :=
  log (C_thread_InitThread self).

(** [PThreadStartRoutine], run by the new OS thread [self].  The main
    function may return, call [le_thread_Exit] or be cancelled: the
    clean-up handler runs after it in each case. *)
Definition PThreadStartRoutine (fuel : nat) (self : pthread_t) (threadPtr : ptr) : T unit :=
  let* r := ask (fun h => pthread_setspecific os h self threadPtr)
                (C_pthread_setspecific self threadPtr) in
  if decide (r <> 0) then LE_FATAL
  else
    modify (fun s => set_ThreadLocalData (<[self := threadPtr]> (ThreadLocalData s)) s) ;;*
    let* om := deref threadPtr in
    (if decide (priority (snd om) = LE_THREAD_PRIORITY_IDLE os)
     then ask (sched_setscheduler_idle os) C_sched_setscheduler_idle ;;* tret tt
     else tret tt) ;;*
    thread_InitThread self ;;*
    match mainFunc (snd om) with
    | None => dangle
    | Some f =>
        log (C_user f (context (snd om))) ;;*
        user_code f (context (snd om)) ;;*
        CleanupThread fuel threadPtr
    end.

(** [CreateThread].  The block is written in one go where the C code
    fills in its last field; nothing that is called in between looks
    at it. *)
Definition CreateThread (name : string) (mainFunc : option nat) (context : Z) : T ptr :=
  let* s := get in
  let threadPtr := le_mem_ForceAlloc os (history s) (ThreadPool (data s)) in
  let nm := snd (le_utf8_Copy os name (MAX_THREAD_NAME_SIZE os)) in
  let* r := ask (fun h => pthread_attr os h attr_init threadPtr)
                (C_pthread_attr attr_init threadPtr) in
  if decide (r <> 0) then LE_FATAL
  else
    ask (fun h => pthread_attr os h attr_setinheritsched_explicit threadPtr)
        (C_pthread_attr attr_setinheritsched_explicit threadPtr) ;;*
    ask (fun h => pthread_attr os h (attr_setdetachstate false) threadPtr)
        (C_pthread_attr (attr_setdetachstate false) threadPtr) ;;*
    let* s := get in
    let ref := le_ref_CreateRef os (history s) (ThreadRefMap (data s)) threadPtr in
    let obj := mkThreadObj nm false THREAD_STATE_NEW 0 ref in
    put (set_more (<[threadPtr := mkMore (LE_THREAD_PRIORITY_NORMAL os) mainFunc context []]>
                     (more s))
           (set_data (mkThreadSt
                        (<[ref := threadPtr]> (ThreadRefMap (data s)))
                        (ThreadObjList (data s) ++ [threadPtr])
                        ((ThreadObjListChangeCount (data s) + 1) mod 2 ^ size_bits os)
                        (<[threadPtr := obj]> (ThreadPool (data s)))) s)) ;;*
    tret threadPtr.

Definition SetSchedPolicyAttr (threadPtr : ptr) (policy : Z) : T bool :=
  let* om := deref threadPtr in
  if decide (state (fst om) <> THREAD_STATE_NEW) then LE_FATAL
  else
    let* result := ask (fun h => pthread_attr os h (attr_setschedpolicy policy) threadPtr)
                       (C_pthread_attr (attr_setschedpolicy policy) threadPtr) in
    if decide (result <> 0) then tret false else tret true.

(** [thread_Init], run by the main thread [self]. *)
Definition thread_Init (self : pthread_t) : T unit :=
  modify (fun s => mkSys (mkThreadSt ∅ (ThreadObjList (data s))
                                     (ThreadObjListChangeCount (data s)) ∅)
                         (more s) ∅ (ThreadLocalData s) true (history s)) ;;*
  let* r := ask (pthread_key_create os) C_pthread_key_create in
  if decide (r <> 0) then LE_FATAL
  else
    modify (set_ThreadLocalData ∅) ;;*
    let* threadPtr := CreateThread "main" None 0 in
    let* om := deref threadPtr in
    store_obj threadPtr (set_state THREAD_STATE_RUNNING (fst om)) ;;*
    let* r := ask (fun h => pthread_setspecific os h self threadPtr)
                  (C_pthread_setspecific self threadPtr) in
    if decide (r <> 0) then LE_FATAL
    else modify (fun s => set_ThreadLocalData (<[self := threadPtr]> (ThreadLocalData s)) s).

Definition le_thread_Create (name : string) (mainFunc : option nat) (context : Z)
  : T le_thread_Ref_t :=
  let* threadPtr := CreateThread name mainFunc context in
  let* om := deref threadPtr in
  tret (safeRef (fst om)).

Definition le_thread_SetPriority (thread : le_thread_Ref_t) (priority : Z) : T le_result_t :=
  let* threadPtr := lookup_or_die thread in
  let* ok :=
    (if decide (priority = LE_THREAD_PRIORITY_NORMAL os \/ priority = LE_THREAD_PRIORITY_IDLE os)
     then SetSchedPolicyAttr threadPtr SCHED_OTHER ;;* tret true
     else if decide (LE_THREAD_PRIORITY_RT_LOWEST os <= priority
                     /\ priority <= LE_THREAD_PRIORITY_RT_HIGHEST os)
     then
       let* set := SetSchedPolicyAttr threadPtr SCHED_RR in
       (if set
        then ask (fun h => pthread_attr os h (attr_setschedparam priority) threadPtr)
                 (C_pthread_attr (attr_setschedparam priority) threadPtr) ;;* tret tt
        else tret tt) ;;*
       tret true
     else tret false) in
  if ok then
    let* om := deref threadPtr in
    store_more threadPtr (set_priority priority (snd om)) ;;*
    tret LE_OK
  else tret LE_OUT_OF_RANGE.

Definition le_thread_SetStackSize (thread : le_thread_Ref_t) (size : Z) : T le_result_t :=
  let* threadPtr := lookup_or_die thread in
  let* om := deref threadPtr in
  if decide (state (fst om) <> THREAD_STATE_NEW) then LE_FATAL
  else
    let* r := ask (fun h => pthread_attr os h (attr_setstacksize size) threadPtr)
                  (C_pthread_attr (attr_setstacksize size) threadPtr) in
    if decide (r = 0) then tret LE_OK
    else if decide (size < PTHREAD_STACK_MIN os) then tret LE_OVERFLOW
    else tret LE_OUT_OF_RANGE.

Definition le_thread_SetJoinable (thread : le_thread_Ref_t) : T unit :=
  let* threadPtr := lookup_or_die thread in
  let* om := deref threadPtr in
  if decide (state (fst om) <> THREAD_STATE_NEW) then LE_FATAL
  else
    store_obj threadPtr (set_isJoinable true (fst om)) ;;*
    let* r := ask (fun h => pthread_attr os h (attr_setdetachstate true) threadPtr)
                  (C_pthread_attr (attr_setdetachstate true) threadPtr) in
    if decide (r = 0) then tret tt else LE_FATAL.

(** [le_thread_Start].  [pthread_create] stores the handle of the new
    thread in [threadHandle] when it succeeds. *)
Definition le_thread_Start (thread : le_thread_Ref_t) : T unit :=
  let* threadPtr := lookup_or_die thread in
  let* om := deref threadPtr in
  if decide (state (fst om) <> THREAD_STATE_NEW) then LE_FATAL
  else
    store_obj threadPtr (set_state THREAD_STATE_RUNNING (fst om)) ;;*
    let* r := ask (fun h => pthread_create os h threadPtr)
                  (fun r => C_pthread_create threadPtr (fst r) (snd r)) in
    if decide (fst r <> 0) then LE_FATAL
    else
      let* om := deref threadPtr in
      store_obj threadPtr (set_threadHandle (snd r) (fst om)).

(** The handle that [le_thread_Join] of [Thread] hands to
    [pthread_join], where it gets that far. *)
Definition joined_handle (thread : le_thread_Ref_t) (d : ThreadSt) : option pthread_t :=
  match le_ref_Lookup (ThreadRefMap d) thread with
  | Some threadPtr =>
      match ThreadPool d !! threadPtr with
      | Some obj => if isJoinable obj then Some (threadHandle obj) else None
      | None => None
      end
  | None => None
  end.

(** [le_thread_Join] of [Thread], run on the data of this state by the
    OS thread [self]; the call of [pthread_join] is entered in the
    history. *)
Definition le_thread_Join (self : pthread_t) (thread : le_thread_Ref_t) : T le_result_t :=
  fun s =>
    let answer := pthread_join os (history s) in
    match Thread.le_thread_Join answer (size_bits os) self thread (data s) with
    | None => Dangles
    | Some (r, d) =>
        Returns r (mkSys d (more s) (DestructorPool s) (ThreadLocalData s) (initialised s)
                         (match joined_handle thread (data s) with
                          | Some h => history s ++ [C_pthread_join self h (answer self h)]
                          | None => history s
                          end))
    end.

Definition le_thread_Cancel (threadToCancel : le_thread_Ref_t) : T le_result_t :=
  let* s := get in
  match le_ref_Lookup (ThreadRefMap (data s)) threadToCancel with
  | None => tret LE_NOT_FOUND
  | Some threadPtr =>
      let* om := deref threadPtr in
      let* r := ask (fun h => pthread_cancel os h (threadHandle (fst om)))
                    (C_pthread_cancel (threadHandle (fst om))) in
      if decide (r <> 0) then tret LE_NOT_FOUND else tret LE_OK
  end.

Definition le_thread_GetCurrent (self : pthread_t) : T le_thread_Ref_t :=
  let* threadPtr := GetCurrentThreadPtr self in
  let* om := deref threadPtr in
  tret (safeRef (fst om)).

(** What is left in [buffPtr]. *)
Definition le_thread_GetName (threadRef : le_thread_Ref_t) (buffSize : nat) : T string :=
  let* s := get in
  match le_ref_Lookup (ThreadRefMap (data s)) threadRef with
  | None => tret (snd (le_utf8_Copy os "(dead)" buffSize))
  | Some threadPtr =>
      let* om := deref threadPtr in
      tret (snd (le_utf8_Copy os (name (fst om)) buffSize))
  end.

Definition le_thread_GetMyName (self : pthread_t) : T string :=
  let* s := get in
  match ThreadLocalData s !! self with
  | None => tret "unknown"
  | Some threadPtr =>
      let* om := deref threadPtr in
      tret (name (fst om))
  end.

Definition le_thread_AddDestructor (self : pthread_t) (destructor : option nat) (context : Z)
  : T le_thread_DestructorRef_t :=
  let* threadPtr := GetCurrentThreadPtr self in
  let* om := deref threadPtr in
  if decide (state (fst om) <> THREAD_STATE_RUNNING) then LE_FATAL
  else AddDestructor threadPtr destructor context.

Definition le_thread_AddChildDestructor (thread : le_thread_Ref_t) (destructor : option nat)
    (context : Z) : T unit :=
  let* threadPtr := lookup_or_die thread in
  let* om := deref threadPtr in
  if decide (state (fst om) <> THREAD_STATE_NEW) then LE_FATAL
  else AddDestructor threadPtr destructor context ;;* tret tt.

Definition le_thread_RemoveDestructor (self : pthread_t)
    (destructor : le_thread_DestructorRef_t) : T unit :=
  let* threadPtr := GetCurrentThreadPtr self in
  let* om := deref threadPtr in
  if decide (destructor ∈ destructorList (snd om)) then
    store_more threadPtr
      (set_destructorList (filter (fun d => d <> destructor) (destructorList (snd om)))
                          (snd om)) ;;*
    modify (fun s => set_DestructorPool (delete destructor (DestructorPool s)) s)
  else tret tt.

Definition le_thread_InitLegatoThreadData (self : pthread_t) (name : string) : T unit :=
  let* s := get in
  if negb (initialised s) then LE_FATAL
  else if decide (ThreadLocalData s !! self <> None) then LE_FATAL
  else
    let* threadPtr := CreateThread name None 0 in
    let* om := deref threadPtr in
    store_obj threadPtr (set_state THREAD_STATE_RUNNING (fst om)) ;;*
    let* r := ask (fun h => pthread_setspecific os h self threadPtr)
                  (C_pthread_setspecific self threadPtr) in
    if decide (r <> 0) then LE_FATAL
    else
      modify (fun s => set_ThreadLocalData (<[self := threadPtr]> (ThreadLocalData s)) s) ;;*
      thread_InitThread self.

Definition le_thread_CleanupLegatoThreadData (fuel : nat) (self : pthread_t) : T unit :=
  let* threadPtr := GetCurrentThreadPtr self in
  let* om := deref threadPtr in
  match mainFunc (snd om) with
  | Some _ => tret tt
  | None => CleanupThread fuel threadPtr
  end.

End WithOS.

(** ** What the thread runtime relies on, and what it keeps *)

(** The pools and the reference map hand out what is not in use. *)
Definition fresh_blocks (os : OS) : Prop :=
  forall h pool, pool !! le_mem_ForceAlloc os h pool = None.

Definition fresh_refs (os : OS) : Prop :=
  forall h m p, m !! le_ref_CreateRef os h m p = None.

Definition fresh_destructors (os : OS) : Prop :=
  forall h pool, pool !! le_mem_ForceAlloc_destructor os h pool = None.

(** libc does what it is asked to. *)
Definition obliging (os : OS) : Prop :=
  (forall h c p, pthread_attr os h c p = 0)
  /\ (forall h p, fst (pthread_create os h p) = 0)
  /\ (forall h c p, pthread_setspecific os h c p = 0)
  /\ (forall h c t, pthread_join os h c t = 0).

(** The thread object list holds allocated objects only. *)
Definition listed_ok (d : ThreadSt) : Prop :=
  forall q, q ∈ ThreadObjList d -> is_Some (ThreadPool d !! q).

Definition wf (d : ThreadSt) : Prop := refs_ok d /\ listed_ok d.

(** [m] keeps the property [P] of the module's data whenever it returns. *)
Definition keeps {A} (P : ThreadSt -> Prop) (m : T A) : Prop :=
  forall s a s', P (data s) -> m s = Returns a s' -> P (data s').

(** User code that stays out of the thread runtime. *)
Definition quiet (user_code : nat -> Z -> T unit) : Prop :=
  forall f c s, user_code f c s = Returns tt s.

(** The destructor stack of the thread at [p] holds allocated
    destructor objects, each once. *)
Definition destructors_ok (s : Sys) (p : ptr) : Prop :=
  NoDup (destructorList (more s p))
  /\ forall d, d ∈ destructorList (more s p) -> is_Some (DestructorPool s !! d).

(** The calls of destructor functions that the objects of [l] stand
    for, in the order of [l]. *)
Definition calls_of (pool : gmap le_thread_DestructorRef_t Destructor.t)
    (l : list le_thread_DestructorRef_t) : list Call :=
  flat_map (fun d => match pool !! d with
                     | Some o => match Destructor.destructor o with
                                 | Some f => [C_user f (Destructor.context o)]
                                 | None => []
                                 end
                     | None => []
                     end) l.

(** The module's data after [n] more changes of the thread object list
    that leave its content as it was. *)
Definition bump (os : OS) (n : Z) (d : ThreadSt) : ThreadSt :=
  mkThreadSt (ThreadRefMap d) (ThreadObjList d)
             (Z.iter n (fun c => (c + 1) mod 2 ^ size_bits os) (ThreadObjListChangeCount d))
             (ThreadPool d).

End ThreadApi.

(** ** The config tree, as [app.c] reads it *)

Module Cfg.

(** Modelled from the spec: the config store (section 1: "a hierarchical
    key/value tree with read-only transactions, path navigation, and
    typed leaf reads (string, bool)"); its implementation is not among
    the embedded files.  A read transaction works on a snapshot; the
    iterator remembers the node it stands on and the siblings after it. *)
Inductive Value := VEmpty | VString (s : string) | VBool (b : bool).

Inductive Tree := Node (name : string) (value : Value) (children : list Tree).

Definition node_name (t : Tree) : string := let 'Node n _ _ := t in n.
Definition node_value (t : Tree) : Value := let 'Node _ v _ := t in v.
Definition node_children (t : Tree) : list Tree := let 'Node _ _ c := t in c.

Record Iter := mkIter {
  live : bool;                (* false once the transaction is cancelled *)
  here : option Tree;         (* [None]: the iterator stands on a node that does not exist *)
  following : list Tree       (* the siblings after [here] *)
}.

Fixpoint find_child (n : string) (cs : list Tree) : option Tree * list Tree :=
  match cs with
  | [] => (None, [])
  | c :: rest => if String.eqb (node_name c) n then (Some c, rest) else find_child n rest
  end.

Definition children_here (it : Iter) : list Tree :=
  match here it with Some t => node_children t | None => [] end.

Definition CreateReadTxn (t : Tree) : Iter := mkIter true (Some t) [].

Definition CancelTxn (it : Iter) : Iter := mkIter false (here it) (following it).

Definition GoToNode (it : Iter) (n : string) : Iter :=
  let '(c, rest) := find_child n (children_here it) in mkIter (live it) c rest.

Definition GoToFirstChild (it : Iter) : le_result_t * Iter :=
  match children_here it with
  | [] => (LE_NOT_FOUND, it)
  | c :: rest => (LE_OK, mkIter (live it) (Some c) rest)
  end.

Definition GoToNextSibling (it : Iter) : le_result_t * Iter :=
  match following it with
  | [] => (LE_NOT_FOUND, it)
  | c :: rest => (LE_OK, mkIter (live it) (Some c) rest)
  end.

(** A string that has to fit, with its terminator, in [bufSize] bytes. *)
Definition into_buffer (s : string) (bufSize : nat) : le_result_t * string :=
  if (String.length s <? bufSize)%nat then (LE_OK, s)
  else (LE_OVERFLOW, substring 0 (Nat.pred bufSize) s).

Definition target (it : Iter) (path : string) : option Tree :=
  if String.eqb path "" then here it else fst (find_child path (children_here it)).

Definition GetNodeName (it : Iter) (path : string) (bufSize : nat) : le_result_t * string :=
  match target it path with
  | Some t => into_buffer (node_name t) bufSize
  | None => into_buffer "" bufSize
  end.

Definition GetString (it : Iter) (path : string) (bufSize : nat) (default : string)
  : le_result_t * string :=
  match target it path with
  | Some (Node _ (VString s) _) => into_buffer s bufSize
  | _ => into_buffer default bufSize
  end.

Definition GetBool (it : Iter) (path : string) (default : bool) : bool :=
  match target it path with
  | Some (Node _ (VBool b) _) => b
  | _ => default
  end.

End Cfg.

(** ** The timer service, as far as the kill timer uses it *)

Module Timer.

(** Modelled from the spec: the timer service (section 3: "killTimer:
    lazily-created one-shot timer (interval: 1 second) whose expiry
    triggers a hard kill"); [timer.c] is not among the embedded files.
    A timer is created stopped and one-shot; its settings can be changed
    only while it is stopped; starting a running timer and stopping a
    stopped one are refused and change nothing. *)
Inductive Handler := HardKillApp_handler.

Record t := mk {
  name : string;
  interval : option (Z * Z);         (* seconds, microseconds *)
  contextIsApp : bool;               (* the context pointer is the owning app *)
  handler : option Handler;
  repeatCount : nat;
  running : bool
}.

Definition Create (n : string) : t := mk n None false None 1 false.

Definition SetInterval (tm : t) (iv : Z * Z) : le_result_t * t :=
  if running tm then (LE_BUSY, tm)
  else (LE_OK, mk (name tm) (Some iv) (contextIsApp tm) (handler tm) (repeatCount tm) false).

Definition SetContextPtr (tm : t) : le_result_t * t :=
  if running tm then (LE_BUSY, tm)
  else (LE_OK, mk (name tm) (interval tm) true (handler tm) (repeatCount tm) false).

Definition SetHandler (tm : t) (h : Handler) : le_result_t * t :=
  if running tm then (LE_BUSY, tm)
  else (LE_OK, mk (name tm) (interval tm) (contextIsApp tm) (Some h) (repeatCount tm) false).

Definition Start (tm : t) : le_result_t * t :=
  if running tm then (LE_BUSY, tm)
  else (LE_OK, mk (name tm) (interval tm) (contextIsApp tm) (handler tm) (repeatCount tm) true).

Definition Stop (tm : t) : le_result_t * t :=
  if running tm
  then (LE_OK, mk (name tm) (interval tm) (contextIsApp tm) (handler tm) (repeatCount tm) false)
  else (LE_FAULT, tm).

End Timer.

(** ** Data of [app.c] *)

Inductive app_State_t := APP_STATE_STOPPED | APP_STATE_RUNNING.

Inductive KillType_t := KILL_SOFT | KILL_HARD.

Inductive proc_State_t := PROC_STATE_STOPPED | PROC_STATE_RUNNING.

Inductive FaultAction_t :=
| FAULT_ACTION_NONE | FAULT_ACTION_IGNORE | FAULT_ACTION_RESTART_PROC
| FAULT_ACTION_RESTART_APP | FAULT_ACTION_STOP_APP | FAULT_ACTION_REBOOT.

Inductive wdog_action_WatchdogAction_t :=
| WATCHDOG_ACTION_NOT_FOUND | WATCHDOG_ACTION_IGNORE | WATCHDOG_ACTION_RESTART
| WATCHDOG_ACTION_STOP | WATCHDOG_ACTION_RESTART_APP | WATCHDOG_ACTION_STOP_APP
| WATCHDOG_ACTION_REBOOT | WATCHDOG_ACTION_ERROR | WATCHDOG_ACTION_HANDLED.

(** What [cgrp_frz_GetState] hands back: a freeze state, or [LE_FAULT]
    cast to the enumeration. *)
Inductive cgrp_FreezeState_t := CGRP_FROZEN | CGRP_THAWED | CGRP_FRZ_FAULT.

#[global] Instance app_State_eq_dec : EqDecision app_State_t.
Proof. solve_decision. Defined.
#[global] Instance proc_State_eq_dec : EqDecision proc_State_t.
Proof. solve_decision. Defined.
#[global] Instance FaultAction_eq_dec : EqDecision FaultAction_t.
Proof. solve_decision. Defined.
#[global] Instance wdog_action_eq_dec : EqDecision wdog_action_WatchdogAction_t.
Proof. solve_decision. Defined.

Definition SIGKILL : Z := 9.
Definition SIGTERM : Z := 15.

(** Mode bits of [sys/stat.h]. *)
Definition S_IRUSR : Z := 256.
Definition S_IXUSR : Z := 64.
Definition S_IRWXU : Z := 448.
Definition S_IROTH : Z := 4.
Definition S_IXOTH : Z := 1.
Definition S_IRWXO : Z := 7.

(** Mount flags of [sys/mount.h]. *)
Definition MS_NOSUID : Z := 2.
Definition MS_BIND : Z := 4096.

Definition EINTR : Z := 4.
Definition ENOENT : Z := 2.

(** A process object of [proc.c], known to [app.c] by its reference only. *)
Definition proc_Ref_t := nat.

(** [ProcStopHandler_t]: the only function [app.c] ever stores in a
    container's [stopHandler] is [proc_Start]. *)
Inductive ProcStopHandler_t := StopHandler_proc_Start.

(** The process container object. *)
Record ProcContainer_t := mkProcContainer {
  procRef : proc_Ref_t;
  stopHandler : option ProcStopHandler_t;
  externStopHandler : option nat;      (* a callback of the caller, known by its address *)
  externContextPtr : Z
}.

Definition set_stopHandler (h : option ProcStopHandler_t) (c : ProcContainer_t)
  : ProcContainer_t :=
  mkProcContainer (procRef c) h (externStopHandler c) (externContextPtr c).

(** The application object. *)
Record App_t := mkApp {
  name : string;
  cfgPathRoot : string;
  sandboxed : bool;
  installDirPath : string;
  workingDir : string;
  uid : uid_t;
  gid : gid_t;
  supplementGids : list gid_t;         (* LIMIT_MAX_NUM_SUPPLEMENTARY_GROUPS slots *)
  numSupplementGids : nat;
  state : app_State_t;
  procs : list ProcContainer_t;
  auxProcs : list ProcContainer_t;
  killTimer : option Timer.t           (* [None] is the NULL reference *)
}.

Definition set_cfgPathRoot_name (root n : string) (a : App_t) : App_t :=
  mkApp n root (sandboxed a) (installDirPath a) (workingDir a)
        (uid a) (gid a) (supplementGids a) (numSupplementGids a) (state a)
        (procs a) (auxProcs a) (killTimer a).

Definition set_sandboxed (v : bool) (a : App_t) : App_t :=
  mkApp (name a) (cfgPathRoot a) v (installDirPath a) (workingDir a)
        (uid a) (gid a) (supplementGids a) (numSupplementGids a) (state a)
        (procs a) (auxProcs a) (killTimer a).

Definition set_state (v : app_State_t) (a : App_t) : App_t :=
  mkApp (name a) (cfgPathRoot a) (sandboxed a) (installDirPath a) (workingDir a)
        (uid a) (gid a) (supplementGids a) (numSupplementGids a) v
        (procs a) (auxProcs a) (killTimer a).

Definition set_procs (v : list ProcContainer_t) (a : App_t) : App_t :=
  mkApp (name a) (cfgPathRoot a) (sandboxed a) (installDirPath a) (workingDir a)
        (uid a) (gid a) (supplementGids a) (numSupplementGids a) (state a)
        v (auxProcs a) (killTimer a).

Definition set_auxProcs (v : list ProcContainer_t) (a : App_t) : App_t :=
  mkApp (name a) (cfgPathRoot a) (sandboxed a) (installDirPath a) (workingDir a)
        (uid a) (gid a) (supplementGids a) (numSupplementGids a) (state a)
        (procs a) v (killTimer a).

Definition set_killTimer (v : option Timer.t) (a : App_t) : App_t :=
  mkApp (name a) (cfgPathRoot a) (sandboxed a) (installDirPath a) (workingDir a)
        (uid a) (gid a) (supplementGids a) (numSupplementGids a) (state a)
        (procs a) (auxProcs a) v.

Definition set_ids (u : uid_t) (g : gid_t) (a : App_t) : App_t :=
  mkApp (name a) (cfgPathRoot a) (sandboxed a) (installDirPath a) (workingDir a)
        u g (supplementGids a) (numSupplementGids a) (state a)
        (procs a) (auxProcs a) (killTimer a).

Definition set_supplementGids (v : list gid_t) (a : App_t) : App_t :=
  mkApp (name a) (cfgPathRoot a) (sandboxed a) (installDirPath a) (workingDir a)
        (uid a) (gid a) v (numSupplementGids a) (state a)
        (procs a) (auxProcs a) (killTimer a).

Definition set_numSupplementGids (v : nat) (a : App_t) : App_t :=
  mkApp (name a) (cfgPathRoot a) (sandboxed a) (installDirPath a) (workingDir a)
        (uid a) (gid a) (supplementGids a) v (state a)
        (procs a) (auxProcs a) (killTimer a).

(** What [stat] reports about a path, as far as [app.c] looks at it. *)
Record stat_t := mkStat { st_isdir : bool; st_ino : Z }.

(** ** The interaction history *)

(** One entry per call that acts on the world outside [app.c] or polls
    it, with the arguments passed and the answer received. *)
Inductive Event :=
| E_cgrp_frz_Freeze (cgroup : string) (r : le_result_t)
| E_cgrp_frz_GetState (cgroup : string) (r : cgrp_FreezeState_t)
| E_cgrp_SendSig (cgroup : string) (sig : Z) (r : Z)
| E_cgrp_frz_Thaw (cgroup : string) (r : le_result_t)
| E_cgrp_IsEmpty (cgroup : string) (r : bool)
| E_proc_Stopping (p : proc_Ref_t)
| E_proc_Start (p : proc_Ref_t) (r : le_result_t)
| E_proc_SigChildHandler (p : proc_Ref_t) (status : Z) (r : FaultAction_t)
| E_proc_Delete (p : proc_Ref_t)
| E_kill_Hard (pid : pid_t)
| E_externStopHandler (h : nat) (status : Z) (ctx : Z)
| E_smack_SetRule (subject permission object : string)
| E_smack_SetLabel (path label : string) (r : le_result_t)
| E_smack_RevokeSubject (label : string)
| E_resLim_CleanupApp (app : string)
| E_user_GetIDs (user : string) (r : le_result_t) (u : uid_t) (g : gid_t)
| E_user_CreateGroup (group : string) (r : le_result_t) (g : gid_t)
| E_le_cfg_CreateReadTxn (path : string)
| E_le_cfg_CancelTxn (wasLive : bool)
| E_le_cfg_OnCancelled (function : string) (r : le_result_t) (out : string)
| E_dir_MakeSmack (path : string) (mode : Z) (label : string) (r : le_result_t)
| E_dir_MakePathSmack (path : string) (mode : Z) (label : string) (r : le_result_t)
| E_fs_TryLazyUmount (path : string)
| E_mount (source target fstype : string) (flags : Z) (data : string) (r : Z)
| E_stat (path : string) (r : option stat_t)
| E_open (path : string) (fd : Z) (errno : Z)
| E_fd_Close (fd : Z)
| E_symlink (target linkpath : string) (r : Z)
| E_unlink (path : string) (r : Z)
| E_le_timer_Delete (timer : string)
| E_le_mem_Release (what : string).

Definition Trace := list Event.

(** ** What [app.c] takes from the rest of the system *)

Record Ext := mkExt {
  (* limit.h and the build *)
  LIMIT_MAX_NUM_SUPPLEMENTARY_GROUPS : nat;
  LIMIT_MAX_USER_NAME_BYTES : nat;
  LIMIT_MAX_PATH_BYTES : nat;
  LIMIT_MAX_APP_NAME_BYTES : nat;
  LIMIT_MAX_FAULT_ACTION_NAME_BYTES : nat;
  LE_SVCDIR_SERVER_SOCKET_NAME : string;
  LE_SVCDIR_CLIENT_SOCKET_NAME : string;
  (* utf8.c, path.c: functions of their arguments *)
  le_utf8_Copy : string -> nat -> le_result_t * string;
  le_path_Concat : string -> string -> nat -> list string -> le_result_t * string;
  le_path_GetBasenamePtr : string -> string -> string;
  le_path_GetDir : string -> string -> nat -> le_result_t * string;
  (* smack.c *)
  smack_GetAppLabel : string -> string;
  smack_GetAppAccessLabel : string -> Z -> string;
  smack_SetLabel : Trace -> string -> string -> le_result_t;
  (* user.c *)
  user_AppNameToUserName : string -> nat -> le_result_t * string;
  user_GetIDs : Trace -> string -> le_result_t * uid_t * gid_t;
  user_CreateGroup : Trace -> string -> le_result_t * gid_t;
  (* cgroups.c *)
  cgrp_frz_Freeze : Trace -> string -> le_result_t;
  cgrp_frz_GetState : Trace -> string -> cgrp_FreezeState_t;
  cgrp_SendSig : Trace -> string -> Z -> Z;
  cgrp_frz_Thaw : Trace -> string -> le_result_t;
  cgrp_IsEmpty : Trace -> string -> bool;
  (* proc.c *)
  proc_GetState : Trace -> proc_Ref_t -> proc_State_t;
  proc_GetPID : Trace -> proc_Ref_t -> pid_t;
  proc_GetName : proc_Ref_t -> string;
  proc_Start : Trace -> proc_Ref_t -> le_result_t;
  proc_SigChildHandler : Trace -> proc_Ref_t -> Z -> FaultAction_t;
  proc_GetWatchdogAction : Trace -> proc_Ref_t -> wdog_action_WatchdogAction_t;
  (* watchdogAction.c *)
  wdog_action_GetConfigNode : string;
  wdog_action_EnumFromString : string -> wdog_action_WatchdogAction_t;
  (* the config tree: the snapshot a new read transaction sees, and what
     a call on a cancelled transaction comes back with *)
  le_cfg_snapshot : Trace -> string -> Cfg.Tree;
  le_cfg_on_cancelled : Trace -> string -> le_result_t * string;
  (* dir.c, fileSystem.c, libc *)
  dir_MakeSmack : Trace -> string -> Z -> string -> le_result_t;
  dir_MakePathSmack : Trace -> string -> Z -> string -> le_result_t;
  mount : Trace -> string -> string -> string -> Z -> string -> Z;
  stat : Trace -> string -> option stat_t;
  open : Trace -> string -> Z * Z;
  symlink : Trace -> string -> string -> Z;
  unlink : Trace -> string -> Z;
  (* memory: the byte in front of a string, which [s[strlen(s)-1]] reads
     when [s] is empty *)
  byte_before : Trace -> string -> ascii
}.

(** ** Runs of [app.c] code *)

Record St := mkSt { st_app : App_t; st_trace : Trace }.

Inductive Res (A : Type) :=
| Done (a : A) (s : St)
| Fatal (s : St)
| OutOfFuel.
Arguments Done {A} a s.
Arguments Fatal {A} s.
Arguments OutOfFuel {A}.

Definition M (A : Type) := St -> Res A.

Definition ret {A} (a : A) : M A := fun s => Done a s.

Definition bind {A B} (m : M A) (k : A -> M B) : M B :=
  fun s => match m s with
           | Done a s' => k a s'
           | Fatal s' => Fatal s'
           | OutOfFuel => OutOfFuel
           end.

Notation "'let!' x ':=' m 'in' k" := (bind m (fun x => k))
  (at level 10, x pattern, m at level 100, k at level 200).
Notation "m ';;;' k" := (bind m (fun _ => k))
  (at level 100, k at level 200, right associativity).

Definition get_app : M App_t := fun s => Done (st_app s) s.
Definition modify_app (f : App_t -> App_t) : M unit :=
  fun s => Done tt (mkSt (f (st_app s)) (st_trace s)).
Definition fatal {A} : M A := fun s => Fatal s.
Definition out_of_fuel {A} : M A := fun _ => OutOfFuel.

(** A call whose answer depends on the history and that enters it. *)
Definition call {R} (answer : Trace -> R) (entry : R -> Event) : M R :=
  fun s => let r := answer (st_trace s) in
           Done r (mkSt (st_app s) (st_trace s ++ [entry r])).

(** A call without an answer. *)
Definition emit (e : Event) : M unit :=
  fun s => Done tt (mkSt (st_app s) (st_trace s ++ [e])).

(** A getter: it reads what earlier calls have left and changes nothing. *)
Definition query {R} (answer : Trace -> R) : M R :=
  fun s => Done (answer (st_trace s)) s.

(** [LE_ASSERT (r == LE_OK)]. *)
Definition LE_ASSERT_OK (r : le_result_t) : M unit :=
  if decide (r = LE_OK) then ret tt else fatal.

(** ** The functions of [app.c] *)

Definition CFG_NODE_SANDBOXED : string := "sandboxed".
Definition CFG_NODE_GROUPS : string := "groups".
Definition CFG_NODE_PROC_LIST : string := "procs".
Definition CFG_NODE_BINDINGS : string := "bindings".

(** [KillTimeout]: one second. *)
Definition KillTimeout : Z * Z := (1, 0).

Section AppC.

Variable X : Ext.

(** *** Config tree calls

    On a live transaction the calls read the snapshot.  On a cancelled
    one the embedded files do not say what happens: the call is entered
    in the history and answered by [le_cfg_on_cancelled]. *)

Definition on_cancelled (function : string) : M (le_result_t * string) :=
  call (fun tr => le_cfg_on_cancelled X tr function)
       (fun r => E_le_cfg_OnCancelled function (fst r) (snd r)).

Definition le_cfg_CreateReadTxn (path : string) : M Cfg.Iter :=
  let! t := call (fun tr => le_cfg_snapshot X tr path)
                 (fun _ => E_le_cfg_CreateReadTxn path) in
  ret (Cfg.CreateReadTxn t).

Definition le_cfg_CancelTxn (it : Cfg.Iter) : M Cfg.Iter :=
  emit (E_le_cfg_CancelTxn (Cfg.live it)) ;;; ret (Cfg.CancelTxn it).

Definition le_cfg_GoToNode (it : Cfg.Iter) (n : string) : M Cfg.Iter :=
  if Cfg.live it then ret (Cfg.GoToNode it n)
  else on_cancelled "le_cfg_GoToNode" ;;; ret it.

Definition le_cfg_GoToFirstChild (it : Cfg.Iter) : M (le_result_t * Cfg.Iter) :=
  if Cfg.live it then ret (Cfg.GoToFirstChild it)
  else let! r := on_cancelled "le_cfg_GoToFirstChild" in ret (fst r, it).

Definition le_cfg_GoToNextSibling (it : Cfg.Iter) : M (le_result_t * Cfg.Iter) :=
  if Cfg.live it then ret (Cfg.GoToNextSibling it)
  else let! r := on_cancelled "le_cfg_GoToNextSibling" in ret (fst r, it).

Definition le_cfg_GetNodeName (it : Cfg.Iter) (path : string) (bufSize : nat)
  : M (le_result_t * string) :=
  if Cfg.live it then ret (Cfg.GetNodeName it path bufSize)
  else on_cancelled "le_cfg_GetNodeName".

Definition le_cfg_GetString (it : Cfg.Iter) (path : string) (bufSize : nat)
    (default : string) : M (le_result_t * string) :=
  if Cfg.live it then ret (Cfg.GetString it path bufSize default)
  else on_cancelled "le_cfg_GetString".

Definition le_cfg_GetBool (it : Cfg.Iter) (path : string) (default : bool) : M bool :=
  if Cfg.live it then ret (Cfg.GetBool it path default)
  else let! r := on_cancelled "le_cfg_GetBool" in
       ret (if decide (fst r = LE_OK) then negb (String.eqb (snd r) "") else default).

(** *** Identity: [CreateSupplementaryGroups], [CreateUserAndGroups] *)

(** The [for] loop of [CreateSupplementaryGroups], [k] iterations before
    [i] reaches the bound.  [None]: the function has returned [LE_FAULT]
    from inside the loop (the transaction is cancelled by then);
    [Some (i, it)]: the loop is left with index [i]. *)
Fixpoint groups_loop (k i : nat) (it : Cfg.Iter) : M (option (nat * Cfg.Iter)) :=
  match k with
  | O => ret (Some (i, it))
  | S k' =>
      let! nm := le_cfg_GetNodeName it "" (LIMIT_MAX_USER_NAME_BYTES X) in
      if decide (fst nm <> LE_OK) then le_cfg_CancelTxn it ;;; ret None
      else
        let! g := call (fun tr => user_CreateGroup X tr (snd nm))
                       (fun r => E_user_CreateGroup (snd nm) (fst r) (snd r)) in
        if decide (fst g = LE_FAULT) then le_cfg_CancelTxn it ;;; ret None
        else
          modify_app (fun a => set_supplementGids (<[i := snd g]> (supplementGids a)) a) ;;;
          let! nx := le_cfg_GoToNextSibling it in
          if decide (fst nx <> LE_OK) then ret (Some (i, snd nx))
          else if decide (LIMIT_MAX_NUM_SUPPLEMENTARY_GROUPS X - 1 <= i)%nat
               then le_cfg_CancelTxn (snd nx) ;;; ret None
               else groups_loop k' (S i) (snd nx)
  end.

Definition CreateSupplementaryGroups : M le_result_t :=
  let! appRef := get_app in
  let! cfgIter := le_cfg_CreateReadTxn (cfgPathRoot appRef) in
  let! cfgIter := le_cfg_GoToNode cfgIter CFG_NODE_GROUPS in
  let! fc := le_cfg_GoToFirstChild cfgIter in
  if decide (fst fc <> LE_OK) then le_cfg_CancelTxn (snd fc) ;;; ret LE_OK
  else
    let! r := groups_loop (LIMIT_MAX_NUM_SUPPLEMENTARY_GROUPS X) 0 (snd fc) in
    match r with
    | None => ret LE_FAULT
    | Some (i, it) =>
        modify_app (set_numSupplementGids (i + 1)) ;;;
        le_cfg_CancelTxn it ;;; ret LE_OK
    end.

Definition CreateUserAndGroups : M le_result_t :=
  let! appRef := get_app in
  if sandboxed appRef then
    let un := user_AppNameToUserName X (name appRef) (LIMIT_MAX_USER_NAME_BYTES X) in
    if decide (fst un <> LE_OK) then ret LE_FAULT
    else
      let! ids := call (fun tr => user_GetIDs X tr (snd un))
                       (fun r => E_user_GetIDs (snd un) (fst (fst r)) (snd (fst r)) (snd r)) in
      if decide (fst (fst ids) <> LE_OK) then ret LE_FAULT
      else
        modify_app (set_ids (snd (fst ids)) (snd ids)) ;;;
        CreateSupplementaryGroups
  else
    modify_app (set_ids 0 0) ;;; ret LE_OK.

(** *** [app_GetSupplementaryGroups] *)

(** [for (i = from; i < from + k; i++) groupsPtr[i] = supplementGids[i]].
    [None]: an index outside the app's array or outside the caller's
    buffer. *)
Fixpoint copy_gids (k from : nat) (src buf : list gid_t) : option (list gid_t) :=
  match k with
  | O => Some buf
  | S k' =>
      g ← src !! from;
      if decide (from < length buf)%nat
      then copy_gids k' (S from) src (<[from := g]> buf)
      else None
  end.

(** [groupsPtr] is the caller's buffer, [numGroups] the value it stored
    in [*numGroupsPtr]; the result holds the return code, the buffer and
    [*numGroupsPtr] on return. *)
Definition app_GetSupplementaryGroups (appRef : App_t) (groupsPtr : list gid_t)
    (numGroups : nat) : option (le_result_t * list gid_t * nat) :=
  if decide (numSupplementGids appRef <= numGroups)%nat then
    buf ← copy_gids (numSupplementGids appRef) 0 (supplementGids appRef) groupsPtr;
    Some (LE_OK, buf, numSupplementGids appRef)
  else
    buf ← copy_gids numGroups 0 (supplementGids appRef) groupsPtr;
    Some (LE_OVERFLOW, buf, numSupplementGids appRef).

(** *** SMACK rules for bindings *)

(** The [do ... while] loop of [SetSmackRulesForBindings]. *)
Fixpoint bindings_loop (fuel : nat) (appLabelPtr : string) (bindCfg : Cfg.Iter)
  : M Cfg.Iter :=
  match fuel with
  | O => out_of_fuel
  | S fuel' =>
      let! sn := le_cfg_GetString bindCfg "app" (LIMIT_MAX_APP_NAME_BYTES X) "" in
      (if bool_decide (fst sn = LE_OK) && negb (String.eqb (snd sn) "") then
         let serverLabel := smack_GetAppLabel X (snd sn) in
         emit (E_smack_SetRule appLabelPtr "rw" serverLabel) ;;;
         emit (E_smack_SetRule serverLabel "rw" appLabelPtr)
       else ret tt) ;;;
      let! nx := le_cfg_GoToNextSibling bindCfg in
      if decide (fst nx = LE_OK) then bindings_loop fuel' appLabelPtr (snd nx)
      else ret (snd nx)
  end.

Definition SetSmackRulesForBindings (fuel : nat) (appLabelPtr : string) : M unit :=
  let! appRef := get_app in
  let! bindCfg := le_cfg_CreateReadTxn (cfgPathRoot appRef) in
  let! bindCfg := le_cfg_GoToNode bindCfg CFG_NODE_BINDINGS in
  let! fc := le_cfg_GoToFirstChild bindCfg in
  let! bindCfg := (if decide (fst fc <> LE_OK)
                   then le_cfg_CancelTxn (snd fc)       (* no [return] here *)
                   else ret (snd fc)) in
  let! bindCfg := bindings_loop fuel appLabelPtr bindCfg in
  le_cfg_CancelTxn bindCfg ;;; ret tt.

(** *** Kill escalation *)

(** The [while (1)] loop of [KillAppProcs] that polls the freeze state. *)
Fixpoint wait_frozen (fuel : nat) (cgroup : string) : M unit :=
  match fuel with
  | O => out_of_fuel
  | S fuel' =>
      let! freezeState := call (fun tr => cgrp_frz_GetState X tr cgroup)
                               (E_cgrp_frz_GetState cgroup) in
      match freezeState with
      | CGRP_FROZEN => ret tt
      | CGRP_FRZ_FAULT => ret tt
      | CGRP_THAWED => wait_frozen fuel' cgroup
      end
  end.

(** The walk over [procs] that tells the process objects they are about
    to be killed; it yields the containers as it leaves them. *)
Fixpoint tell_stopping (l : list ProcContainer_t) : M (list ProcContainer_t) :=
  match l with
  | [] => ret []
  | c :: rest =>
      let! st := query (fun tr => proc_GetState X tr (procRef c)) in
      let! c' := (if decide (st <> PROC_STATE_STOPPED)
                  then emit (E_proc_Stopping (procRef c)) ;;;
                       ret (set_stopHandler None c)
                  else ret c) in
      let! rest' := tell_stopping rest in
      ret (c' :: rest')
  end.

Definition KillAppProcs (fuel : nat) (killType : KillType_t) : M le_result_t :=
  let! appRef := get_app in
  let! frz := call (fun tr => cgrp_frz_Freeze X tr (name appRef))
                   (E_cgrp_frz_Freeze (name appRef)) in
  (if decide (frz = LE_OK) then wait_frozen fuel (name appRef) else ret tt) ;;;
  let! l := tell_stopping (procs appRef) in
  modify_app (set_procs l) ;;;
  let killSig := match killType with KILL_SOFT => SIGTERM | KILL_HARD => SIGKILL end in
  let! numProcs := call (fun tr => cgrp_SendSig X tr (name appRef) killSig)
                        (E_cgrp_SendSig (name appRef) killSig) in
  if decide (numProcs = le_result_code LE_FAULT) then ret LE_NOT_FOUND
  else
    call (fun tr => cgrp_frz_Thaw X tr (name appRef)) (E_cgrp_frz_Thaw (name appRef)) ;;;
    if decide (numProcs = 0) then ret LE_NOT_FOUND else ret LE_OK.

(** The expiry handler of the kill timer; the app is the timer's context. *)
Definition HardKillApp (fuel : nat) : M unit :=
  KillAppProcs fuel KILL_HARD ;;; ret tt.

(** *** Looking up process containers *)

Fixpoint FindProcContainerInList (tr : Trace) (l : list ProcContainer_t)
    (pid : pid_t) (i : nat) : option (nat * ProcContainer_t) :=
  match l with
  | [] => None
  | c :: rest =>
      if decide (proc_GetPID X tr (procRef c) = pid) then Some (i, c)
      else FindProcContainerInList tr rest pid (S i)
  end.

(** Where a container sits: the pointer [FindProcContainer] returns. *)
Inductive ContainerLoc := InProcs (i : nat) | InAuxProcs (i : nat).

Definition FindProcContainer (tr : Trace) (appRef : App_t) (pid : pid_t)
  : option (ContainerLoc * ProcContainer_t) :=
  match FindProcContainerInList tr (procs appRef) pid 0 with
  | Some (i, c) => Some (InProcs i, c)
  | None =>
      match FindProcContainerInList tr (auxProcs appRef) pid 0 with
      | Some (i, c) => Some (InAuxProcs i, c)
      | None => None
      end
  end.

(** An assignment through the container pointer. *)
Definition store_container (loc : ContainerLoc) (c : ProcContainer_t) (a : App_t) : App_t :=
  match loc with
  | InProcs i => set_procs (<[i := c]> (procs a)) a
  | InAuxProcs i => set_auxProcs (<[i := c]> (auxProcs a)) a
  end.

Definition HasRunningProc : M bool :=
  let! appRef := get_app in
  let! e := call (fun tr => cgrp_IsEmpty X tr (name appRef)) (E_cgrp_IsEmpty (name appRef)) in
  ret (negb e).

Definition StopProc (p : proc_Ref_t) : M unit :=
  emit (E_proc_Stopping p) ;;;
  let! pid := query (fun tr => proc_GetPID X tr p) in
  emit (E_kill_Hard pid).

(** Calling through a [ProcStopHandler_t]. *)
Definition call_stopHandler (h : ProcStopHandler_t) (p : proc_Ref_t) : M le_result_t :=
  match h with
  | StopHandler_proc_Start => call (fun tr => proc_Start X tr p) (E_proc_Start p)
  end.

(** *** The sandbox's /tmp and the links into it *)

Definition APP_TMPFS_SIZE : string := "90112".

Definition CreateTmpFs (appDirLabelPtr : string) : M le_result_t :=
  let! appRef := get_app in
  let tmp := le_path_Concat X "/" "" (LIMIT_MAX_PATH_BYTES X) [workingDir appRef; "tmp"] in
  if decide (fst tmp <> LE_OK) then ret LE_FAULT
  else
    let tmpPath := snd tmp in
    let! mk := call (fun tr => dir_MakeSmack X tr tmpPath S_IRWXO appDirLabelPtr)
                    (E_dir_MakeSmack tmpPath S_IRWXO appDirLabelPtr) in
    if decide (mk = LE_FAULT) then ret LE_FAULT
    else
      let opt := "size=" +:+ APP_TMPFS_SIZE +:+ ",mode=0007,uid=0,gid=0,smackfsdef="
                 +:+ appDirLabelPtr +:+ ",smackfsroot=" +:+ appDirLabelPtr in
      if decide (LIMIT_MAX_APP_NAME_BYTES X * 2 + 100 <= String.length opt)%nat
      then ret LE_FAULT
      else
        emit (E_fs_TryLazyUmount tmpPath) ;;;
        let! m := call (fun tr => mount X tr "tmpfs" tmpPath "tmpfs" MS_NOSUID opt)
                       (E_mount "tmpfs" tmpPath "tmpfs" MS_NOSUID opt) in
        if decide (m = -1) then ret LE_FAULT
        else call (fun tr => smack_SetLabel X tr tmpPath appDirLabelPtr)
                  (E_smack_SetLabel tmpPath appDirLabelPtr).

(** [destPtr[strlen(destPtr)-1]] is the last byte of [destPtr].  For
    the empty string the index wraps around to the largest [size_t],
    and what is read is the byte that memory holds in front of the
    string: [before]. *)
Definition GetAbsDestPath (before : ascii) (destPtr srcPtr appRunDir : string) (bufSize : nat)
  : le_result_t * string :=
  let c := match String.get (String.length destPtr - 1) destPtr with
           | Some c => c
           | None => before
           end in
  if Ascii.eqb c "/"
  then le_path_Concat X "/" "" bufSize
         [appRunDir; destPtr; le_path_GetBasenamePtr X srcPtr "/"]
  else le_path_Concat X "/" "" bufSize [appRunDir; destPtr].

Definition CreateIntermediateDirs (pathPtr smackLabelPtr : string) : M le_result_t :=
  let d := le_path_GetDir X pathPtr "/" (LIMIT_MAX_PATH_BYTES X) in
  if decide (fst d <> LE_OK) then ret LE_FAULT
  else
    let mode := Z.lor (Z.lor S_IRUSR S_IXUSR) (Z.lor S_IROTH S_IXOTH) in
    let! r := call (fun tr => dir_MakePathSmack X tr (snd d) mode smackLabelPtr)
                   (E_dir_MakePathSmack (snd d) mode smackLabelPtr) in
    if decide (r = LE_FAULT) then ret LE_FAULT else ret LE_OK.

Definition DoesLinkExist (srcStat : stat_t) (destPath : string) : M bool :=
  let! appRef := get_app in
  let! destStat := call (fun tr => stat X tr destPath) (E_stat destPath) in
  match destStat with
  | None => ret false
  | Some destStat =>
      if decide (st_ino srcStat = st_ino destStat) then ret true
      else
        (if negb (sandboxed appRef)
         then call (fun tr => unlink X tr destPath) (E_unlink destPath) ;;; ret tt
         else ret tt) ;;;
        ret false
  end.

(** [while (((fd = open(...)) == -1) && (errno == EINTR)) {}]. *)
Fixpoint open_retry (fuel : nat) (path : string) : M Z :=
  match fuel with
  | O => out_of_fuel
  | S fuel' =>
      let! r := call (fun tr => open X tr path) (fun r => E_open path (fst r) (snd r)) in
      if decide (fst r = -1 /\ snd r = EINTR) then open_retry fuel' path
      else ret (fst r)
  end.

Definition CreateFileLink (fuel : nat) (appDirLabelPtr srcPtr destPtr : string)
  : M le_result_t :=
  let! appRef := get_app in
  let! srcStat := call (fun tr => stat X tr srcPtr) (E_stat srcPtr) in
  match srcStat with
  | None => ret LE_FAULT
  | Some srcStat =>
      if st_isdir srcStat then ret LE_FAULT
      else
        let! before := query (fun tr => byte_before X tr destPtr) in
        let abs := GetAbsDestPath before destPtr srcPtr (workingDir appRef)
                                  (LIMIT_MAX_PATH_BYTES X) in
        let destPath := snd abs in
        if decide (fst abs <> LE_OK) then ret LE_FAULT
        else
          let! r := CreateIntermediateDirs destPath appDirLabelPtr in
          if decide (r <> LE_OK) then ret LE_FAULT
          else
            let! ex := DoesLinkExist srcStat destPath in
            if ex then ret LE_OK
            else if sandboxed appRef then
              let! fd := open_retry fuel destPath in
              if decide (fd = -1) then ret LE_FAULT
              else
                emit (E_fd_Close fd) ;;;
                let! m := call (fun tr => mount X tr srcPtr destPath "" MS_BIND "")
                               (E_mount srcPtr destPath "" MS_BIND "") in
                if decide (m <> 0) then ret LE_FAULT else ret LE_OK
            else
              let! sl := call (fun tr => symlink X tr srcPtr destPath)
                              (E_symlink srcPtr destPath) in
              if decide (sl <> 0) then ret LE_FAULT else ret LE_OK
  end.

(** [DefaultTmpLinks]: source and destination of each link. *)
Definition DefaultTmpLinks : list (string * string) :=
  [ (LE_SVCDIR_SERVER_SOCKET_NAME X, "/tmp/legato/");
    (LE_SVCDIR_CLIENT_SOCKET_NAME X, "/tmp/legato/") ].

Fixpoint create_links (fuel : nat) (appDirLabelPtr : string) (links : list (string * string))
  : M le_result_t :=
  match links with
  | [] => ret LE_OK
  | (src, dest) :: rest =>
      let! r := CreateFileLink fuel appDirLabelPtr src dest in
      if decide (r <> LE_OK) then ret LE_FAULT
      else create_links fuel appDirLabelPtr rest
  end.

Definition CreateDefaultTmpLinks (fuel : nat) (appDirLabelPtr : string) : M le_result_t :=
  create_links fuel appDirLabelPtr DefaultTmpLinks.

(** *** Creating and deleting the app object *)

Definition CleanupAppSmackSettings : M unit :=
  let! appRef := get_app in
  emit (E_smack_RevokeSubject (smack_GetAppLabel X (name appRef))).

Fixpoint DeleteProcContainersList (l : list ProcContainer_t) : M unit :=
  match l with
  | [] => ret tt
  | c :: rest =>
      emit (E_proc_Delete (procRef c)) ;;;
      emit (E_le_mem_Release "ProcContainer") ;;;
      DeleteProcContainersList rest
  end.

Definition app_Delete : M unit :=
  let! appRef := get_app in
  CleanupAppSmackSettings ;;;
  emit (E_resLim_CleanupApp (name appRef)) ;;;
  DeleteProcContainersList (procs appRef) ;;;
  DeleteProcContainersList (auxProcs appRef) ;;;
  (match killTimer appRef with
   | Some tm => emit (E_le_timer_Delete (Timer.name tm))
   | None => ret tt
   end) ;;;
  emit (E_le_mem_Release "App").

(** [app_Create].  The run starts with the block that [le_mem_ForceAlloc]
    hands out as the app object, its fields holding whatever the block
    held before.  The result is [true] for the app reference and [false]
    for NULL.  The steps after the identity step (install and working
    directory paths, the process list, resource limits, SMACK rules and
    the runtime area) are taken as the parameter [remaining_steps],
    which says whether they all succeeded. *)
Definition app_Create (remaining_steps : Cfg.Iter -> M bool) (cfgPathRootPtr : string)
  : M bool :=
  let cp := le_utf8_Copy X cfgPathRootPtr (LIMIT_MAX_PATH_BYTES X) in
  if decide (fst cp <> LE_OK) then emit (E_le_mem_Release "App") ;;; ret false
  else
    modify_app (set_cfgPathRoot_name (snd cp) (le_path_GetBasenamePtr X (snd cp) "/")) ;;;
    modify_app (set_procs []) ;;;
    modify_app (set_auxProcs []) ;;;
    modify_app (set_state APP_STATE_STOPPED) ;;;
    modify_app (set_killTimer None) ;;;
    let! cfgIterator := le_cfg_CreateReadTxn (snd cp) in
    let! sb := le_cfg_GetBool cfgIterator CFG_NODE_SANDBOXED true in
    modify_app (set_sandboxed sb) ;;;
    let failed := app_Delete ;;; le_cfg_CancelTxn cfgIterator ;;; ret false in
    let! r := CreateUserAndGroups in
    if decide (r <> LE_OK) then failed
    else
      let! ok := remaining_steps cfgIterator in
      if ok then le_cfg_CancelTxn cfgIterator ;;; ret true else failed.

(** *** Stopping and starting the app *)

Definition app_Stop (fuel : nat) : M unit :=
  let! appRef := get_app in
  if decide (state appRef = APP_STATE_STOPPED) then ret tt
  else
    let! r := KillAppProcs fuel KILL_SOFT in
    if decide (r = LE_NOT_FOUND) then modify_app (set_state APP_STATE_STOPPED)
    else
      let! appRef := get_app in
      let! tm :=
        (match killTimer appRef with
         | Some tm => ret tm
         | None =>
             let timerName := substring 0 (Nat.pred (LIMIT_MAX_PATH_BYTES X))
                                        (name appRef +:+ "_Killer") in
             let tm := Timer.Create timerName in
             let r1 := Timer.SetInterval tm KillTimeout in
             LE_ASSERT_OK (fst r1) ;;;
             let r2 := Timer.SetContextPtr (snd r1) in
             LE_ASSERT_OK (fst r2) ;;;
             let r3 := Timer.SetHandler (snd r2) Timer.HardKillApp_handler in
             LE_ASSERT_OK (fst r3) ;;;
             ret (snd r3)
         end) in
      modify_app (set_killTimer (Some (snd (Timer.Start tm)))).

(** The [while] loop of [app_Start] over the list of processes. *)
Fixpoint start_procs (fuel : nat) (l : list ProcContainer_t) : M le_result_t :=
  match l with
  | [] => ret LE_OK
  | c :: rest =>
      let! result := call (fun tr => proc_Start X tr (procRef c)) (E_proc_Start (procRef c)) in
      if decide (result <> LE_OK) then app_Stop fuel ;;; ret LE_FAULT
      else start_procs fuel rest
  end.

(** The block of [app_Start] that is run for sandboxed apps. *)
Definition start_sandbox (fuel : nat) : M le_result_t :=
  let! appRef := get_app in
  let appDirLabel := smack_GetAppAccessLabel X (name appRef) S_IRWXU in
  let! r := CreateTmpFs appDirLabel in
  if decide (r <> LE_OK) then ret LE_FAULT
  else
    let! r := CreateDefaultTmpLinks fuel appDirLabel in
    if decide (r <> LE_OK) then ret LE_FAULT else ret LE_OK.

Definition app_Start (fuel : nat) : M le_result_t :=
  let! appRef := get_app in
  if decide (state appRef = APP_STATE_RUNNING) then ret LE_FAULT
  else
    modify_app (set_state APP_STATE_RUNNING) ;;;
    let! r := (if sandboxed appRef then start_sandbox fuel else ret LE_OK) in
    if decide (r <> LE_OK) then ret LE_FAULT
    else start_procs fuel (procs appRef).

(** *** Watchdog time-outs *)

(** The second component is what the function has stored in
    [*watchdogActionPtr]; [None] when it has stored nothing. *)
Definition app_WatchdogTimeoutHandler (procPid : pid_t)
  : M (le_result_t * option wdog_action_WatchdogAction_t) :=
  let! appRef := get_app in
  let! found := query (fun tr => FindProcContainer tr appRef procPid) in
  match found with
  | None => ret (LE_NOT_FOUND, None)
  | Some (loc, procContainer) =>
      let procRef := procRef procContainer in
      let! watchdogAction := query (fun tr => proc_GetWatchdogAction X tr procRef) in
      let! watchdogAction :=
        (if decide (watchdogAction = WATCHDOG_ACTION_NOT_FOUND
                    \/ watchdogAction = WATCHDOG_ACTION_ERROR)
         then
           let! appCfg := le_cfg_CreateReadTxn (cfgPathRoot appRef) in
           let! str := le_cfg_GetString appCfg (wdog_action_GetConfigNode X)
                                        (LIMIT_MAX_FAULT_ACTION_NAME_BYTES X) "" in
           le_cfg_CancelTxn appCfg ;;;
           if decide (fst str = LE_OK)
           then ret (wdog_action_EnumFromString X (snd str))
           else ret WATCHDOG_ACTION_ERROR
         else ret watchdogAction) in
      match watchdogAction with
      | WATCHDOG_ACTION_NOT_FOUND =>
          modify_app (store_container loc
                        (set_stopHandler (Some StopHandler_proc_Start) procContainer)) ;;;
          StopProc procRef ;;;
          ret (LE_OK, Some WATCHDOG_ACTION_HANDLED)
      | WATCHDOG_ACTION_IGNORE => ret (LE_OK, Some WATCHDOG_ACTION_HANDLED)
      | WATCHDOG_ACTION_STOP =>
          StopProc procRef ;;;
          ret (LE_OK, Some WATCHDOG_ACTION_HANDLED)
      | WATCHDOG_ACTION_RESTART =>
          modify_app (store_container loc
                        (set_stopHandler (Some StopHandler_proc_Start) procContainer)) ;;;
          StopProc procRef ;;;
          ret (LE_OK, Some WATCHDOG_ACTION_HANDLED)
      | WATCHDOG_ACTION_RESTART_APP => ret (LE_OK, Some watchdogAction)
      | WATCHDOG_ACTION_STOP_APP => ret (LE_OK, Some watchdogAction)
      | WATCHDOG_ACTION_REBOOT => ret (LE_OK, Some watchdogAction)
      | WATCHDOG_ACTION_ERROR => ret (LE_OK, Some WATCHDOG_ACTION_HANDLED)
      | WATCHDOG_ACTION_HANDLED => ret (LE_OK, Some watchdogAction)
      end
  end.

(** *** SIGCHLD *)

(** The [switch] of [app_SigChildHandler] on what [proc_SigChildHandler]
    asks for; it yields the value left in [*faultActionPtr], which is
    [FAULT_ACTION_IGNORE] on entry. *)
Definition handle_proc_fault (procContainer : ProcContainer_t)
    (procFaultAction : FaultAction_t) : M FaultAction_t :=
  let procRef := procRef procContainer in
  match procFaultAction with
  | FAULT_ACTION_NONE =>
      match stopHandler procContainer with
      | Some h =>
          let! r := call_stopHandler h procRef in
          if decide (r <> LE_OK) then ret FAULT_ACTION_STOP_APP else ret FAULT_ACTION_IGNORE
      | None => ret FAULT_ACTION_IGNORE
      end
  | FAULT_ACTION_IGNORE => ret FAULT_ACTION_IGNORE
  | FAULT_ACTION_RESTART_PROC =>
      let! r := call (fun tr => proc_Start X tr procRef) (E_proc_Start procRef) in
      if decide (r <> LE_OK) then ret FAULT_ACTION_STOP_APP else ret FAULT_ACTION_IGNORE
  | FAULT_ACTION_RESTART_APP => ret FAULT_ACTION_RESTART_APP
  | FAULT_ACTION_STOP_APP => ret FAULT_ACTION_STOP_APP
  | FAULT_ACTION_REBOOT => ret FAULT_ACTION_REBOOT
  end.

(** The part of [app_SigChildHandler] before the check of the cgroup. *)
Definition sigchild_proc (procPid : pid_t) (procExitStatus : Z) : M FaultAction_t :=
  let! appRef := get_app in
  let! found := query (fun tr => FindProcContainer tr appRef procPid) in
  match found with
  | None => ret FAULT_ACTION_IGNORE
  | Some (_, procContainer) =>
      (match externStopHandler procContainer with
       | Some h => emit (E_externStopHandler h procExitStatus (externContextPtr procContainer))
       | None => ret tt
       end) ;;;
      let procRef := procRef procContainer in
      let! procFaultAction :=
        call (fun tr => proc_SigChildHandler X tr procRef procExitStatus)
             (E_proc_SigChildHandler procRef procExitStatus) in
      handle_proc_fault procContainer procFaultAction
  end.

Definition app_SigChildHandler (procPid : pid_t) (procExitStatus : Z) : M FaultAction_t :=
  let! faultAction := sigchild_proc procPid procExitStatus in
  let! running := HasRunningProc in
  (if negb running then
     let! appRef := get_app in
     (match killTimer appRef with
      | Some tm => modify_app (set_killTimer (Some (snd (Timer.Stop tm))))
      | None => ret tt
      end) ;;;
     modify_app (set_state APP_STATE_STOPPED)
   else ret tt) ;;;
  ret faultAction.

End AppC.

(** ** More of [app.c]: what the rest of the Supervisor calls *)

(** [app_ProcState_t] of [app.h]. *)
Inductive app_ProcState_t := APP_PROC_STATE_STOPPED | APP_PROC_STATE_RUNNING.

Definition MAX_DEVICE_PERM_STR_BYTES : nat := 3.

Definition S_IWUSR : Z := 128.

Definition set_externStopHandler (h : option nat) (ctx : Z) (c : ProcContainer_t)
  : ProcContainer_t :=
  mkProcContainer (procRef c) (stopHandler c) h ctx.

(** The container a pointer points to. *)
Definition container_at (loc : ContainerLoc) (a : App_t) : option ProcContainer_t :=
  match loc with
  | InProcs i => procs a !! i
  | InAuxProcs i => auxProcs a !! i
  end.

(** [strstr (haystack, needle) != NULL]. *)
Definition strstr (haystack needle : string) : bool :=
  match String.index 0 needle haystack with Some _ => true | None => false end.

Section AppApi.

Variable X : Ext.

(** *** Device permissions and the default SMACK rules *)

(** The string left in [bufPtr]. *)
Definition GetCfgPermissions (cfgIter : Cfg.Iter) (bufSize : nat) : M string :=
  if decide (bufSize < MAX_DEVICE_PERM_STR_BYTES)%nat then fatal
  else
    let! readable := le_cfg_GetBool X cfgIter "isReadable" false in
    let buf := if readable then "r" else "" in
    let! writable := le_cfg_GetBool X cfgIter "isWritable" false in
    let buf := if writable then buf +:+ "w" else buf in
    ret buf.

Definition permissionStr : list string := ["x"; "w"; "wx"; "r"; "rx"; "rw"; "rwx"].

(** The mode that the body of the [for] loop of [SetDefaultSmackRules]
    makes from a permission string. *)
Definition mode_of_permission (perm : string) : Z :=
  let mode := 0 in
  let mode := if strstr perm "r" then Z.lor mode S_IRUSR else mode in
  let mode := if strstr perm "w" then Z.lor mode S_IWUSR else mode in
  let mode := if strstr perm "x" then Z.lor mode S_IXUSR else mode in
  mode.

(** The [for] loop of [SetDefaultSmackRules]. *)
Fixpoint folder_rules (appNamePtr appLabelPtr : string) (perms : list string) : M unit :=
  match perms with
  | [] => ret tt
  | perm :: rest =>
      let dirLabel := smack_GetAppAccessLabel X appNamePtr (mode_of_permission perm) in
      emit (E_smack_SetRule appLabelPtr perm dirLabel) ;;;
      folder_rules appNamePtr appLabelPtr rest
  end.

Definition SetDefaultSmackRules (appNamePtr appLabelPtr : string) : M unit :=
  folder_rules appNamePtr appLabelPtr permissionStr ;;;
  emit (E_smack_SetRule "framework" "w" appLabelPtr) ;;;
  emit (E_smack_SetRule appLabelPtr "rw" "framework") ;;;
  emit (E_smack_SetRule appLabelPtr "w" "syslog").

(** *** Paths of the links that the config asks for *)

(** The result and what is left in [bufPtr]. *)
Definition GetDestPath (cfgIter : Cfg.Iter) (bufSize : nat) : M (le_result_t * string) :=
  let! r := le_cfg_GetString X cfgIter "dest" bufSize "" in
  if decide (fst r <> LE_OK) then ret (LE_FAULT, snd r)
  else if decide (String.get 0 (snd r) = None) then ret (LE_FAULT, snd r)
  else ret (LE_OK, snd r).

Definition GetSrcPath (cfgIter : Cfg.Iter) (bufSize : nat) : M (le_result_t * string) :=
  let! r := le_cfg_GetString X cfgIter "src" bufSize "" in
  if decide (fst r <> LE_OK) then ret (LE_FAULT, snd r)
  else if decide (String.get 0 (snd r) = None) then ret (LE_FAULT, snd r)
  else ret (LE_OK, snd r).


(** The [do ... while] loop of [CreateRequiredFileLinks].  [None]: the
    function has returned [LE_FAULT] from inside the loop. *)
Fixpoint required_links_loop (fuel : nat) (appDirLabelPtr : string) (cfgIter : Cfg.Iter)
  : M (option Cfg.Iter) :=
  match fuel with
  | O => out_of_fuel
  | S fuel' =>
      let! src := GetSrcPath cfgIter (LIMIT_MAX_PATH_BYTES X) in
      if decide (fst src <> LE_OK) then ret None
      else
        let! dest := GetDestPath cfgIter (LIMIT_MAX_PATH_BYTES X) in
        if decide (fst dest <> LE_OK) then ret None
        else
          let! r := CreateFileLink X fuel' appDirLabelPtr (snd src) (snd dest) in
          if decide (r <> LE_OK) then ret None
          else
            let! nx := le_cfg_GoToNextSibling X cfgIter in
            if decide (fst nx = LE_OK) then required_links_loop fuel' appDirLabelPtr (snd nx)
            else ret (Some (snd nx))
  end.

(** *** Process containers *)

(** The loop of [app_GetProcState] over [procs]: the first container
    whose process has the name. *)
Fixpoint find_by_name (l : list ProcContainer_t) (procNamePtr : string) (i : nat)
  : option (nat * ProcContainer_t) :=
  match l with
  | [] => None
  | c :: rest =>
      if String.eqb procNamePtr (proc_GetName X (procRef c)) then Some (i, c)
      else find_by_name rest procNamePtr (S i)
  end.

Definition app_GetProcState (tr : Trace) (appRef : App_t) (procName : string)
  : app_ProcState_t :=
  if decide (state appRef = APP_STATE_RUNNING) then
    match find_by_name (procs appRef) procName 0 with
    | Some (_, procContainer) =>
        match proc_GetState X tr (procRef procContainer) with
        | PROC_STATE_STOPPED => APP_PROC_STATE_STOPPED
        | PROC_STATE_RUNNING => APP_PROC_STATE_RUNNING
        end
    | None => APP_PROC_STATE_STOPPED
    end
  else APP_PROC_STATE_STOPPED.

Definition app_HasTopLevelProc (tr : Trace) (appRef : App_t) (pid : pid_t) : bool :=
  match FindProcContainer X tr appRef pid with Some _ => true | None => false end.

(** [appProcRef] is a pointer to a container of the app; a pointer to
    anything else ends the run. *)
Definition app_SetProcStopHandler (appProcRef : ContainerLoc) (stopHandler : option nat)
    (stopHandlerContextPtr : Z) : M unit :=
  let! appRef := get_app in
  match container_at appProcRef appRef with
  | Some c =>
      modify_app (store_container appProcRef
                    (set_externStopHandler stopHandler stopHandlerContextPtr c))
  | None => fatal
  end.

End AppApi.

(** ** What a run leaves behind *)

(** [m], run in state [s], leaves the app object as it is, and what it
    adds to the history satisfies [Q]: [Q (Some a) evs] when it returns
    [a] having added [evs], [Q None evs] when it ends in a fatal error
    having added [evs].  The run is out of fuel only if [starved]. *)
Definition runs {A} (starved : Prop) (Q : option A -> list Event -> Prop) (m : M A) (s : St)
  : Prop :=
  match m s with
  | Done a s' =>
      st_app s' = st_app s /\ exists evs, st_trace s' = st_trace s ++ evs /\ Q (Some a) evs
  | Fatal s' =>
      st_app s' = st_app s /\ exists evs, st_trace s' = st_trace s ++ evs /\ Q None evs
  | OutOfFuel => starved
  end.

(** What a call on a cancelled transaction enters in the history. *)
Definition is_cfg_event (e : Event) : Prop :=
  match e with E_le_cfg_OnCancelled _ _ _ => True | _ => False end.

(** The calls by which links are made and looked at: all that is done
    for a sandboxed app is done by bind mounts on files and directories
    made for the purpose, all that is done for an app that is not
    sandboxed by symbolic links, stale ones being removed. *)
Definition link_event (sandboxed : bool) (e : Event) : Prop :=
  match e with
  | E_stat _ _ | E_dir_MakePathSmack _ _ _ _ => True
  | E_open _ _ _ | E_fd_Close _ | E_mount _ _ _ _ _ _ | E_dir_MakeSmack _ _ _ _ =>
      sandboxed = true
  | E_symlink _ _ _ | E_unlink _ _ => sandboxed = false
  | _ => False
  end.

(** The entries [evs] show that a link from [src] is in place: they
    begin with the look at the source, which is a directory or not as
    [isdir] says, and they end with a look at the destination that
    finds the inode of the source there, with a bind mount of the source
    that succeeds, or with a symbolic link to the source that succeeds. *)
Definition link_in_place (isdir : bool) (src : string) (evs : list Event) : Prop :=
  exists srcStat mid e,
    evs = E_stat src (Some srcStat) :: mid ++ [e]
    /\ st_isdir srcStat = isdir
    /\ match e with
       | E_stat _ (Some destStat) => st_ino destStat = st_ino srcStat
       | E_mount source _ _ flags _ r => source = src /\ flags = MS_BIND /\ r = 0
       | E_symlink target _ r => target = src /\ r = 0
       | _ => False
       end.

(** The entries of a successful [CreateTmpFs] for the label [label]. *)
Definition tmpfs_mounted (label : string) (evs : list Event) : Prop :=
  exists tmpPath made opt mounted,
    evs = [E_dir_MakeSmack tmpPath S_IRWXO label made;
           E_fs_TryLazyUmount tmpPath;
           E_mount "tmpfs" tmpPath "tmpfs" MS_NOSUID opt mounted;
           E_smack_SetLabel tmpPath label LE_OK]
    /\ made <> LE_FAULT /\ mounted <> -1.

(** The gids that [user_CreateGroup] has handed out, in the order of
    the calls, with the names they were asked for. *)
Definition created_groups (evs : list Event) : list (string * gid_t) :=
  omap (fun e => match e with
                 | E_user_CreateGroup n _ g => Some (n, g)
                 | _ => None
                 end) evs.

(** The rule of [SetDefaultSmackRules] for the access that [r], [w] and
    [x] spell: the permission string, and the label of the directories
    of the app that have these user mode bits. *)
Definition folder_rule (X : Ext) (appNamePtr appLabelPtr : string) (r w x : bool) : Event :=
  E_smack_SetRule appLabelPtr
    ((if r then "r" else "") +:+ (if w then "w" else "") +:+ (if x then "x" else ""))
    (smack_GetAppAccessLabel X appNamePtr
       (Z.lor (Z.lor (if r then S_IRUSR else 0) (if w then S_IWUSR else 0))
              (if x then S_IXUSR else 0))).

(** The entries that deleting the containers of [l] leaves. *)
Definition deleted (l : list ProcContainer_t) : list Event :=
  flat_map (fun c => [E_proc_Delete (procRef c); E_le_mem_Release "ProcContainer"]) l.

(** "Ends in ['/']", said without indices. *)
Definition ends_with_slash (s : string) : Prop := exists p, s = p +:+ "/".

(** ** Conditions on the environment and on runs *)

Section Conditions.

Variable X : Ext.

(** The poll of the freeze state, started after the history [tr], is
    over within [fuel] polls. *)
Fixpoint polls_settle (fuel : nat) (cgroup : string) (tr : Trace) : bool :=
  match fuel with
  | O => false
  | S fuel' =>
      match cgrp_frz_GetState X tr cgroup with
      | CGRP_THAWED =>
          polls_settle fuel' cgroup (tr ++ [E_cgrp_frz_GetState cgroup CGRP_THAWED])
      | _ => true
      end
  end.

(** [KillAppProcs], entered in state [s], gets past its wait for the
    freeze with [fuel] polls: freezing fails, or the polls settle. *)
Definition freeze_settles (fuel : nat) (s : St) : bool :=
  let cgroup := name (st_app s) in
  let r := cgrp_frz_Freeze X (st_trace s) cgroup in
  if decide (r = LE_OK)
  then polls_settle fuel cgroup (st_trace s ++ [E_cgrp_frz_Freeze cgroup r])
  else true.

(** The entries that [KillAppProcs] makes before it sends the signal. *)
Definition is_preparation (e : Event) : Prop :=
  match e with
  | E_cgrp_frz_Freeze _ _ | E_cgrp_frz_GetState _ _ | E_proc_Stopping _ => True
  | _ => False
  end.

(** The signal of a kill type. *)
Definition kill_signal (killType : KillType_t) : Z :=
  match killType with KILL_SOFT => SIGTERM | KILL_HARD => SIGKILL end.

(** What [KillAppProcs] does up to the broadcast: it leaves a state
    [s1] in which only the containers of [procs] may differ from [s]. *)
Definition prepared (s s1 : St) : Prop :=
  exists l' pre,
    st_app s1 = set_procs l' (st_app s)
    /\ map procRef l' = map procRef (procs (st_app s))
    /\ st_trace s1 = st_trace s ++ pre
    /\ Forall is_preparation pre.

(** The kill timer as [app_Stop] sets it up on first use. *)
Definition new_kill_timer (a : App_t) : Timer.t :=
  Timer.mk (substring 0 (Nat.pred (LIMIT_MAX_PATH_BYTES X)) (name a +:+ "_Killer"))
           (Some KillTimeout) true (Some Timer.HardKillApp_handler) 1 false.

(** The kill timer after [app_Stop] has started it. *)
Definition armed_kill_timer (a : App_t) : Timer.t :=
  snd (Timer.Start (match killTimer a with Some tm => tm | None => new_kill_timer a end)).

(** The kill timer of the app object [a] is running. *)
Definition kill_timer_armed (a : App_t) : Prop :=
  exists tm, killTimer a = Some tm /\ Timer.running tm = true.

(** The claim about [app_Stop] as the specification words it, for one
    call on a running app, with [n] the number of processes the broadcast
    of the soft kill reports: either the freeze group is found empty and
    the state becomes STOPPED, or the state stays RUNNING and the kill
    timer is armed; and on return the kill timer is armed exactly when
    the group was not empty. *)
Definition app_Stop_claim (fuel : nat) (s : St) : Prop :=
  exists s1 s',
    prepared s s1
    /\ app_Stop X fuel s = Done tt s'
    /\ let n := cgrp_SendSig X (st_trace s1) (name (st_app s)) SIGTERM in
       ((n = 0 /\ state (st_app s') = APP_STATE_STOPPED)
        \/ (state (st_app s') = APP_STATE_RUNNING /\ kill_timer_armed (st_app s')))
       /\ (kill_timer_armed (st_app s') <-> 0 < n).

(** The claim about [KillAppProcs] as the specification words it, for one
    call: the signal of the kill type is broadcast, then the cgroup is
    thawed, and the result is [LE_NOT_FOUND] exactly when the broadcast
    reports that no process was signalled. *)
Definition KillAppProcs_claim (fuel : nat) (killType : KillType_t) (s : St) : Prop :=
  exists r s' s1 n thaw,
    KillAppProcs X fuel killType s = Done r s'
    /\ prepared s s1
    /\ st_trace s' = st_trace s1
                     ++ [E_cgrp_SendSig (name (st_app s))
                           (match killType with KILL_SOFT => SIGTERM | KILL_HARD => SIGKILL end) n;
                         E_cgrp_frz_Thaw (name (st_app s)) thaw]
    /\ (r = LE_NOT_FOUND <-> n = 0)
    /\ (r <> LE_NOT_FOUND -> r = LE_OK).

(** Every process of [l] starts, one after the other, after the
    history [tr]. *)
Fixpoint all_start (l : list ProcContainer_t) (tr : Trace) : bool :=
  match l with
  | [] => true
  | c :: rest =>
      bool_decide (proc_Start X tr (procRef c) = LE_OK)
      && all_start rest (tr ++ [E_proc_Start (procRef c) LE_OK])
  end.

(** The entries these starts leave in the history, in the order of [l]. *)
Definition start_events (l : list ProcContainer_t) : list Event :=
  map (fun c => E_proc_Start (procRef c) LE_OK) l.

(** [app_Start], entered in state [s] with the app STOPPED, gets to its
    loop over the processes in state [s0]: the app is marked RUNNING
    and, for a sandboxed app, /tmp and the links into it are set up. *)
Definition sandbox_ready (fuel : nat) (s s0 : St) : Prop :=
  (if sandboxed (st_app s) then start_sandbox X fuel else ret LE_OK)
    (mkSt (set_state APP_STATE_RUNNING (st_app s)) (st_trace s))
  = Done LE_OK s0.

(** What [app_Start] does with the list of processes once it has got
    to its loop in state [s0].  Either every process starts, and the
    result is [LE_OK]; or the processes of [pre] start, the next one,
    [c], does not, and the result is what [app_Stop] leaves when it is
    called right then, with [LE_FAULT] for a return value. *)
Definition app_Start_outcome (fuel : nat) (s s0 : St) : Prop :=
  (all_start (procs (st_app s)) (st_trace s0) = true ->
     app_Start X fuel s
     = Done LE_OK (mkSt (st_app s0) (st_trace s0 ++ start_events (procs (st_app s)))))
  /\ (forall pre c post r,
        procs (st_app s) = pre ++ c :: post ->
        all_start pre (st_trace s0) = true ->
        proc_Start X (st_trace s0 ++ start_events pre) (procRef c) = r ->
        r <> LE_OK ->
        let sfail := mkSt (st_app s0)
                          (st_trace s0 ++ start_events pre ++ [E_proc_Start (procRef c) r]) in
        app_Start X fuel s = (app_Stop X fuel ;;; ret LE_FAULT) sfail
        /\ (freeze_settles fuel sfail = true ->
            exists s', app_Stop X fuel sfail = Done tt s'
                       /\ app_Start X fuel s = Done LE_FAULT s')).

(** The process level has no watchdog action to offer. *)
Definition falls_back (s : St) (c : ProcContainer_t) : Prop :=
  proc_GetWatchdogAction X (st_trace s) (procRef c) = WATCHDOG_ACTION_NOT_FOUND
  \/ proc_GetWatchdogAction X (st_trace s) (procRef c) = WATCHDOG_ACTION_ERROR.

(** The watchdog action [app_WatchdogTimeoutHandler] acts on for the
    process of container [c]: the one of the process, or, when that is
    [NOT_FOUND] or [ERROR], the one under the app's own config node. *)
Definition resolved_watchdog_action (s : St) (c : ProcContainer_t)
  : wdog_action_WatchdogAction_t :=
  if decide (falls_back s c) then
    let t := le_cfg_snapshot X (st_trace s) (cfgPathRoot (st_app s)) in
    let str := Cfg.GetString (Cfg.CreateReadTxn t) (wdog_action_GetConfigNode X)
                             (LIMIT_MAX_FAULT_ACTION_NAME_BYTES X) "" in
    if decide (fst str = LE_OK) then wdog_action_EnumFromString X (snd str)
    else WATCHDOG_ACTION_ERROR
  else proc_GetWatchdogAction X (st_trace s) (procRef c).

(** The entries the look-up at app level leaves in the history. *)
Definition fallback_events (s : St) (c : ProcContainer_t) : list Event :=
  if decide (falls_back s c)
  then [E_le_cfg_CreateReadTxn (cfgPathRoot (st_app s)); E_le_cfg_CancelTxn true]
  else [].

(** The entries [StopProc] leaves in the history [tr]. *)
Definition stop_events (tr : Trace) (p : proc_Ref_t) : list Event :=
  [E_proc_Stopping p; E_kill_Hard (proc_GetPID X (tr ++ [E_proc_Stopping p]) p)].

(** The children of the node [n] under the app's config root, as a read
    transaction opened in state [s] sees them. *)
Definition config_children (n : string) (s : St) : list Cfg.Tree :=
  Cfg.children_here
    (Cfg.GoToNode (Cfg.CreateReadTxn (le_cfg_snapshot X (st_trace s) (cfgPathRoot (st_app s)))) n).

(** The rules one child of the bindings node gives rise to. *)
Definition binding_rules (appLabelPtr : string) (child : Cfg.Tree) : list Event :=
  let sn := Cfg.GetString (Cfg.mkIter true (Some child) []) "app"
                          (LIMIT_MAX_APP_NAME_BYTES X) "" in
  if bool_decide (fst sn = LE_OK) && negb (String.eqb (snd sn) "")
  then [E_smack_SetRule appLabelPtr "rw" (smack_GetAppLabel X (snd sn));
        E_smack_SetRule (smack_GetAppLabel X (snd sn)) "rw" appLabelPtr]
  else [].

(** The first steps of [SetSmackRulesForBindings] and of
    [CreateSupplementaryGroups]: open a read transaction on the app's
    config root, go to the node [n] and try its first child. *)
Definition node_iter (n : string) (s : St) : Cfg.Iter :=
  Cfg.GoToNode (Cfg.CreateReadTxn (le_cfg_snapshot X (st_trace s) (cfgPathRoot (st_app s)))) n.

(** The state in which [app_Create] calls [CreateUserAndGroups], when
    the config path fits: the block [st_app s] with the fields that
    [app_Create] has initialised by then. *)
Definition app_Create_init (cfgPathRootPtr : string) (s : St) : St :=
  let root := snd (le_utf8_Copy X cfgPathRootPtr (LIMIT_MAX_PATH_BYTES X)) in
  let it := Cfg.CreateReadTxn (le_cfg_snapshot X (st_trace s) root) in
  mkSt (set_sandboxed (Cfg.GetBool it CFG_NODE_SANDBOXED true)
          (set_killTimer None
             (set_state APP_STATE_STOPPED
                (set_auxProcs []
                   (set_procs []
                      (set_cfgPathRoot_name root (le_path_GetBasenamePtr X root "/")
                         (st_app s)))))))
       (st_trace s ++ [E_le_cfg_CreateReadTxn root]).

(** Two app objects that differ at most in the slots of
    [supplementGids]. *)
Definition same_but_gids (a a' : App_t) : Prop :=
  a' = set_supplementGids (supplementGids a') a.

(** The claim as the specification words it, for one call; [before]
    is the byte in front of [destPtr]. *)
Definition GetAbsDestPath_claim (before : ascii) (destPtr srcPtr appRunDir : string)
    (bufSize : nat) : Prop :=
  (ends_with_slash destPtr ->
     GetAbsDestPath X before destPtr srcPtr appRunDir bufSize
     = le_path_Concat X "/" "" bufSize
         [appRunDir; destPtr; le_path_GetBasenamePtr X srcPtr "/"])
  /\ (~ ends_with_slash destPtr ->
     GetAbsDestPath X before destPtr srcPtr appRunDir bufSize
     = le_path_Concat X "/" "" bufSize [appRunDir; destPtr]).

(** How [KillAppProcs] leaves a container [c] of [procs], as [c'],
    given the entries [evs] it adds to the history [tr].  Either the
    container is as it was, and at some point of these entries the
    process module said that its process is stopped; or it has lost its
    stop handler, and the process module was told of the kill at a point
    where it said that the process is not stopped. *)
Definition told_or_stopped (tr evs : Trace) (c c' : ProcContainer_t) : Prop :=
  (c' = c
   /\ exists pre post,
        evs = pre ++ post
        /\ proc_GetState X (tr ++ pre) (procRef c) = PROC_STATE_STOPPED)
  \/ (c' = set_stopHandler None c
      /\ exists pre post,
           evs = pre ++ E_proc_Stopping (procRef c) :: post
           /\ proc_GetState X (tr ++ pre) (procRef c) <> PROC_STATE_STOPPED).

(** The entries that the set-up of a sandbox makes: those of the tmpfs
    and those of the links into it. *)
Definition sandbox_event (e : Event) : Prop :=
  match e with
  | E_fs_TryLazyUmount _ | E_smack_SetLabel _ _ _ => True
  | _ => link_event true e
  end.

End Conditions.

(** ** A sample environment

    Concrete collaborators on which the definitions above can be run: the
    knobs of [Sample.World] fix the answers that the examples vary. *)

Module Sample.

Fixpoint last_segment (acc s : string) : string :=
  match s with
  | EmptyString => acc
  | String c rest =>
      if Ascii.eqb c "/" then last_segment "" rest
      else last_segment (acc +:+ String c EmptyString) rest
  end.

Fixpoint join (sep : string) (segs : list string) : string :=
  match segs with
  | [] => ""
  | [x] => x
  | x :: rest => x +:+ sep +:+ join sep rest
  end.

Record World := mkWorld {
  w_config : Cfg.Tree;                          (* what every read transaction sees *)
  w_signalled : Z;                              (* answer of [cgrp_SendSig] *)
  w_empty : bool;                               (* answer of [cgrp_IsEmpty] *)
  w_start : proc_Ref_t -> le_result_t;          (* answer of [proc_Start] *)
  w_fault : FaultAction_t;                      (* answer of [proc_SigChildHandler] *)
  w_watchdog : wdog_action_WatchdogAction_t;    (* answer of [proc_GetWatchdogAction] *)
  w_mount : Z                                   (* answer of [mount] *)
}.

Definition action_of_string (s : string) : wdog_action_WatchdogAction_t :=
  if String.eqb s "" then WATCHDOG_ACTION_NOT_FOUND
  else if String.eqb s "ignore" then WATCHDOG_ACTION_IGNORE
  else if String.eqb s "restart" then WATCHDOG_ACTION_RESTART
  else if String.eqb s "stop" then WATCHDOG_ACTION_STOP
  else if String.eqb s "restartApp" then WATCHDOG_ACTION_RESTART_APP
  else if String.eqb s "stopApp" then WATCHDOG_ACTION_STOP_APP
  else if String.eqb s "reboot" then WATCHDOG_ACTION_REBOOT
  else WATCHDOG_ACTION_ERROR.

Definition ext (w : World) : Ext :=
  {| LIMIT_MAX_NUM_SUPPLEMENTARY_GROUPS := 3;
     LIMIT_MAX_USER_NAME_BYTES := 32;
     LIMIT_MAX_PATH_BYTES := 512;
     LIMIT_MAX_APP_NAME_BYTES := 48;
     LIMIT_MAX_FAULT_ACTION_NAME_BYTES := 20;
     LE_SVCDIR_SERVER_SOCKET_NAME := "/tmp/legato/serviceDirectoryServer";
     LE_SVCDIR_CLIENT_SOCKET_NAME := "/tmp/legato/serviceDirectoryClient";
     le_utf8_Copy := fun s n => Cfg.into_buffer s n;
     le_path_Concat := fun sep buf n segs => Cfg.into_buffer (buf +:+ join sep segs) n;
     le_path_GetBasenamePtr := fun s _ => last_segment "" s;
     le_path_GetDir := fun s _ n => Cfg.into_buffer s n;
     smack_GetAppLabel := fun a => "app." +:+ a;
     smack_GetAppAccessLabel := fun a _ => "app." +:+ a +:+ "rwx";
     smack_SetLabel := fun _ _ _ => LE_OK;
     user_AppNameToUserName := fun a n => Cfg.into_buffer ("app" +:+ a) n;
     user_GetIDs := fun _ _ => (LE_OK, 1001, 1001);
     user_CreateGroup := fun tr _ => (LE_OK, 2000 + Z.of_nat (length tr));
     cgrp_frz_Freeze := fun _ _ => LE_OK;
     cgrp_frz_GetState := fun _ _ => CGRP_FROZEN;
     cgrp_SendSig := fun _ _ _ => w_signalled w;
     cgrp_frz_Thaw := fun _ _ => LE_OK;
     cgrp_IsEmpty := fun _ _ => w_empty w;
     proc_GetState := fun _ _ => PROC_STATE_RUNNING;
     proc_GetPID := fun _ p => 100 + Z.of_nat p;
     proc_GetName := fun _ => "proc";
     proc_Start := fun _ p => w_start w p;
     proc_SigChildHandler := fun _ _ _ => w_fault w;
     proc_GetWatchdogAction := fun _ _ => w_watchdog w;
     wdog_action_GetConfigNode := "watchdogAction";
     wdog_action_EnumFromString := action_of_string;
     le_cfg_snapshot := fun _ _ => w_config w;
     le_cfg_on_cancelled := fun _ _ => (LE_NOT_FOUND, "");
     dir_MakeSmack := fun _ _ _ _ => LE_OK;
     dir_MakePathSmack := fun _ _ _ _ => LE_OK;
     mount := fun _ _ _ _ _ _ => w_mount w;
     stat := fun _ _ => Some (mkStat false 5);
     open := fun _ _ => (3, 0);
     symlink := fun _ _ _ => 0;
     unlink := fun _ _ => 0;
     byte_before := fun _ _ => Ascii.zero |}.

Definition no_config : Cfg.Tree := Cfg.Node "a" Cfg.VEmpty [].

Definition quiet : World :=
  mkWorld no_config 0 true (fun _ => LE_OK) FAULT_ACTION_NONE WATCHDOG_ACTION_NOT_FOUND 0.

(** An app object with the configured processes [ps]. *)
Definition app_with (ps : list ProcContainer_t) (st : app_State_t) (sb : bool)
    (tm : option Timer.t) : App_t :=
  mkApp "a" "/apps/a" sb "/legato/apps/a" "/legato/appsWriteable/a" 0 0 [0; 0; 0] 0 st
        ps [] tm.

Definition proc1 : ProcContainer_t := mkProcContainer 1%nat None None 0.
Definition proc2 : ProcContainer_t := mkProcContainer 2%nat None (Some 77%nat) 5.

(** An app object with one configured process. *)
Definition app : app_State_t -> bool -> option Timer.t -> App_t := app_with [proc1].

Definition armed_timer : Timer.t :=
  Timer.mk "a_Killer" (Some KillTimeout) true (Some Timer.HardKillApp_handler) 1 true.

(** For [le_thread_Join]: the operating system of the examples, and a
    process with one thread that is not joinable (the default). *)
Definition pthread_join (caller target : Thread.pthread_t) : Z :=
  if decide (caller = target) then Thread.EDEADLK else 0.

Definition thread_obj (joinable : bool) : Thread.thread_Obj_t :=
  Thread.mkThreadObj "worker" joinable Thread.THREAD_STATE_RUNNING 7 1%positive.

Definition threads (joinable : bool) : Thread.ThreadSt :=
  Thread.mkThreadSt {[ 1%positive := 5%positive ]} [5%positive] 1
                    {[ 5%positive := thread_obj joinable ]}.

(** For the rest of the thread runtime: a libc that obliges, pools and
    a reference map that hand out an address that is not in use, user
    code that stays out of the runtime, and the process above in full:
    its thread runs on the OS thread 7 and has the destructor stack
    [destructors]; the destructor object 1 carries the function 11,
    the destructor object 2 carries none. *)
Definition os : ThreadApi.OS :=
  {| ThreadApi.MAX_THREAD_NAME_SIZE := 24;
     ThreadApi.size_bits := 32;
     ThreadApi.LE_THREAD_PRIORITY_IDLE := 0;
     ThreadApi.LE_THREAD_PRIORITY_NORMAL := 1;
     ThreadApi.LE_THREAD_PRIORITY_RT_LOWEST := 2;
     ThreadApi.LE_THREAD_PRIORITY_RT_HIGHEST := 33;
     ThreadApi.PTHREAD_STACK_MIN := 16384;
     ThreadApi.le_utf8_Copy := fun s n => Cfg.into_buffer s n;
     ThreadApi.le_mem_ForceAlloc := fun _ pool => fresh (dom pool);
     ThreadApi.le_mem_ForceAlloc_destructor := fun _ pool => fresh (dom pool);
     ThreadApi.le_ref_CreateRef := fun _ m _ => fresh (dom m);
     ThreadApi.pthread_attr := fun _ _ _ => 0;
     ThreadApi.pthread_key_create := fun _ => 0;
     ThreadApi.pthread_setspecific := fun _ _ _ => 0;
     ThreadApi.pthread_create := fun h _ => (0, 100 + Z.of_nat (length h));
     ThreadApi.pthread_join := fun _ _ _ => 0;
     ThreadApi.pthread_cancel := fun _ _ => 0;
     ThreadApi.sched_setscheduler_idle := fun _ => 0 |}.

Definition user_code : nat -> Z -> ThreadApi.T unit := fun _ _ => ThreadApi.tret tt.

Definition sys (joinable : bool) (destructors : list ThreadApi.le_thread_DestructorRef_t)
  : ThreadApi.Sys :=
  ThreadApi.mkSys (threads joinable)
                  (fun _ => ThreadApi.mkMore 1 (Some 3%nat) 0 destructors)
                  {[ 1%positive := ThreadApi.Destructor.mk 5%positive (Some 11%nat) 100;
                     2%positive := ThreadApi.Destructor.mk 5%positive None 0 ]}
                  {[ 7 := 5%positive ]} true [].

End Sample.

(** * Properties *)

(** Histories grow at the end: bring the appends to a common shape. *)
Ltac norm_trace := repeat (first [rewrite <- app_assoc | progress simpl]).

(** ** Kill escalation *)

Section KillEscalation.

Variable X : Ext.

Lemma wait_frozen_settles (fuel : nat) (cgroup : string) : forall s,
  polls_settle X fuel cgroup (st_trace s) = true ->
  exists pre, wait_frozen X fuel cgroup s = Done tt (mkSt (st_app s) (st_trace s ++ pre))
              /\ Forall is_preparation pre.
Proof.
  induction fuel as [|fuel IH]; intros s H; simpl in H; [discriminate|].
  simpl. unfold bind, call. simpl.
  destruct (cgrp_frz_GetState X (st_trace s) cgroup) eqn:E.
  - eexists. split; [reflexivity|]. repeat constructor.
  - destruct (IH (mkSt (st_app s) (st_trace s ++ [E_cgrp_frz_GetState cgroup CGRP_THAWED])) H)
      as [pre [Hw Hp]].
    rewrite Hw. simpl. rewrite <- app_assoc. eexists. split; [reflexivity|].
    constructor; [exact I | exact Hp].
  - eexists. split; [reflexivity|]. repeat constructor.
Qed.

Lemma tell_stopping_total (l : list ProcContainer_t) : forall s,
  exists l' pre, tell_stopping X l s = Done l' (mkSt (st_app s) (st_trace s ++ pre))
                 /\ Forall is_preparation pre
                 /\ map procRef l' = map procRef l.
Proof.
  induction l as [|c rest IH]; intros s; simpl.
  - exists [], []. rewrite app_nil_r. destruct s. repeat split; constructor.
  - unfold bind, query. simpl.
    destruct (decide (proc_GetState X (st_trace s) (procRef c) <> PROC_STATE_STOPPED)).
    + simpl. unfold emit. simpl.
      destruct (IH (mkSt (st_app s) (st_trace s ++ [E_proc_Stopping (procRef c)])))
        as [l' [pre [Ht [Hp Hm]]]].
      rewrite Ht. simpl. rewrite <- app_assoc. eexists _, _.
      split; [reflexivity|]. split; [constructor; [exact I|exact Hp]|].
      simpl. rewrite Hm. reflexivity.
    + simpl. destruct (IH s) as [l' [pre [Ht [Hp Hm]]]].
      rewrite Ht. simpl. eexists _, _.
      split; [reflexivity|]. split; [exact Hp|].
      simpl. rewrite Hm. reflexivity.
Qed.

(** The run of [KillAppProcs] split at the broadcast of the signal. *)
Lemma KillAppProcs_run (fuel : nat) (killType : KillType_t) (s : St) :
  freeze_settles X fuel s = true ->
  exists s1, prepared s s1 /\
    let cgroup := name (st_app s) in
    let sig := kill_signal killType in
    let numProcs := cgrp_SendSig X (st_trace s1) cgroup sig in
    let sent := st_trace s1 ++ [E_cgrp_SendSig cgroup sig numProcs] in
    KillAppProcs X fuel killType s =
      if decide (numProcs = le_result_code LE_FAULT)
      then Done LE_NOT_FOUND (mkSt (st_app s1) sent)
      else Done (if decide (numProcs = 0) then LE_NOT_FOUND else LE_OK)
                (mkSt (st_app s1)
                      (sent ++ [E_cgrp_frz_Thaw cgroup (cgrp_frz_Thaw X sent cgroup)])).
Proof.
  intros Hfs. unfold freeze_settles in Hfs.
  unfold KillAppProcs. unfold bind at 1. unfold get_app.
  unfold bind at 1. unfold call at 1. simpl.
  set (cg := name (st_app s)) in *.
  set (frz := cgrp_frz_Freeze X (st_trace s) cg) in *.
  set (s0 := mkSt (st_app s) (st_trace s ++ [E_cgrp_frz_Freeze cg frz])).
  assert (Hw : exists pre, (if decide (frz = LE_OK) then wait_frozen X fuel cg else ret tt) s0
                 = Done tt (mkSt (st_app s) (st_trace s0 ++ pre))
                 /\ Forall is_preparation pre).
  { destruct (decide (frz = LE_OK)).
    - apply (wait_frozen_settles fuel cg s0). exact Hfs.
    - exists []. unfold ret. simpl. rewrite app_nil_r. split; [reflexivity|constructor]. }
  destruct Hw as [pre1 [Hw Hp1]].
  unfold bind at 1. rewrite Hw.
  unfold bind at 1.
  destruct (tell_stopping_total (procs (st_app s)) (mkSt (st_app s) (st_trace s0 ++ pre1)))
    as [l' [pre2 [Ht [Hp2 Hm]]]].
  rewrite Ht. simpl.
  exists (mkSt (set_procs l' (st_app s)) ((st_trace s ++ [E_cgrp_frz_Freeze cg frz]) ++ pre1 ++ pre2)).
  split.
  - exists l', ([E_cgrp_frz_Freeze cg frz] ++ pre1 ++ pre2). simpl.
    split; [reflexivity|]. split; [exact Hm|].
    split; [rewrite <- !app_assoc; reflexivity|].
    constructor; [exact I|]. apply Forall_app. split; assumption.
  - simpl. unfold bind, modify_app, call, ret. simpl.
    rewrite <- !app_assoc. simpl.
    destruct killType; simpl;
      repeat case_decide; try contradiction; norm_trace; reflexivity.
Qed.

End KillEscalation.

Section KillEscalationClaims.

Variable X : Ext.

(** C4, amended: [KillAppProcs] broadcasts [SIGTERM] for a soft kill and
    [SIGKILL] for a hard kill.  When the broadcast reports a count, the
    cgroup is thawed next and the result is [LE_NOT_FOUND] exactly when
    the count is zero and [LE_OK] otherwise; when the broadcast reports
    [LE_FAULT], the result is [LE_NOT_FOUND]. *)
Theorem KillAppProcs_escalation (fuel : nat) (killType : KillType_t) (s : St) :
  freeze_settles X fuel s = true ->
  exists r s' s1 n post,
    KillAppProcs X fuel killType s = Done r s'
    /\ prepared s s1
    /\ n = cgrp_SendSig X (st_trace s1) (name (st_app s))
             (match killType with KILL_SOFT => SIGTERM | KILL_HARD => SIGKILL end)
    /\ st_app s' = st_app s1
    /\ st_trace s' = st_trace s1
                     ++ E_cgrp_SendSig (name (st_app s))
                          (match killType with KILL_SOFT => SIGTERM | KILL_HARD => SIGKILL end) n
                        :: post
    /\ (n = le_result_code LE_FAULT -> r = LE_NOT_FOUND)
    /\ (n <> le_result_code LE_FAULT ->
          (exists thaw, post = [E_cgrp_frz_Thaw (name (st_app s)) thaw])
          /\ (r = LE_NOT_FOUND <-> n = 0)
          /\ (n <> 0 -> r = LE_OK)).
Proof.
  intros Hfs.
  destruct (KillAppProcs_run X fuel killType s Hfs) as [s1 [Hprep Hrun]].
  cbv zeta in Hrun. fold (kill_signal killType).
  set (n := cgrp_SendSig X (st_trace s1) (name (st_app s)) (kill_signal killType)) in *.
  destruct (decide (n = le_result_code LE_FAULT)) as [Hf|Hf].
  - exists LE_NOT_FOUND, (mkSt (st_app s1)
              (st_trace s1 ++ [E_cgrp_SendSig (name (st_app s)) (kill_signal killType) n])),
           s1, n, [].
    split; [exact Hrun|]. split; [exact Hprep|].
    split; [reflexivity|]. split; [reflexivity|]. split; [reflexivity|].
    split; [reflexivity|]. intros Hc. contradiction.
  - eexists _, _, s1, n, _.
    split; [exact Hrun|]. split; [exact Hprep|].
    split; [reflexivity|]. split; [reflexivity|].
    split; [simpl; rewrite <- app_assoc; reflexivity|].
    split; [intros Hc; contradiction|]. intros _.
    split; [eexists; reflexivity|].
    destruct (decide (n = 0)) as [H0|H0].
    + split; [split; intros _; [exact H0|reflexivity]|]. intros Hc. contradiction.
    + split; [split; intros Hc; [discriminate|contradiction]|]. intros _. reflexivity.
Qed.

End KillEscalationClaims.

(** A soft kill in a world where two processes get the signal. *)
Lemma KillAppProcs_escalation_witness :
  exists r s' s1 n post,
    KillAppProcs (Sample.ext (Sample.mkWorld Sample.no_config 2 false (fun _ => LE_OK)
                                FAULT_ACTION_NONE WATCHDOG_ACTION_NOT_FOUND 0))
                 1 KILL_SOFT (mkSt (Sample.app APP_STATE_RUNNING false None) []) = Done r s'
    /\ prepared (mkSt (Sample.app APP_STATE_RUNNING false None) []) s1
    /\ n = 2
    /\ st_app s' = st_app s1
    /\ st_trace s' = st_trace s1 ++ E_cgrp_SendSig "a" SIGTERM n :: post
    /\ (n = le_result_code LE_FAULT -> r = LE_NOT_FOUND)
    /\ (n <> le_result_code LE_FAULT ->
          (exists thaw, post = [E_cgrp_frz_Thaw "a" thaw])
          /\ (r = LE_NOT_FOUND <-> n = 0)
          /\ (n <> 0 -> r = LE_OK)).
Proof.
  apply (KillAppProcs_escalation
           (Sample.ext (Sample.mkWorld Sample.no_config 2 false (fun _ => LE_OK)
                          FAULT_ACTION_NONE WATCHDOG_ACTION_NOT_FOUND 0))
           1 KILL_SOFT (mkSt (Sample.app APP_STATE_RUNNING false None) [])).
  reflexivity.
Defined.

(** When the broadcast fails, [KillAppProcs] returns at once: the cgroup
    is not thawed, and the result is [LE_NOT_FOUND] although the count
    that came back is not zero. *)
Lemma KillAppProcs_claim_fails_when_broadcast_fails :
  ~ KillAppProcs_claim
      (Sample.ext (Sample.mkWorld Sample.no_config (le_result_code LE_FAULT) false
                     (fun _ => LE_OK) FAULT_ACTION_NONE WATCHDOG_ACTION_NOT_FOUND 0))
      1 KILL_SOFT (mkSt (Sample.app APP_STATE_RUNNING false None) []).
Proof.
  intros [r [s' [s1 [n [thaw [Hrun [_ [Htr _]]]]]]]].
  vm_compute in Hrun. injection Hrun as <- <-.
  apply (f_equal (@last Event)) in Htr.
  rewrite last_app in Htr. simpl in Htr. discriminate.
Qed.

(** ** Stopping the app *)

Section Stop.

Variable X : Ext.

Lemma prepared_app (s s1 : St) :
  prepared s s1 ->
  name (st_app s1) = name (st_app s)
  /\ state (st_app s1) = state (st_app s)
  /\ killTimer (st_app s1) = killTimer (st_app s)
  /\ sandboxed (st_app s1) = sandboxed (st_app s)
  /\ auxProcs (st_app s1) = auxProcs (st_app s).
Proof. intros [l' [pre [-> _]]]. repeat split. Qed.

(** [KillAppProcs] returns once the freeze is settled. *)
Lemma KillAppProcs_returns (fuel : nat) (killType : KillType_t) (s : St) :
  freeze_settles X fuel s = true ->
  exists r sk s1,
    KillAppProcs X fuel killType s = Done r sk
    /\ prepared s s1
    /\ st_app sk = st_app s1
    /\ (exists post, st_trace sk = st_trace s1 ++ post)
    /\ (r = LE_NOT_FOUND <->
          cgrp_SendSig X (st_trace s1) (name (st_app s)) (kill_signal killType) = 0
          \/ cgrp_SendSig X (st_trace s1) (name (st_app s)) (kill_signal killType)
             = le_result_code LE_FAULT)
    /\ (r = LE_NOT_FOUND \/ r = LE_OK).
Proof.
  intros Hfs.
  destruct (KillAppProcs_run X fuel killType s Hfs) as [s1 [Hprep Hrun]].
  cbv zeta in Hrun.
  set (n := cgrp_SendSig X (st_trace s1) (name (st_app s)) (kill_signal killType)) in *.
  destruct (decide (n = le_result_code LE_FAULT)) as [Hf|Hf].
  - eexists _, _, s1. split; [exact Hrun|]. split; [exact Hprep|].
    split; [reflexivity|]. split; [eexists; reflexivity|].
    split; [|left; reflexivity]. split; [intros _; right; exact Hf|reflexivity].
  - eexists _, _, s1. split; [exact Hrun|]. split; [exact Hprep|].
    split; [reflexivity|]. split; [eexists; simpl; rewrite <- app_assoc; reflexivity|].
    destruct (decide (n = 0)) as [H0|H0].
    + split; [|left; reflexivity]. split; [intros _; left; exact H0|reflexivity].
    + split; [|right; reflexivity].
      split; [discriminate|]. intros [Hc|Hc]; contradiction.
Qed.

(** [app_Stop] on a running app, in terms of what the soft kill returns. *)
Lemma app_Stop_run (fuel : nat) (s : St) (r : le_result_t) (sk : St) :
  state (st_app s) = APP_STATE_RUNNING ->
  KillAppProcs X fuel KILL_SOFT s = Done r sk ->
  app_Stop X fuel s =
    Done tt (if decide (r = LE_NOT_FOUND)
             then mkSt (set_state APP_STATE_STOPPED (st_app sk)) (st_trace sk)
             else mkSt (set_killTimer (Some (armed_kill_timer X (st_app sk))) (st_app sk))
                       (st_trace sk)).
Proof.
  intros Hst Hk. unfold app_Stop. unfold bind at 1. unfold get_app.
  rewrite Hst. rewrite decide_False by discriminate.
  unfold bind at 1. rewrite Hk.
  destruct (decide (r = LE_NOT_FOUND)); [reflexivity|].
  unfold armed_kill_timer, new_kill_timer.
  destruct (killTimer (st_app sk)) eqn:Et.
  - unfold bind, get_app, ret, modify_app. rewrite Et. reflexivity.
  - unfold bind, get_app, ret, modify_app. rewrite Et. reflexivity.
Qed.

Lemma app_Stop_stopped (fuel : nat) (s : St) :
  state (st_app s) = APP_STATE_STOPPED -> app_Stop X fuel s = Done tt s.
Proof.
  intros Hst. unfold app_Stop, bind, get_app. rewrite Hst.
  rewrite decide_True by reflexivity. reflexivity.
Qed.

(** The part of the stop transition that holds as the specification has
    it: the soft kill either reports that there was nothing to signal,
    and the state becomes STOPPED, or the state stays RUNNING and the
    kill timer is running when [app_Stop] returns. *)
Lemma app_Stop_transition (fuel : nat) (s : St) :
  state (st_app s) = APP_STATE_RUNNING ->
  freeze_settles X fuel s = true ->
  exists r sk s',
    KillAppProcs X fuel KILL_SOFT s = Done r sk
    /\ app_Stop X fuel s = Done tt s'
    /\ st_trace s' = st_trace sk
    /\ ((r = LE_NOT_FOUND
         /\ state (st_app s') = APP_STATE_STOPPED
         /\ killTimer (st_app s') = killTimer (st_app s))
        \/ (r = LE_OK
            /\ state (st_app s') = APP_STATE_RUNNING
            /\ exists tm, killTimer (st_app s') = Some tm /\ Timer.running tm = true
                          /\ Timer.repeatCount tm
                             = match killTimer (st_app s) with
                               | Some tm0 => Timer.repeatCount tm0
                               | None => 1%nat
                               end)).
Proof.
  intros Hst Hfs.
  destruct (KillAppProcs_returns fuel KILL_SOFT s Hfs)
    as [r [sk [s1 [Hk [Hprep [Happ [_ [_ Hr]]]]]]]].
  destruct (prepared_app _ _ Hprep) as [_ [Hs1 [Ht1 _]]].
  exists r, sk. eexists. split; [exact Hk|].
  split; [apply (app_Stop_run fuel s r sk Hst Hk)|].
  destruct (decide (r = LE_NOT_FOUND)) as [Hr'|Hr'].
  - split; [reflexivity|]. left. simpl. rewrite Happ, Ht1. auto.
  - split; [reflexivity|]. right. destruct Hr as [Hr|Hr]; [contradiction|].
    split; [exact Hr|]. simpl. rewrite Happ, Hs1. split; [exact Hst|].
    eexists. split; [reflexivity|].
    unfold armed_kill_timer. rewrite Ht1.
    destruct (killTimer (st_app s)) as [tm0|]; simpl.
    + unfold Timer.Start. destruct (Timer.running tm0) eqn:E; simpl; auto.
    + auto.
Qed.

(** A kill timer that an earlier stop request has started is not stopped
    when [app_Stop] takes the app to STOPPED: for a running app whose
    kill timer is [tm], when the soft kill finds no process to signal,
    the app is STOPPED on return and the kill timer is still [tm],
    running if it was running.  ([app_SigChildHandler] stops the timer
    before it sets the state.) *)
Lemma app_Stop_keeps_kill_timer (fuel : nat) (s : St) (tm : Timer.t) :
  state (st_app s) = APP_STATE_RUNNING ->
  killTimer (st_app s) = Some tm ->
  freeze_settles X fuel s = true ->
  (forall s1, prepared s s1 ->
     cgrp_SendSig X (st_trace s1) (name (st_app s)) SIGTERM = 0) ->
  exists s', app_Stop X fuel s = Done tt s'
             /\ state (st_app s') = APP_STATE_STOPPED
             /\ killTimer (st_app s') = Some tm.
Proof.
  intros Hst Htm Hfs Hnone.
  destruct (KillAppProcs_returns fuel KILL_SOFT s Hfs)
    as [r [sk [s1 [Hk [Hprep [Happ [_ [Hr _]]]]]]]].
  destruct (prepared_app _ _ Hprep) as [_ [_ [Ht1 _]]].
  assert (Hnf : r = LE_NOT_FOUND) by (apply Hr; left; apply Hnone; exact Hprep).
  eexists. split; [apply (app_Stop_run fuel s r sk Hst Hk)|].
  rewrite decide_True by exact Hnf. simpl.
  split; [reflexivity|]. rewrite Happ, Ht1. exact Htm.
Qed.

Lemma armed_kill_timer_running (a : App_t) :
  Timer.running (armed_kill_timer X a) = true.
Proof.
  unfold armed_kill_timer, Timer.Start.
  destruct (killTimer a) as [tm|]; [|reflexivity].
  destruct (Timer.running tm) eqn:E; simpl; auto.
Qed.

Lemma armed_kill_timer_settings (a : App_t) :
  match killTimer a with
  | Some tm => Timer.repeatCount (armed_kill_timer X a) = Timer.repeatCount tm
               /\ Timer.interval (armed_kill_timer X a) = Timer.interval tm
  | None => Timer.repeatCount (armed_kill_timer X a) = 1%nat
            /\ Timer.interval (armed_kill_timer X a) = Some KillTimeout
  end.
Proof.
  unfold armed_kill_timer, Timer.Start.
  destruct (killTimer a) as [tm|]; [|split; reflexivity].
  destruct (Timer.running tm); split; reflexivity.
Qed.

(** C1, amended: for a running app, [app_Stop] sends the soft kill.  When
    the soft kill returns [LE_NOT_FOUND], that is when the broadcast
    reports that no process was signalled or reports [LE_FAULT], the
    state is set to STOPPED; otherwise the state stays RUNNING and the
    kill timer, one-shot and set to one second when it is created here,
    is running on return.  Hence, for an app whose kill timer was not
    running at the call, the kill timer is running on return exactly when
    the broadcast has signalled at least one process. *)
Theorem app_Stop_cases (fuel : nat) (s : St) :
  state (st_app s) = APP_STATE_RUNNING ->
  freeze_settles X fuel s = true ->
  exists s1 s',
    prepared s s1
    /\ app_Stop X fuel s = Done tt s'
    /\ let n := cgrp_SendSig X (st_trace s1) (name (st_app s)) SIGTERM in
       ((n = 0 \/ n = le_result_code LE_FAULT) -> state (st_app s') = APP_STATE_STOPPED)
       /\ (n <> 0 -> n <> le_result_code LE_FAULT ->
           state (st_app s') = APP_STATE_RUNNING
           /\ kill_timer_armed (st_app s')
           /\ (killTimer (st_app s) = None ->
               exists tm, killTimer (st_app s') = Some tm
                          /\ Timer.repeatCount tm = 1%nat
                          /\ Timer.interval tm = Some KillTimeout))
       /\ (~ kill_timer_armed (st_app s) ->
           (kill_timer_armed (st_app s') <-> n <> 0 /\ n <> le_result_code LE_FAULT)).
Proof.
  intros Hst Hfs.
  destruct (KillAppProcs_returns fuel KILL_SOFT s Hfs)
    as [r [sk [s1 [Hk [Hprep [Happ [_ [Hr Hr2]]]]]]]].
  destruct (prepared_app _ _ Hprep) as [_ [Hs1 [Ht1 _]]].
  exists s1. eexists. split; [exact Hprep|].
  split; [apply (app_Stop_run fuel s r sk Hst Hk)|].
  change (kill_signal KILL_SOFT) with SIGTERM in Hr.
  cbv zeta. set (n := cgrp_SendSig X (st_trace s1) (name (st_app s)) SIGTERM) in *.
  destruct (decide (r = LE_NOT_FOUND)) as [Hnf|Hnf]; cbn [st_app st_trace].
  - assert (Hn : n = 0 \/ n = le_result_code LE_FAULT) by (apply Hr; exact Hnf).
    split; [intros _; reflexivity|].
    split; [intros H0 Hf; destruct Hn; contradiction|].
    intros Hna. split.
    + intros [tm [Htm Hrun]]. exfalso. apply Hna. exists tm.
      simpl in Htm. rewrite Happ, Ht1 in Htm. split; assumption.
    + intros [H0 Hf]. destruct Hn; contradiction.
  - assert (Hn : ~ (n = 0 \/ n = le_result_code LE_FAULT)) by (intros Hc; apply Hnf, Hr, Hc).
    assert (Harmed : kill_timer_armed
                       (set_killTimer (Some (armed_kill_timer X (st_app sk))) (st_app sk))).
    { eexists. split; [reflexivity|apply armed_kill_timer_running]. }
    split; [intros Hc; contradiction|].
    split.
    + intros _ _. split; [simpl; rewrite Happ, Hs1; exact Hst|].
      split; [exact Harmed|].
      intros Hnone. eexists. split; [reflexivity|].
      pose proof (armed_kill_timer_settings (st_app sk)) as Hset.
      rewrite Happ, Ht1, Hnone in Hset. rewrite Happ. exact Hset.
    + intros _. split; [intros _; split; intros Hc; apply Hn; auto|].
      intros _. exact Harmed.
Qed.

End Stop.

(** A first stop request in a world where two processes get the signal. *)
Lemma app_Stop_cases_witness :
  exists s1 s',
    prepared (mkSt (Sample.app APP_STATE_RUNNING false None) []) s1
    /\ app_Stop (Sample.ext (Sample.mkWorld Sample.no_config 2 false (fun _ => LE_OK)
                               FAULT_ACTION_NONE WATCHDOG_ACTION_NOT_FOUND 0))
                1 (mkSt (Sample.app APP_STATE_RUNNING false None) []) = Done tt s'
    /\ let n := 2 in
       ((n = 0 \/ n = le_result_code LE_FAULT) -> state (st_app s') = APP_STATE_STOPPED)
       /\ (n <> 0 -> n <> le_result_code LE_FAULT ->
           state (st_app s') = APP_STATE_RUNNING
           /\ kill_timer_armed (st_app s')
           /\ (killTimer (Sample.app APP_STATE_RUNNING false None) = None ->
               exists tm, killTimer (st_app s') = Some tm
                          /\ Timer.repeatCount tm = 1%nat
                          /\ Timer.interval tm = Some KillTimeout))
       /\ (~ kill_timer_armed (Sample.app APP_STATE_RUNNING false None) ->
           (kill_timer_armed (st_app s') <-> n <> 0 /\ n <> le_result_code LE_FAULT)).
Proof.
  apply (app_Stop_cases
           (Sample.ext (Sample.mkWorld Sample.no_config 2 false (fun _ => LE_OK)
                          FAULT_ACTION_NONE WATCHDOG_ACTION_NOT_FOUND 0))
           1 (mkSt (Sample.app APP_STATE_RUNNING false None) [])); reflexivity.
Defined.

(** When the broadcast of the soft kill fails, [app_Stop] sets the state
    to STOPPED although the freeze group was not found empty, and no
    kill timer is armed. *)
Lemma app_Stop_claim_fails_when_broadcast_fails :
  ~ app_Stop_claim
      (Sample.ext (Sample.mkWorld Sample.no_config (le_result_code LE_FAULT) false
                     (fun _ => LE_OK) FAULT_ACTION_NONE WATCHDOG_ACTION_NOT_FOUND 0))
      1 (mkSt (Sample.app APP_STATE_RUNNING false None) []).
Proof.
  intros [s1 [s' [_ [Hrun [[[Hn _]|[Hst _]] _]]]]].
  - discriminate Hn.
  - vm_compute in Hrun. injection Hrun as <-. discriminate Hst.
Qed.

(** A second stop request, made while the kill timer of the first one
    is running and after the last process has gone. *)
Example app_Stop_second_request :
  exists s',
    app_Stop (Sample.ext Sample.quiet) 1
             (mkSt (Sample.app APP_STATE_RUNNING false (Some Sample.armed_timer)) [])
      = Done tt s'
    /\ state (st_app s') = APP_STATE_STOPPED
    /\ killTimer (st_app s') = Some Sample.armed_timer.
Proof. eexists. split; [reflexivity|]. split; reflexivity. Qed.

(** ** Starting the app *)

Section Start.

Variable X : Ext.

Lemma start_procs_all (fuel : nat) (l : list ProcContainer_t) : forall s0,
  all_start X l (st_trace s0) = true ->
  start_procs X fuel l s0 = Done LE_OK (mkSt (st_app s0) (st_trace s0 ++ start_events l)).
Proof.
  induction l as [|c rest IH]; intros s0 H; simpl.
  - unfold ret. rewrite app_nil_r. destruct s0; reflexivity.
  - simpl in H. apply andb_prop in H. destruct H as [H1 H2].
    apply bool_decide_eq_true in H1.
    unfold bind, call. simpl. rewrite H1. simpl.
    rewrite (IH (mkSt (st_app s0) (st_trace s0 ++ [E_proc_Start (procRef c) LE_OK])) H2).
    simpl. rewrite <- app_assoc. reflexivity.
Qed.

Lemma start_procs_fail (fuel : nat) (pre : list ProcContainer_t) :
  forall c post r s0,
    all_start X pre (st_trace s0) = true ->
    proc_Start X (st_trace s0 ++ start_events pre) (procRef c) = r ->
    r <> LE_OK ->
    start_procs X fuel (pre ++ c :: post) s0
    = (app_Stop X fuel ;;; ret LE_FAULT)
        (mkSt (st_app s0) (st_trace s0 ++ start_events pre ++ [E_proc_Start (procRef c) r])).
Proof.
  induction pre as [|p pre IH]; intros c post r s0 Hall Hr Hne; simpl.
  - simpl in Hr. rewrite app_nil_r in Hr.
    unfold bind at 1. unfold call. simpl. rewrite Hr.
    rewrite decide_True by exact Hne. reflexivity.
  - simpl in Hall. apply andb_prop in Hall. destruct Hall as [H1 H2].
    apply bool_decide_eq_true in H1.
    unfold bind at 1. unfold call. simpl. rewrite H1. simpl.
    rewrite (IH c post r (mkSt (st_app s0) (st_trace s0 ++ [E_proc_Start (procRef p) LE_OK])) H2).
    + simpl. rewrite <- app_assoc. reflexivity.
    + simpl. rewrite <- app_assoc. exact Hr.
    + exact Hne.
Qed.

Lemma app_Start_running (fuel : nat) (s : St) :
  state (st_app s) = APP_STATE_RUNNING -> app_Start X fuel s = Done LE_FAULT s.
Proof.
  intros Hst. unfold app_Start, bind, get_app. rewrite Hst.
  rewrite decide_True by reflexivity. reflexivity.
Qed.

Lemma app_Start_loop (fuel : nat) (s s0 : St) :
  state (st_app s) = APP_STATE_STOPPED ->
  sandbox_ready X fuel s s0 ->
  app_Start X fuel s = start_procs X fuel (procs (st_app s)) s0.
Proof.
  intros Hst Hsb. unfold app_Start. unfold bind at 1. unfold get_app.
  rewrite Hst. rewrite decide_False by discriminate.
  unfold bind at 1. unfold modify_app at 1.
  unfold bind at 1. unfold sandbox_ready in Hsb. rewrite Hsb.
  rewrite decide_False by (intros Hc; apply Hc; reflexivity). reflexivity.
Qed.

(** [app_Stop] returns once the freeze is settled, whatever the state. *)
Lemma app_Stop_returns (fuel : nat) (s : St) :
  freeze_settles X fuel s = true -> exists s', app_Stop X fuel s = Done tt s'.
Proof.
  intros Hfs. destruct (state (st_app s)) eqn:Hst.
  - exists s. apply app_Stop_stopped. exact Hst.
  - destruct (app_Stop_transition X fuel s Hst Hfs) as [r [sk [s' [_ [H _]]]]].
    exists s'. exact H.
Qed.

(** Where [app_Start] does what is asked of it: on a running app it
    returns [LE_FAULT] and does nothing else.  On a stopped app, once
    the set-up of the sandbox (which unsandboxed apps do not have) has
    succeeded, it starts the processes in the order of the list
    [procs]; when one of them does not start, it calls [app_Stop] and
    returns [LE_FAULT], and the processes after that one are not
    started. *)
Theorem app_Start_cases (fuel : nat) (s : St) :
  (state (st_app s) = APP_STATE_RUNNING -> app_Start X fuel s = Done LE_FAULT s)
  /\ (state (st_app s) = APP_STATE_STOPPED ->
      forall s0, sandbox_ready X fuel s s0 -> app_Start_outcome X fuel s s0).
Proof.
  split; [apply app_Start_running|].
  intros Hst s0 Hsb. split.
  - intros Hall. rewrite (app_Start_loop fuel s s0 Hst Hsb).
    apply start_procs_all. exact Hall.
  - intros pre c post r Hl Hall Hr Hne sfail.
    assert (Heq : app_Start X fuel s = (app_Stop X fuel ;;; ret LE_FAULT) sfail).
    { rewrite (app_Start_loop fuel s s0 Hst Hsb), Hl.
      apply start_procs_fail; assumption. }
    split; [exact Heq|].
    intros Hfs. destruct (app_Stop_returns fuel sfail Hfs) as [s' Hs'].
    exists s'. split; [exact Hs'|].
    rewrite Heq. unfold bind. rewrite Hs'. reflexivity.
Qed.

End Start.

(** An unsandboxed app with two processes, the second of which does not
    start. *)
Lemma app_Start_cases_witness :
  exists s',
    app_Start (Sample.ext (Sample.mkWorld Sample.no_config 1 false
                             (fun p => if decide (p = 2%nat) then LE_FAULT else LE_OK)
                             FAULT_ACTION_NONE WATCHDOG_ACTION_NOT_FOUND 0))
              1 (mkSt (Sample.app_with [Sample.proc1; Sample.proc2] APP_STATE_STOPPED false None) [])
    = Done LE_FAULT s'.
Proof.
  destruct (app_Start_cases
              (Sample.ext (Sample.mkWorld Sample.no_config 1 false
                             (fun p => if decide (p = 2%nat) then LE_FAULT else LE_OK)
                             FAULT_ACTION_NONE WATCHDOG_ACTION_NOT_FOUND 0))
              1 (mkSt (Sample.app_with [Sample.proc1; Sample.proc2] APP_STATE_STOPPED false None) []))
    as [_ H].
  destruct (H eq_refl _ eq_refl) as [_ HB].
  destruct (HB [Sample.proc1] Sample.proc2 [] LE_FAULT eq_refl eq_refl eq_refl) as [_ Hs];
    [discriminate|].
  destruct (Hs eq_refl) as [s' [_ Hs']].
  exists s'. exact Hs'.
Defined.

(** ** SIGCHLD *)

Section SigChild.

Variable X : Ext.

Lemma Timer_Stop_not_running (tm : Timer.t) : Timer.running (snd (Timer.Stop tm)) = false.
Proof. unfold Timer.Stop. destruct (Timer.running tm) eqn:E; simpl; auto. Qed.

Lemma handle_proc_fault_total (c : ProcContainer_t) (fa : FaultAction_t) (s : St) :
  exists r pre, handle_proc_fault X c fa s = Done r (mkSt (st_app s) (st_trace s ++ pre)).
Proof.
  assert (Hnil : forall r : FaultAction_t, Done r s = Done r (mkSt (st_app s) (st_trace s ++ []))).
  { intros r. rewrite app_nil_r. destruct s; reflexivity. }
  unfold handle_proc_fault. destruct fa.
  - destruct (stopHandler c) as [h|].
    + destruct h. unfold bind, call_stopHandler, call. simpl.
      case_decide; eexists _, _; reflexivity.
    + eexists _, []. apply Hnil.
  - eexists _, []. apply Hnil.
  - unfold bind, call. simpl. case_decide; eexists _, _; reflexivity.
  - eexists _, []. apply Hnil.
  - eexists _, []. apply Hnil.
  - eexists _, []. apply Hnil.
Qed.

Lemma FindProcContainerInList_None (tr : Trace) (pid : pid_t) (l : list ProcContainer_t) :
  forall i, FindProcContainerInList X tr l pid i = None
            <-> Forall (fun c => proc_GetPID X tr (procRef c) <> pid) l.
Proof.
  induction l as [|c rest IH]; intros i; simpl.
  - split; [constructor|reflexivity].
  - case_decide as Hc.
    + split; [discriminate|]. intros H. inversion H; subst. contradiction.
    + rewrite IH. split.
      * intros H. constructor; assumption.
      * intros H. inversion H; assumption.
Qed.

(** [FindProcContainer] finds nothing exactly when no container of
    [procs] or [auxProcs] has the pid. *)
Lemma FindProcContainer_None (tr : Trace) (a : App_t) (pid : pid_t) :
  FindProcContainer X tr a pid = None
  <-> Forall (fun c => proc_GetPID X tr (procRef c) <> pid) (procs a ++ auxProcs a).
Proof.
  unfold FindProcContainer. rewrite Forall_app.
  rewrite <- (FindProcContainerInList_None tr pid (procs a) 0).
  rewrite <- (FindProcContainerInList_None tr pid (auxProcs a) 0).
  destruct (FindProcContainerInList X tr (procs a) pid 0) as [[i c]|];
    destruct (FindProcContainerInList X tr (auxProcs a) pid 0) as [[j d]|];
    split; try discriminate; try tauto; intros [H1 H2]; discriminate.
Qed.

(** The handling of the process that died leaves the app object as it
    is; when no container has the pid, it does nothing at all. *)
Lemma sigchild_proc_total (procPid : pid_t) (procExitStatus : Z) (s : St) :
  exists fa pre,
    sigchild_proc X procPid procExitStatus s = Done fa (mkSt (st_app s) (st_trace s ++ pre))
    /\ (FindProcContainer X (st_trace s) (st_app s) procPid = None ->
        fa = FAULT_ACTION_IGNORE /\ pre = []).
Proof.
  unfold sigchild_proc. unfold bind at 1. unfold get_app.
  unfold bind at 1. unfold query.
  destruct (FindProcContainer X (st_trace s) (st_app s) procPid) as [[loc c]|] eqn:Ef.
  - unfold bind at 1.
    destruct (externStopHandler c) as [h|].
    + unfold emit at 1. unfold bind at 1. unfold call at 1. simpl.
      match goal with |- context [handle_proc_fault X c ?fa ?s1] =>
        destruct (handle_proc_fault_total c fa s1) as [r [pre Hh]] end.
      rewrite Hh. simpl. rewrite <- !app_assoc. simpl.
      eexists _, _. split; [reflexivity|]. discriminate.
    + unfold ret at 1. unfold bind at 1. unfold call at 1. simpl.
      match goal with |- context [handle_proc_fault X c ?fa ?s1] =>
        destruct (handle_proc_fault_total c fa s1) as [r [pre Hh]] end.
      rewrite Hh. simpl. rewrite <- !app_assoc. simpl.
      eexists _, _. split; [reflexivity|]. discriminate.
  - exists FAULT_ACTION_IGNORE, []. unfold ret. rewrite app_nil_r.
    split; [destruct s; reflexivity|]. intros _. split; reflexivity.
Qed.

(** C2: when no container of [procs] or [auxProcs] has the pid, the
    handler leaves [FAULT_ACTION_IGNORE] as the fault action.  In every
    case it then asks whether the freeze cgroup is empty; when it is,
    the kill timer, if the app has one, is stopped and the state of the
    app is set to STOPPED. *)
Theorem app_SigChildHandler_stops_when_empty (procPid : pid_t) (procExitStatus : Z) (s : St) :
  exists fa pre empty s',
    sigchild_proc X procPid procExitStatus s = Done fa (mkSt (st_app s) (st_trace s ++ pre))
    /\ app_SigChildHandler X procPid procExitStatus s = Done fa s'
    /\ (Forall (fun c => proc_GetPID X (st_trace s) (procRef c) <> procPid)
               (procs (st_app s) ++ auxProcs (st_app s)) ->
        fa = FAULT_ACTION_IGNORE /\ pre = [])
    /\ empty = cgrp_IsEmpty X (st_trace s ++ pre) (name (st_app s))
    /\ st_trace s' = st_trace s ++ pre ++ [E_cgrp_IsEmpty (name (st_app s)) empty]
    /\ (empty = true ->
        state (st_app s') = APP_STATE_STOPPED
        /\ killTimer (st_app s') = (fun tm => snd (Timer.Stop tm)) <$> killTimer (st_app s)
        /\ (forall tm, killTimer (st_app s') = Some tm -> Timer.running tm = false))
    /\ (empty = false -> st_app s' = st_app s).
Proof.
  destruct (sigchild_proc_total procPid procExitStatus s) as [fa [pre [Hp Hnone]]].
  rewrite FindProcContainer_None in Hnone.
  exists fa, pre, (cgrp_IsEmpty X (st_trace s ++ pre) (name (st_app s))).
  unfold app_SigChildHandler. unfold bind at 1. rewrite Hp.
  unfold bind at 1. unfold HasRunningProc. unfold bind at 1. unfold get_app.
  unfold bind at 1. unfold call. simpl.
  destruct (cgrp_IsEmpty X (st_trace s ++ pre) (name (st_app s))) eqn:Ee; simpl.
  - destruct (killTimer (st_app s)) as [tm|] eqn:Et.
    + unfold bind, get_app, modify_app, ret. simpl. rewrite Et. simpl.
      eexists. split; [reflexivity|]. split; [reflexivity|].
      split; [exact Hnone|]. split; [reflexivity|].
      split; [rewrite <- app_assoc; reflexivity|].
      split; [|discriminate]. intros _. simpl.
      split; [reflexivity|]. split; [reflexivity|].
      intros tm' Htm'. injection Htm' as <-. apply Timer_Stop_not_running.
    + unfold bind, get_app, modify_app, ret. simpl. rewrite Et. simpl.
      eexists. split; [reflexivity|]. split; [reflexivity|].
      split; [exact Hnone|]. split; [reflexivity|].
      split; [rewrite <- app_assoc; reflexivity|].
      split; [|discriminate]. intros _. simpl. rewrite Et.
      split; [reflexivity|]. split; [reflexivity|].
      intros tm' Htm'. discriminate.
  - unfold bind, ret. simpl.
    eexists. split; [reflexivity|]. split; [reflexivity|].
    split; [exact Hnone|]. split; [reflexivity|].
    split; [rewrite <- app_assoc; reflexivity|].
    split; [discriminate|]. intros _. reflexivity.
Qed.

End SigChild.

(** ** Watchdog time-outs *)

Section Watchdog.

Variable X : Ext.

Lemma app_WatchdogTimeoutHandler_unknown (procPid : pid_t) (s : St) :
  FindProcContainer X (st_trace s) (st_app s) procPid = None ->
  app_WatchdogTimeoutHandler X procPid s = Done (LE_NOT_FOUND, None) s.
Proof.
  intros H. unfold app_WatchdogTimeoutHandler, bind, get_app, query. rewrite H. reflexivity.
Qed.

(** The handler, for a pid that a container has, in terms of the action
    it resolves. *)
Lemma app_WatchdogTimeoutHandler_run (procPid : pid_t) (s : St) loc c :
  FindProcContainer X (st_trace s) (st_app s) procPid = Some (loc, c) ->
  let s1 := mkSt (st_app s) (st_trace s ++ fallback_events X s c) in
  let restart := store_container loc (set_stopHandler (Some StopHandler_proc_Start) c) in
  app_WatchdogTimeoutHandler X procPid s =
    match resolved_watchdog_action X s c with
    | WATCHDOG_ACTION_NOT_FOUND | WATCHDOG_ACTION_RESTART =>
        Done (LE_OK, Some WATCHDOG_ACTION_HANDLED)
             (mkSt (restart (st_app s)) (st_trace s1 ++ stop_events X (st_trace s1) (procRef c)))
    | WATCHDOG_ACTION_STOP =>
        Done (LE_OK, Some WATCHDOG_ACTION_HANDLED)
             (mkSt (st_app s) (st_trace s1 ++ stop_events X (st_trace s1) (procRef c)))
    | WATCHDOG_ACTION_IGNORE | WATCHDOG_ACTION_ERROR =>
        Done (LE_OK, Some WATCHDOG_ACTION_HANDLED) s1
    | WATCHDOG_ACTION_RESTART_APP => Done (LE_OK, Some WATCHDOG_ACTION_RESTART_APP) s1
    | WATCHDOG_ACTION_STOP_APP => Done (LE_OK, Some WATCHDOG_ACTION_STOP_APP) s1
    | WATCHDOG_ACTION_REBOOT => Done (LE_OK, Some WATCHDOG_ACTION_REBOOT) s1
    | WATCHDOG_ACTION_HANDLED => Done (LE_OK, Some WATCHDOG_ACTION_HANDLED) s1
    end.
Proof.
  intros Hf s1 restart. unfold app_WatchdogTimeoutHandler.
  unfold bind at 1. unfold get_app. unfold bind at 1. unfold query at 1. rewrite Hf.
  unfold bind at 1. unfold query at 1.
  unfold resolved_watchdog_action, fallback_events, falls_back in *.
  subst s1. unfold bind at 1.
  destruct (decide (proc_GetWatchdogAction X (st_trace s) (procRef c) = WATCHDOG_ACTION_NOT_FOUND
                    \/ proc_GetWatchdogAction X (st_trace s) (procRef c) = WATCHDOG_ACTION_ERROR))
    as [Hfb|Hfb].
  - unfold le_cfg_CreateReadTxn, le_cfg_GetString, le_cfg_CancelTxn.
    unfold bind, call, emit, ret, modify_app, StopProc, query, stop_events. simpl.
    destruct (decide (fst (Cfg.GetString _ _ _ _) = LE_OK)); simpl;
      [destruct (wdog_action_EnumFromString X _)|]; norm_trace; reflexivity.
  - unfold ret at 1.
    unfold bind, emit, ret, modify_app, StopProc, query, stop_events. simpl.
    rewrite app_nil_r.
    destruct (proc_GetWatchdogAction X (st_trace s) (procRef c));
      norm_trace; try reflexivity; destruct s; reflexivity.
Qed.

(** The default policy where it is applied: no action at either level. *)
Lemma app_WatchdogTimeoutHandler_default (procPid : pid_t) (s : St) loc c :
  FindProcContainer X (st_trace s) (st_app s) procPid = Some (loc, c) ->
  resolved_watchdog_action X s c = WATCHDOG_ACTION_NOT_FOUND ->
  exists s',
    app_WatchdogTimeoutHandler X procPid s = Done (LE_OK, Some WATCHDOG_ACTION_HANDLED) s'
    /\ st_app s' = store_container loc (set_stopHandler (Some StopHandler_proc_Start) c) (st_app s)
    /\ st_trace s' = st_trace s ++ fallback_events X s c
                     ++ stop_events X (st_trace s ++ fallback_events X s c) (procRef c).
Proof.
  intros Hf Hr. rewrite (app_WatchdogTimeoutHandler_run procPid s loc c Hf), Hr.
  eexists. split; [reflexivity|]. split; [reflexivity|]. simpl.
  rewrite <- app_assoc. reflexivity.
Qed.

(** C5: for a pid that a container has, when the action that comes out
    of both levels is [WATCHDOG_ACTION_ERROR], the handler reports
    [WATCHDOG_ACTION_HANDLED] and does nothing else: the app object,
    and with it the container's [stopHandler], is as before, and
    nothing is entered in the history beyond the look-up in the config
    tree, so the process is neither stopped nor set to restart. *)
Theorem app_WatchdogTimeoutHandler_on_error (procPid : pid_t) (s : St) loc c :
  FindProcContainer X (st_trace s) (st_app s) procPid = Some (loc, c) ->
  resolved_watchdog_action X s c = WATCHDOG_ACTION_ERROR ->
  app_WatchdogTimeoutHandler X procPid s
  = Done (LE_OK, Some WATCHDOG_ACTION_HANDLED)
         (mkSt (st_app s) (st_trace s ++ fallback_events X s c)).
Proof.
  intros Hf Hr. rewrite (app_WatchdogTimeoutHandler_run procPid s loc c Hf), Hr.
  reflexivity.
Qed.

End Watchdog.

(** A process without a watchdog action of its own, in an app whose
    [watchdogAction] is a word the supervisor does not know. *)
Lemma app_WatchdogTimeoutHandler_on_error_witness :
  app_WatchdogTimeoutHandler
    (Sample.ext (Sample.mkWorld
                   (Cfg.Node "a" Cfg.VEmpty
                      [Cfg.Node "watchdogAction" (Cfg.VString "bogus") []])
                   1 false (fun _ => LE_OK) FAULT_ACTION_NONE WATCHDOG_ACTION_NOT_FOUND 0))
    101 (mkSt (Sample.app APP_STATE_RUNNING false None) [])
  = Done (LE_OK, Some WATCHDOG_ACTION_HANDLED)
         (mkSt (Sample.app APP_STATE_RUNNING false None)
               [E_le_cfg_CreateReadTxn "/apps/a"; E_le_cfg_CancelTxn true]).
Proof.
  apply (app_WatchdogTimeoutHandler_on_error
           (Sample.ext (Sample.mkWorld
                          (Cfg.Node "a" Cfg.VEmpty
                             [Cfg.Node "watchdogAction" (Cfg.VString "bogus") []])
                          1 false (fun _ => LE_OK) FAULT_ACTION_NONE
                          WATCHDOG_ACTION_NOT_FOUND 0))
           101 (mkSt (Sample.app APP_STATE_RUNNING false None) [])
           (InProcs 0) Sample.proc1); reflexivity.
Defined.

(** ** SMACK rules for bindings *)

Section Bindings.

Variable X : Ext.

Lemma GetString_here (l : bool) (h : option Cfg.Tree) (f : list Cfg.Tree) path n d :
  Cfg.GetString (Cfg.mkIter l h f) path n d = Cfg.GetString (Cfg.mkIter true h []) path n d.
Proof. reflexivity. Qed.

(** The loop over the children of the bindings node, on a live
    transaction: every child is visited once, in order. *)
Lemma bindings_loop_live (appLabelPtr : string) (fuel : nat) :
  forall c rest s,
    (length rest < fuel)%nat ->
    exists it',
      bindings_loop X fuel appLabelPtr (Cfg.mkIter true (Some c) rest) s
      = Done it' (mkSt (st_app s)
                       (st_trace s ++ flat_map (binding_rules X appLabelPtr) (c :: rest)))
      /\ Cfg.live it' = true.
Proof.
  induction fuel as [|fuel IH]; intros c rest s Hlen; [lia|].
  simpl bindings_loop. unfold le_cfg_GetString, le_cfg_GoToNextSibling. simpl Cfg.live.
  cbv iota. unfold bind at 1. unfold ret at 1.
  rewrite GetString_here. unfold bind at 1.
  assert (Hrules :
    (if bool_decide (fst (Cfg.GetString (Cfg.mkIter true (Some c) []) "app"
                            (LIMIT_MAX_APP_NAME_BYTES X) "") = LE_OK)
        && negb (String.eqb (snd (Cfg.GetString (Cfg.mkIter true (Some c) []) "app"
                                    (LIMIT_MAX_APP_NAME_BYTES X) "")) "")
     then
       emit (E_smack_SetRule appLabelPtr "rw"
               (smack_GetAppLabel X (snd (Cfg.GetString (Cfg.mkIter true (Some c) []) "app"
                                            (LIMIT_MAX_APP_NAME_BYTES X) "")))) ;;;
       emit (E_smack_SetRule
               (smack_GetAppLabel X (snd (Cfg.GetString (Cfg.mkIter true (Some c) []) "app"
                                            (LIMIT_MAX_APP_NAME_BYTES X) "")))
               "rw" appLabelPtr)
     else ret tt) s
    = Done tt (mkSt (st_app s) (st_trace s ++ binding_rules X appLabelPtr c))).
  { unfold binding_rules.
    destruct (bool_decide _ && negb _).
    - unfold bind, emit. simpl. rewrite <- app_assoc. reflexivity.
    - unfold ret. rewrite app_nil_r. destruct s; reflexivity. }
  rewrite Hrules. unfold bind at 1. unfold ret at 1.
  destruct rest as [|c' rest'].
  - simpl. unfold ret. rewrite app_nil_r. eexists. split; reflexivity.
  - change (Cfg.GoToNextSibling (Cfg.mkIter true (Some c) (c' :: rest')))
      with (LE_OK, Cfg.mkIter true (Some c') rest').
    simpl fst. rewrite decide_True by reflexivity. simpl snd.
    destruct (IH c' rest' (mkSt (st_app s) (st_trace s ++ binding_rules X appLabelPtr c)))
      as [it' [Hl Hlive]]; [simpl in Hlen; lia|].
    rewrite Hl. exists it'. split; [|exact Hlive].
    simpl. rewrite <- app_assoc. reflexivity.
Qed.

Lemma bind_Done {A B} (m : M A) (k : A -> M B) (s s1 : St) (a : A) :
  m s = Done a s1 -> bind m k s = k a s1.
Proof. intros H. unfold bind. rewrite H. reflexivity. Qed.

Lemma le_cfg_CreateReadTxn_run (path : string) (s : St) :
  le_cfg_CreateReadTxn X path s
  = Done (Cfg.CreateReadTxn (le_cfg_snapshot X (st_trace s) path))
         (mkSt (st_app s) (st_trace s ++ [E_le_cfg_CreateReadTxn path])).
Proof. reflexivity. Qed.

Lemma le_cfg_CancelTxn_run (it : Cfg.Iter) (s : St) :
  le_cfg_CancelTxn it s
  = Done (Cfg.CancelTxn it)
         (mkSt (st_app s) (st_trace s ++ [E_le_cfg_CancelTxn (Cfg.live it)])).
Proof. reflexivity. Qed.

Lemma le_cfg_GoToNode_live (it : Cfg.Iter) (n : string) (s : St) :
  Cfg.live it = true -> le_cfg_GoToNode X it n s = Done (Cfg.GoToNode it n) s.
Proof. intros H. unfold le_cfg_GoToNode. rewrite H. reflexivity. Qed.

Lemma le_cfg_GoToFirstChild_live (it : Cfg.Iter) (s : St) :
  Cfg.live it = true -> le_cfg_GoToFirstChild X it s = Done (Cfg.GoToFirstChild it) s.
Proof. intros H. unfold le_cfg_GoToFirstChild. rewrite H. reflexivity. Qed.

Lemma GoToNode_live (it : Cfg.Iter) (n : string) :
  Cfg.live (Cfg.GoToNode it n) = Cfg.live it.
Proof. unfold Cfg.GoToNode. destruct (Cfg.find_child _ _). reflexivity. Qed.

Lemma node_iter_live (n : string) (s : St) : Cfg.live (node_iter X n s) = true.
Proof. unfold node_iter. rewrite GoToNode_live. reflexivity. Qed.

Lemma GoToFirstChild_node (n : string) (s : St) :
  Cfg.GoToFirstChild (node_iter X n s)
  = match config_children X n s with
    | [] => (LE_NOT_FOUND, node_iter X n s)
    | c :: rest => (LE_OK, Cfg.mkIter true (Some c) rest)
    end.
Proof.
  unfold Cfg.GoToFirstChild, config_children. fold (node_iter X n s).
  rewrite node_iter_live. reflexivity.
Qed.

(** Where the bindings node has children, the rules are set child by
    child and the transaction is cancelled once, at the end. *)
Lemma SetSmackRulesForBindings_with_bindings (fuel : nat) (appLabelPtr : string) (s : St) :
  config_children X CFG_NODE_BINDINGS s <> [] ->
  (length (config_children X CFG_NODE_BINDINGS s) <= fuel)%nat ->
  SetSmackRulesForBindings X fuel appLabelPtr s
  = Done tt (mkSt (st_app s)
                  (st_trace s ++ [E_le_cfg_CreateReadTxn (cfgPathRoot (st_app s))]
                   ++ flat_map (binding_rules X appLabelPtr)
                               (config_children X CFG_NODE_BINDINGS s)
                   ++ [E_le_cfg_CancelTxn true])).
Proof.
  intros Hne Hlen. unfold SetSmackRulesForBindings.
  unfold bind at 1. unfold get_app.
  rewrite (bind_Done _ _ _ _ _ (le_cfg_CreateReadTxn_run _ s)).
  rewrite (bind_Done _ _ _ _ _ (le_cfg_GoToNode_live (Cfg.CreateReadTxn _) _ _ eq_refl)).
  fold (node_iter X CFG_NODE_BINDINGS s).
  rewrite (bind_Done _ _ _ _ _ (le_cfg_GoToFirstChild_live _ _ (node_iter_live _ s))).
  rewrite GoToFirstChild_node.
  destruct (config_children X CFG_NODE_BINDINGS s) as [|c rest] eqn:Ec; [congruence|].
  simpl fst. rewrite decide_False by (intros Hc; apply Hc; reflexivity). simpl snd.
  unfold bind at 1. unfold ret at 1.
  destruct (bindings_loop_live appLabelPtr fuel c rest
              (mkSt (st_app s) (st_trace s ++ [E_le_cfg_CreateReadTxn (cfgPathRoot (st_app s))])))
    as [it' [Hl Hl']]; [simpl in Hlen; lia|].
  rewrite (bind_Done _ _ _ _ _ Hl).
  rewrite (bind_Done _ _ _ _ _ (le_cfg_CancelTxn_run _ _)).
  unfold ret. rewrite Hl'. norm_trace. reflexivity.
Qed.

(** On a cancelled transaction the loop stays on a cancelled
    transaction, and the history only grows. *)
Lemma bindings_loop_cancelled (appLabelPtr : string) (fuel : nat) :
  forall it s it' s',
    Cfg.live it = false ->
    bindings_loop X fuel appLabelPtr it s = Done it' s' ->
    Cfg.live it' = false
    /\ exists r out post,
         st_trace s' = st_trace s
           ++ E_le_cfg_OnCancelled "le_cfg_GetString" r out
           :: (if bool_decide (r = LE_OK) && negb (String.eqb out "")
               then [E_smack_SetRule appLabelPtr "rw" (smack_GetAppLabel X out);
                     E_smack_SetRule (smack_GetAppLabel X out) "rw" appLabelPtr]
               else [])
           ++ post.
Proof.
  induction fuel as [|fuel IH]; intros it s it' s' Hdead Hrun; [discriminate|].
  simpl bindings_loop in Hrun.
  unfold le_cfg_GetString, le_cfg_GoToNextSibling in Hrun. rewrite Hdead in Hrun.
  unfold on_cancelled in Hrun. unfold bind at 1 in Hrun. unfold call at 1 in Hrun.
  set (a := le_cfg_on_cancelled X (st_trace s) "le_cfg_GetString") in *.
  simpl st_app in Hrun. simpl st_trace in Hrun.
  set (rules := if bool_decide (fst a = LE_OK) && negb (String.eqb (snd a) "")
                then [E_smack_SetRule appLabelPtr "rw" (smack_GetAppLabel X (snd a));
                      E_smack_SetRule (smack_GetAppLabel X (snd a)) "rw" appLabelPtr]
                else []).
  set (s1 := mkSt (st_app s)
                  (st_trace s ++ [E_le_cfg_OnCancelled "le_cfg_GetString" (fst a) (snd a)])) in *.
  assert (Hrules :
    (if bool_decide (fst a = LE_OK) && negb (String.eqb (snd a) "")
     then emit (E_smack_SetRule appLabelPtr "rw" (smack_GetAppLabel X (snd a))) ;;;
          emit (E_smack_SetRule (smack_GetAppLabel X (snd a)) "rw" appLabelPtr)
     else ret tt) s1
    = Done tt (mkSt (st_app s) (st_trace s1 ++ rules))).
  { unfold rules. destruct (bool_decide _ && negb _).
    - unfold bind, emit. simpl. rewrite <- !app_assoc. reflexivity.
    - unfold ret. rewrite app_nil_r. reflexivity. }
  unfold bind at 1 in Hrun. rewrite Hrules in Hrun.
  unfold bind at 1 in Hrun. unfold bind at 1 in Hrun. unfold call at 1 in Hrun.
  simpl st_app in Hrun. simpl st_trace in Hrun.
  set (b := le_cfg_on_cancelled X ((st_trace s
               ++ [E_le_cfg_OnCancelled "le_cfg_GetString" (fst a) (snd a)]) ++ rules)
              "le_cfg_GoToNextSibling") in *.
  unfold ret at 1 in Hrun. cbn [fst snd] in Hrun.
  destruct (decide (fst b = LE_OK)).
  - apply IH in Hrun; [|exact Hdead]. destruct Hrun as [Hl [r [out [post Htr]]]].
    split; [exact Hl|].
    exists (fst a), (snd a). eexists. rewrite Htr. simpl st_trace.
    fold rules. rewrite <- !app_assoc. simpl. reflexivity.
  - unfold ret in Hrun. injection Hrun as <- <-.
    split; [exact Hdead|].
    exists (fst a), (snd a). eexists. simpl st_trace.
    fold rules. rewrite <- !app_assoc. simpl. reflexivity.
Qed.

(** C6: where the bindings node has no children, the function cancels
    the transaction and goes on into the loop all the same.  Every run
    that returns has asked the cancelled transaction for the [app]
    string of a binding, has set the two rules if a name came back,
    and has cancelled the transaction a second time at the end. *)
Theorem SetSmackRulesForBindings_without_bindings (fuel : nat) (appLabelPtr : string)
    (s s' : St) :
  config_children X CFG_NODE_BINDINGS s = [] ->
  SetSmackRulesForBindings X fuel appLabelPtr s = Done tt s' ->
  exists r out post,
    st_trace s' = st_trace s
      ++ [E_le_cfg_CreateReadTxn (cfgPathRoot (st_app s));
          E_le_cfg_CancelTxn true;
          E_le_cfg_OnCancelled "le_cfg_GetString" r out]
      ++ (if bool_decide (r = LE_OK) && negb (String.eqb out "")
          then [E_smack_SetRule appLabelPtr "rw" (smack_GetAppLabel X out);
                E_smack_SetRule (smack_GetAppLabel X out) "rw" appLabelPtr]
          else [])
      ++ post ++ [E_le_cfg_CancelTxn false].
Proof.
  intros Hnone Hrun. unfold SetSmackRulesForBindings in Hrun.
  unfold bind at 1 in Hrun. unfold get_app in Hrun.
  rewrite (bind_Done _ _ _ _ _ (le_cfg_CreateReadTxn_run _ s)) in Hrun.
  rewrite (bind_Done _ _ _ _ _ (le_cfg_GoToNode_live (Cfg.CreateReadTxn _) _ _ eq_refl)) in Hrun.
  fold (node_iter X CFG_NODE_BINDINGS s) in Hrun.
  rewrite (bind_Done _ _ _ _ _ (le_cfg_GoToFirstChild_live _ _ (node_iter_live _ s))) in Hrun.
  rewrite GoToFirstChild_node, Hnone in Hrun.
  simpl fst in Hrun. rewrite decide_True in Hrun by discriminate. simpl snd in Hrun.
  rewrite (bind_Done _ _ _ _ _ (le_cfg_CancelTxn_run _ _)) in Hrun.
  rewrite node_iter_live in Hrun. simpl st_app in Hrun. simpl st_trace in Hrun.
  unfold bind at 1 in Hrun.
  destruct (bindings_loop X fuel appLabelPtr (Cfg.CancelTxn (node_iter X CFG_NODE_BINDINGS s)) _)
    as [it' s2| |] eqn:El; try discriminate.
  apply bindings_loop_cancelled in El; [|reflexivity].
  destruct El as [Hdead [r [out [post Htr]]]].
  rewrite (bind_Done _ _ _ _ _ (le_cfg_CancelTxn_run _ _)) in Hrun.
  unfold ret in Hrun. rewrite Hdead in Hrun.
  injection Hrun as <-. simpl st_trace. rewrite Htr. simpl st_trace.
  exists r, out, post. rewrite <- !app_assoc. simpl.
  rewrite <- !app_assoc. reflexivity.
Qed.

End Bindings.

(** An app without bindings. *)
Lemma SetSmackRulesForBindings_without_bindings_witness :
  exists r out post,
    [E_le_cfg_CreateReadTxn "/apps/a"; E_le_cfg_CancelTxn true;
     E_le_cfg_OnCancelled "le_cfg_GetString" LE_NOT_FOUND "";
     E_le_cfg_OnCancelled "le_cfg_GoToNextSibling" LE_NOT_FOUND "";
     E_le_cfg_CancelTxn false]
    = [] ++ [E_le_cfg_CreateReadTxn "/apps/a"; E_le_cfg_CancelTxn true;
             E_le_cfg_OnCancelled "le_cfg_GetString" r out]
         ++ (if bool_decide (r = LE_OK) && negb (String.eqb out "")
             then [E_smack_SetRule "app.a" "rw" ("app." +:+ out);
                   E_smack_SetRule ("app." +:+ out) "rw" "app.a"]
             else [])
         ++ post ++ [E_le_cfg_CancelTxn false].
Proof.
  apply (SetSmackRulesForBindings_without_bindings (Sample.ext Sample.quiet) 1 "app.a"
           (mkSt (Sample.app APP_STATE_STOPPED true None) [])
           (mkSt (Sample.app APP_STATE_STOPPED true None)
                 [E_le_cfg_CreateReadTxn "/apps/a"; E_le_cfg_CancelTxn true;
                  E_le_cfg_OnCancelled "le_cfg_GetString" LE_NOT_FOUND "";
                  E_le_cfg_OnCancelled "le_cfg_GoToNextSibling" LE_NOT_FOUND "";
                  E_le_cfg_CancelTxn false])); reflexivity.
Defined.

(** ** Identity *)

Section Identity.

Variable X : Ext.

Local Abbreviation MAX := (LIMIT_MAX_NUM_SUPPLEMENTARY_GROUPS X).

Lemma same_but_gids_refl (a : App_t) : same_but_gids a a.
Proof. unfold same_but_gids. destruct a; reflexivity. Qed.

Lemma same_but_gids_step (a a' : App_t) (l : list gid_t) :
  same_but_gids a a' -> same_but_gids a (set_supplementGids l a').
Proof. unfold same_but_gids. intros ->. reflexivity. Qed.

Lemma same_but_gids_count (a a' : App_t) :
  same_but_gids a a' -> numSupplementGids a' = numSupplementGids a.
Proof. unfold same_but_gids. intros ->. reflexivity. Qed.

(** The loop of [CreateSupplementaryGroups], entered on a child of the
    groups node with [k] slots left: it always comes to an end; when it
    is left through [break], the index is the number of siblings that
    followed the child it was entered on; when there are more
    siblings than slots, it is left through [return LE_FAULT]. *)
Lemma groups_loop_spec (k : nat) : forall i it s,
  Cfg.live it = true ->
  (i + k = MAX)%nat -> (1 <= k)%nat ->
  exists res s',
    groups_loop X k i it s = Done res s'
    /\ same_but_gids (st_app s) (st_app s')
    /\ (forall j it', res = Some (j, it') ->
          j = (i + length (Cfg.following it))%nat /\ Cfg.live it' = true)
    /\ ((MAX <= i + length (Cfg.following it))%nat -> res = None).
Proof.
  induction k as [|k IH]; intros i it s Hlive Hik Hk; [lia|].
  simpl groups_loop. unfold le_cfg_GetNodeName, le_cfg_GoToNextSibling. rewrite Hlive.
  unfold bind at 1. unfold ret at 1.
  destruct (decide (fst (Cfg.GetNodeName it "" (LIMIT_MAX_USER_NAME_BYTES X)) <> LE_OK)).
  { rewrite (bind_Done _ _ _ _ _ (le_cfg_CancelTxn_run _ _)). unfold ret.
    eexists _, _. split; [reflexivity|]. split; [apply same_but_gids_refl|].
    split; [discriminate|reflexivity]. }
  unfold bind at 1. unfold call at 1.
  set (g := user_CreateGroup X (st_trace s) _).
  set (tr1 := st_trace s ++ [E_user_CreateGroup _ (fst g) (snd g)]).
  destruct (decide (fst g = LE_FAULT)).
  { rewrite (bind_Done _ _ _ _ _ (le_cfg_CancelTxn_run _ _)). unfold ret.
    eexists _, _. split; [reflexivity|]. split; [apply same_but_gids_refl|].
    split; [discriminate|reflexivity]. }
  unfold bind at 1. unfold modify_app at 1. simpl st_app. simpl st_trace.
  unfold bind at 1. unfold ret at 1.
  unfold Cfg.GoToNextSibling.
  destruct (Cfg.following it) as [|c' rest] eqn:Ef.
  - simpl fst. rewrite decide_True by discriminate. simpl snd. unfold ret.
    eexists _, _. split; [reflexivity|].
    split; [apply same_but_gids_step, same_but_gids_refl|].
    split.
    + intros j it' Hj. injection Hj as <- <-. split; [simpl; lia|exact Hlive].
    + simpl. intros Hc. lia.
  - simpl fst. rewrite decide_False by (intros Hc; apply Hc; reflexivity). simpl snd.
    destruct (decide (MAX - 1 <= i)%nat) as [Hfull|Hroom].
    { rewrite (bind_Done _ _ _ _ _ (le_cfg_CancelTxn_run _ _)). unfold ret.
      eexists _, _. split; [reflexivity|].
      split; [apply same_but_gids_step, same_but_gids_refl|].
      split; [discriminate|reflexivity]. }
    destruct (IH (S i) (Cfg.mkIter (Cfg.live it) (Some c') rest)
                (mkSt (set_supplementGids (<[i:=snd g]> (supplementGids (st_app s))) (st_app s))
                      tr1))
      as [res [s' [Hrun [Hsame [HP HQ]]]]]; [exact Hlive|lia|lia|].
    exists res, s'. split; [exact Hrun|].
    split.
    { simpl in Hsame. unfold same_but_gids in *. rewrite Hsame. reflexivity. }
    split.
    + intros j it' Hj. destruct (HP j it' Hj) as [H1 H2]. simpl in H1.
      split; [simpl; lia|exact H2].
    + simpl in *. intros Hc. apply HQ. lia.
Qed.

(** [CreateSupplementaryGroups] always returns.  Without groups in the
    config it returns [LE_OK] and leaves the app object as it found it.
    With groups, [LE_OK] comes with the number of groups in
    [numSupplementGids], and more groups than slots give [LE_FAULT]. *)
Lemma CreateSupplementaryGroups_spec (s : St) :
  (1 <= MAX)%nat ->
  exists r s',
    CreateSupplementaryGroups X s = Done r s'
    /\ (r = LE_OK \/ r = LE_FAULT)
    /\ (config_children X CFG_NODE_GROUPS s = [] -> r = LE_OK /\ st_app s' = st_app s)
    /\ (config_children X CFG_NODE_GROUPS s <> [] -> r = LE_OK ->
        numSupplementGids (st_app s') = length (config_children X CFG_NODE_GROUPS s))
    /\ ((MAX < length (config_children X CFG_NODE_GROUPS s))%nat -> r = LE_FAULT).
Proof.
  intros Hmax. unfold CreateSupplementaryGroups.
  unfold bind at 1. unfold get_app.
  rewrite (bind_Done _ _ _ _ _ (le_cfg_CreateReadTxn_run _ _ s)).
  rewrite (bind_Done _ _ _ _ _ (le_cfg_GoToNode_live _ (Cfg.CreateReadTxn _) _ _ eq_refl)).
  fold (node_iter X CFG_NODE_GROUPS s).
  rewrite (bind_Done _ _ _ _ _ (le_cfg_GoToFirstChild_live _ _ _ (node_iter_live _ _ s))).
  rewrite GoToFirstChild_node.
  destruct (config_children X CFG_NODE_GROUPS s) as [|c rest] eqn:Ec.
  - simpl fst. rewrite decide_True by discriminate. simpl snd.
    rewrite (bind_Done _ _ _ _ _ (le_cfg_CancelTxn_run _ _)). unfold ret.
    eexists _, _. split; [reflexivity|]. split; [left; reflexivity|].
    split; [intros _; split; reflexivity|].
    split; [intros Hc; contradiction|]. simpl. lia.
  - simpl fst. rewrite decide_False by (intros Hc; apply Hc; reflexivity). simpl snd.
    destruct (groups_loop_spec MAX 0 (Cfg.mkIter true (Some c) rest)
                (mkSt (st_app s) (st_trace s ++ [E_le_cfg_CreateReadTxn (cfgPathRoot (st_app s))])))
      as [res [s1 [Hrun [Hsame [HP HQ]]]]]; [reflexivity|lia|exact Hmax|].
    rewrite (bind_Done _ _ _ _ _ Hrun).
    destruct res as [[j it']|].
    + destruct (HP j it' eq_refl) as [Hj Hl]. simpl in Hj.
      unfold bind at 1. unfold modify_app at 1.
      rewrite (bind_Done _ _ _ _ _ (le_cfg_CancelTxn_run _ _)). unfold ret.
      eexists _, _. split; [reflexivity|]. split; [left; reflexivity|].
      split; [discriminate|].
      split; [intros _ _; simpl; lia|].
      simpl. intros Hc. assert (Hn : Some (j, it') = None) by (apply HQ; simpl; lia).
      discriminate.
    + unfold ret. eexists _, _. split; [reflexivity|]. split; [right; reflexivity|].
      split; [discriminate|]. split; [discriminate|]. reflexivity.
Qed.

(** C7: for an app that is not sandboxed, [CreateUserAndGroups] sets
    [uid] and [gid] to 0, reads no config and returns [LE_OK]; it
    leaves [numSupplementGids] and the slots of [supplementGids] as it
    found them in the block, so the list is empty only if the block
    happened to say so. *)
Theorem CreateUserAndGroups_unsandboxed (s : St) :
  sandboxed (st_app s) = false ->
  CreateUserAndGroups X s = Done LE_OK (mkSt (set_ids 0 0 (st_app s)) (st_trace s)).
Proof.
  intros Hsb. unfold CreateUserAndGroups, bind, get_app. rewrite Hsb. reflexivity.
Qed.

(** The same for a sandboxed app without groups in the config: the
    count is not written. *)
Lemma CreateUserAndGroups_sandboxed_without_groups (s : St) :
  (1 <= MAX)%nat ->
  sandboxed (st_app s) = true ->
  (forall s1, cfgPathRoot (st_app s1) = cfgPathRoot (st_app s) ->
              config_children X CFG_NODE_GROUPS s1 = []) ->
  forall r s', CreateUserAndGroups X s = Done r s' -> r = LE_OK ->
    numSupplementGids (st_app s') = numSupplementGids (st_app s).
Proof.
  intros Hmax Hsb Hnone r s' Hrun Hr.
  unfold CreateUserAndGroups in Hrun. unfold bind at 1 in Hrun. unfold get_app in Hrun.
  rewrite Hsb in Hrun.
  destruct (decide (fst (user_AppNameToUserName X _ _) <> LE_OK));
    [injection Hrun as <- <-; discriminate|].
  unfold bind at 1 in Hrun. unfold call at 1 in Hrun.
  destruct (decide (fst (fst (user_GetIDs X _ _)) <> LE_OK));
    [injection Hrun as <- <-; discriminate|].
  unfold bind at 1 in Hrun. unfold modify_app at 1 in Hrun.
  match type of Hrun with CreateSupplementaryGroups X ?s1 = _ =>
    destruct (CreateSupplementaryGroups_spec s1 Hmax) as [r1 [s2 [Hc [_ [H0 _]]]]];
    rewrite Hc in Hrun; injection Hrun as <- <-;
    destruct H0 as [_ H0]; [apply Hnone; reflexivity|]; rewrite H0; reflexivity
  end.
Qed.

(** More groups in the config than slots: the identity step fails. *)
Lemma CreateUserAndGroups_too_many_groups (s : St) :
  (1 <= MAX)%nat ->
  sandboxed (st_app s) = true ->
  (forall s1, cfgPathRoot (st_app s1) = cfgPathRoot (st_app s) ->
              (MAX < length (config_children X CFG_NODE_GROUPS s1))%nat) ->
  exists s', CreateUserAndGroups X s = Done LE_FAULT s'.
Proof.
  intros Hmax Hsb Hmany.
  unfold CreateUserAndGroups. unfold bind at 1. unfold get_app. rewrite Hsb.
  destruct (decide (fst (user_AppNameToUserName X _ _) <> LE_OK)); [eexists; reflexivity|].
  unfold bind at 1. unfold call at 1.
  destruct (decide (fst (fst (user_GetIDs X _ _)) <> LE_OK)); [eexists; reflexivity|].
  unfold bind at 1. unfold modify_app at 1.
  match goal with |- exists s', CreateSupplementaryGroups X ?s1 = _ =>
    destruct (CreateSupplementaryGroups_spec s1 Hmax) as [r1 [s2 [Hc [_ [_ [_ Hf]]]]]];
    rewrite Hc, Hf; [eexists; reflexivity | apply Hmany; reflexivity]
  end.
Qed.

Lemma DeleteProcContainersList_total (l : list ProcContainer_t) : forall s,
  exists pre, DeleteProcContainersList l s = Done tt (mkSt (st_app s) (st_trace s ++ pre)).
Proof.
  induction l as [|c rest IH]; intros s; simpl.
  - exists []. unfold ret. rewrite app_nil_r. destruct s; reflexivity.
  - unfold bind, emit. simpl.
    destruct (IH (mkSt (st_app s)
                    ((st_trace s ++ [E_proc_Delete (procRef c)])
                     ++ [E_le_mem_Release "ProcContainer"]))) as [pre Hpre].
    rewrite Hpre. simpl. eexists. rewrite <- !app_assoc. reflexivity.
Qed.

Lemma app_Delete_total (s : St) : exists s', app_Delete X s = Done tt s'.
Proof.
  unfold app_Delete. unfold bind at 1. unfold get_app.
  unfold bind at 1. unfold CleanupAppSmackSettings, bind, get_app, emit. simpl.
  match goal with |- context [DeleteProcContainersList (procs (st_app s)) ?s1] =>
    destruct (DeleteProcContainersList_total (procs (st_app s)) s1) as [p1 H1] end.
  rewrite H1.
  match goal with |- context [DeleteProcContainersList (auxProcs (st_app s)) ?s1] =>
    destruct (DeleteProcContainersList_total (auxProcs (st_app s)) s1) as [p2 H2] end.
  rewrite H2.
  destruct (killTimer (st_app s)); simpl; eexists; reflexivity.
Qed.

(** [app_Create] up to the identity step, and what it makes of its
    result: a failure of the identity step fails the creation. *)
Lemma app_Create_identity (remaining_steps : Cfg.Iter -> M bool) (cfgPathRootPtr : string)
    (s : St) :
  fst (le_utf8_Copy X cfgPathRootPtr (LIMIT_MAX_PATH_BYTES X)) = LE_OK ->
  numSupplementGids (st_app (app_Create_init X cfgPathRootPtr s)) = numSupplementGids (st_app s)
  /\ forall r s2,
       CreateUserAndGroups X (app_Create_init X cfgPathRootPtr s) = Done r s2 ->
       r <> LE_OK ->
       exists s', app_Create X remaining_steps cfgPathRootPtr s = Done false s'.
Proof.
  intros Hcp. split; [reflexivity|].
  intros r s2 Hid Hr. unfold app_Create. rewrite Hcp.
  rewrite decide_False by (intros Hc; apply Hc; reflexivity).
  do 5 (unfold bind at 1; unfold modify_app at 1; cbn [st_app st_trace]).
  rewrite (bind_Done _ _ _ _ _ (le_cfg_CreateReadTxn_run _ _ _)).
  cbn [st_app st_trace].
  unfold bind at 1. unfold le_cfg_GetBool at 1.
  change (Cfg.live (Cfg.CreateReadTxn ?t)) with true. cbv iota. unfold ret at 1.
  unfold bind at 1. unfold modify_app at 1. cbn [st_app st_trace].
  unfold app_Create_init in Hid. cbv zeta in Hid. cbv zeta.
  rewrite (bind_Done _ _ _ _ _ Hid).
  rewrite decide_True by exact Hr.
  destruct (app_Delete_total s2) as [s3 Hd].
  rewrite (bind_Done _ _ _ _ _ Hd).
  rewrite (bind_Done _ _ _ _ _ (le_cfg_CancelTxn_run _ _)).
  unfold ret. eexists. reflexivity.
Qed.

End Identity.

(** An unsandboxed app created in a block that a sandboxed app with two
    groups has used before. *)
Lemma CreateUserAndGroups_unsandboxed_witness :
  CreateUserAndGroups (Sample.ext Sample.quiet)
    (mkSt (set_numSupplementGids 2
             (set_supplementGids [2001; 2002; 0] (Sample.app APP_STATE_STOPPED false None))) [])
  = Done LE_OK
      (mkSt (set_numSupplementGids 2
               (set_supplementGids [2001; 2002; 0] (Sample.app APP_STATE_STOPPED false None))) []).
Proof.
  apply (CreateUserAndGroups_unsandboxed (Sample.ext Sample.quiet)
           (mkSt (set_numSupplementGids 2
                    (set_supplementGids [2001; 2002; 0]
                       (Sample.app APP_STATE_STOPPED false None))) [])).
  reflexivity.
Defined.

Lemma copy_gids_spec (k : nat) : forall (from : nat) (src buf : list gid_t),
  (from + k <= length src)%nat -> (from + k <= length buf)%nat ->
  copy_gids k from src buf
  = Some (take from buf ++ take k (drop from src) ++ drop (from + k) buf).
Proof.
  induction k as [|k IH]; intros from src buf Hs Hb; simpl.
  - rewrite Nat.add_0_r, take_drop. reflexivity.
  - destruct (lookup_lt_is_Some_2 src from) as [g Hg]; [lia|].
    rewrite Hg. simpl.
    destruct (decide (from < length buf)%nat) as [Hlt|]; [|lia].
    rewrite IH by (rewrite ?length_insert; lia).
    f_equal.
    rewrite (take_S_r _ _ g) by (apply list_lookup_insert_eq; exact Hlt).
    rewrite take_insert_ge by lia.
    rewrite drop_insert_lt by lia.
    rewrite (drop_S src g from Hg). simpl.
    rewrite <- app_assoc. simpl.
    rewrite Nat.add_succ_r. reflexivity.
Qed.

(** C10: for every app whose count of supplementary groups is within its
    array, and every buffer [groupsPtr] of at least [numGroups] entries,
    [app_GetSupplementaryGroups] called with a capacity [numGroups] of at
    least [numSupplementGids] copies all the stored gids to the front of
    the buffer, sets the count to [numSupplementGids] and returns
    [LE_OK]; called with a smaller capacity it copies the first
    [numGroups] gids only, still sets the count to the full
    [numSupplementGids], and returns [LE_OVERFLOW]. *)
Theorem app_GetSupplementaryGroups_copies (appRef : App_t) (groupsPtr : list gid_t)
    (numGroups : nat) :
  (numSupplementGids appRef <= length (supplementGids appRef))%nat ->
  (numGroups <= length groupsPtr)%nat ->
  let n := numSupplementGids appRef in
  ((n <= numGroups)%nat ->
     app_GetSupplementaryGroups appRef groupsPtr numGroups
     = Some (LE_OK, take n (supplementGids appRef) ++ drop n groupsPtr, n))
  /\ ((numGroups < n)%nat ->
     app_GetSupplementaryGroups appRef groupsPtr numGroups
     = Some (LE_OVERFLOW,
             take numGroups (supplementGids appRef) ++ drop numGroups groupsPtr, n)).
Proof.
  intros Hn Hb n. unfold app_GetSupplementaryGroups. fold n. split; intros H.
  - destruct (decide (n <= numGroups)%nat); [|lia].
    rewrite copy_gids_spec by (simpl; lia). reflexivity.
  - destruct (decide (n <= numGroups)%nat); [lia|].
    rewrite copy_gids_spec by (simpl; lia). reflexivity.
Qed.

Lemma app_GetSupplementaryGroups_copies_witness :
  app_GetSupplementaryGroups
    (set_numSupplementGids 2 (set_supplementGids [20; 21; 0] (Sample.app APP_STATE_STOPPED true None)))
    [7; 7; 7] 3
  = Some (LE_OK, [20; 21; 7], 2%nat)
  /\ app_GetSupplementaryGroups
    (set_numSupplementGids 2 (set_supplementGids [20; 21; 0] (Sample.app APP_STATE_STOPPED true None)))
    [7] 1
  = Some (LE_OVERFLOW, [20], 2%nat).
Proof.
  split.
  - apply (app_GetSupplementaryGroups_copies
             (set_numSupplementGids 2 (set_supplementGids [20; 21; 0] (Sample.app APP_STATE_STOPPED true None)))
             [7; 7; 7] 3); simpl; lia.
  - apply (app_GetSupplementaryGroups_copies
             (set_numSupplementGids 2 (set_supplementGids [20; 21; 0] (Sample.app APP_STATE_STOPPED true None)))
             [7] 1); simpl; lia.
Defined.

(** ** Thread join *)

Section ThreadJoin.

Import Thread.

Variable pthread_join : pthread_t -> pthread_t -> Z.
Variable size_bits : Z.

Local Abbreviation join := (le_thread_Join pthread_join size_bits).

Lemma le_dls_Remove_gone (l : list ptr) (p : ptr) : p ∉ le_dls_Remove l p.
Proof.
  unfold le_dls_Remove. intros H. apply list_elem_of_filter in H.
  destruct H as [H _]. apply H. reflexivity.
Qed.

Lemma le_dls_Remove_keeps (l : list ptr) (p q : ptr) :
  q <> p -> q ∈ l -> q ∈ le_dls_Remove l p.
Proof.
  unfold le_dls_Remove. intros Hne Hin. apply list_elem_of_filter. split; assumption.
Qed.

Lemma join_unknown self thread s :
  ThreadRefMap s !! thread = None -> join self thread s = Some (LE_NOT_FOUND, s).
Proof. intros H. unfold le_thread_Join, le_ref_Lookup. rewrite H. reflexivity. Qed.

Lemma join_not_joinable self thread s p obj :
  ThreadRefMap s !! thread = Some p -> ThreadPool s !! p = Some obj ->
  isJoinable obj = false -> join self thread s = Some (LE_NOT_POSSIBLE, s).
Proof.
  intros Hp Hobj Hj. unfold le_thread_Join, le_ref_Lookup.
  rewrite Hp, Hobj. simpl. rewrite Hj. reflexivity.
Qed.

Lemma join_joinable self thread s p obj :
  ThreadRefMap s !! thread = Some p -> ThreadPool s !! p = Some obj ->
  isJoinable obj = true ->
  join self thread s =
    let error := pthread_join self (threadHandle obj) in
    if decide (error = 0) then
      Some (LE_OK,
            mkThreadSt (delete (safeRef obj) (ThreadRefMap s))
                       (le_dls_Remove (ThreadObjList s) p)
                       ((ThreadObjListChangeCount s + 1) mod 2 ^ size_bits)
                       (delete p (ThreadPool s)))
    else if decide (error = EDEADLK) then Some (LE_DEADLOCK, s)
    else if decide (error = ESRCH) then Some (LE_NOT_FOUND, s)
    else Some (LE_NOT_POSSIBLE, s).
Proof.
  intros Hp Hobj Hj. unfold le_thread_Join, le_ref_Lookup.
  rewrite Hp, Hobj. simpl. rewrite Hj. reflexivity.
Qed.

Lemma join_self self thread s p obj :
  self_join_refused pthread_join ->
  ThreadRefMap s !! thread = Some p -> ThreadPool s !! p = Some obj ->
  isJoinable obj = true -> threadHandle obj = self ->
  join self thread s = Some (LE_DEADLOCK, s).
Proof.
  intros Hos Hp Hobj Hj Hh. rewrite (join_joinable _ _ _ _ _ Hp Hobj Hj).
  rewrite Hh, Hos. reflexivity.
Qed.

Lemma join_ok self thread s s' p obj :
  refs_ok s ->
  ThreadRefMap s !! thread = Some p -> ThreadPool s !! p = Some obj ->
  join self thread s = Some (LE_OK, s') ->
  isJoinable obj = true /\ pthread_join self (threadHandle obj) = 0 /\ joined thread p s s'.
Proof.
  intros Hok Hp Hobj Hjoin.
  destruct (Hok _ _ Hp) as [obj' [Hobj' Href]].
  rewrite Hobj in Hobj'. injection Hobj' as <-.
  destruct (isJoinable obj) eqn:Hj.
  - rewrite (join_joinable _ _ _ _ _ Hp Hobj Hj) in Hjoin. simpl in Hjoin.
    repeat case_decide; try discriminate.
    injection Hjoin as <-. rewrite Href.
    split; [reflexivity|]. split; [assumption|].
    unfold joined. simpl.
    split; [reflexivity|]. split; [apply lookup_delete_eq|].
    split; [apply le_dls_Remove_gone|].
    split; [intros q Hq Hin; apply le_dls_Remove_keeps; assumption|].
    split; [reflexivity|apply lookup_delete_eq].
  - rewrite (join_not_joinable _ _ _ _ _ Hp Hobj Hj) in Hjoin. discriminate.
Qed.

Lemma join_returns self thread s :
  refs_ok s -> exists r s', join self thread s = Some (r, s').
Proof.
  intros Hok. destruct (ThreadRefMap s !! thread) as [p|] eqn:Hp.
  - destruct (Hok _ _ Hp) as [obj [Hobj _]].
    destruct (isJoinable obj) eqn:Hj.
    + rewrite (join_joinable _ _ _ _ _ Hp Hobj Hj). simpl.
      repeat case_decide; eauto.
    + rewrite (join_not_joinable _ _ _ _ _ Hp Hobj Hj). eauto.
  - rewrite (join_unknown _ _ _ Hp). eauto.
Qed.

(** C9, amended: [le_thread_Join] makes its checks in a fixed order.  An
    unknown reference gives [LE_NOT_FOUND]; a known thread that is not
    joinable gives [LE_NOT_POSSIBLE], also when it is the caller itself;
    a joinable thread that joins with itself gets [LE_DEADLOCK]; in these
    cases nothing is changed.  A join that returns [LE_OK] has deleted
    the safe reference, taken the object off the thread object list and
    released it. *)
Theorem le_thread_Join_cases (self : pthread_t) (thread : le_thread_Ref_t) (s : ThreadSt) :
  refs_ok s ->
  self_join_refused pthread_join ->
  (exists r s', join self thread s = Some (r, s'))
  /\ (ThreadRefMap s !! thread = None -> join self thread s = Some (LE_NOT_FOUND, s))
  /\ (forall p obj, ThreadRefMap s !! thread = Some p -> ThreadPool s !! p = Some obj ->
        (isJoinable obj = false -> join self thread s = Some (LE_NOT_POSSIBLE, s))
        /\ (isJoinable obj = true -> threadHandle obj = self ->
              join self thread s = Some (LE_DEADLOCK, s))
        /\ (forall s', join self thread s = Some (LE_OK, s') ->
              isJoinable obj = true /\ joined thread p s s')).
Proof.
  intros Hok Hos.
  split; [apply join_returns; exact Hok|].
  split; [apply join_unknown|].
  intros p obj Hp Hobj.
  split; [apply (join_not_joinable _ _ _ _ _ Hp Hobj)|].
  split; [apply (join_self _ _ _ _ _ Hos Hp Hobj)|].
  intros s' Hj. destruct (join_ok _ _ _ _ _ _ Hok Hp Hobj Hj) as [H1 [_ H2]].
  split; assumption.
Qed.

End ThreadJoin.

Lemma sample_threads_refs_ok (j : bool) : Thread.refs_ok (Sample.threads j).
Proof.
  intros r p H. simpl in H.
  apply lookup_singleton_Some in H. destruct H as [<- <-].
  exists (Sample.thread_obj j). split; [apply lookup_singleton_eq | reflexivity].
Qed.

Lemma sample_self_join_refused : Thread.self_join_refused Sample.pthread_join.
Proof. intros h. unfold Sample.pthread_join. rewrite decide_True; reflexivity. Qed.

(** A thread that was left at the default, not joinable, joins with
    itself: the call returns [LE_NOT_POSSIBLE], where the claim asks for
    [LE_NOT_POSSIBLE] and for [LE_DEADLOCK] at once. *)
Lemma join_claim_fails_on_self_join_of_detached_thread :
  ~ Thread.join_claim Sample.pthread_join 64 7 1%positive (Sample.threads false).
Proof.
  intros [r [s' [Hj [_ H]]]].
  destruct (H 5%positive (Sample.thread_obj false)) as [H1 [H2 _]];
    [reflexivity | reflexivity |].
  rewrite (H1 eq_refl) in H2. specialize (H2 eq_refl). discriminate.
Qed.

Lemma le_thread_Join_cases_witness :
  Thread.le_thread_Join Sample.pthread_join 64 7 1%positive (Sample.threads false)
    = Some (LE_NOT_POSSIBLE, Sample.threads false)
  /\ Thread.le_thread_Join Sample.pthread_join 64 7 1%positive (Sample.threads true)
    = Some (LE_DEADLOCK, Sample.threads true).
Proof.
  split.
  - destruct (le_thread_Join_cases Sample.pthread_join 64 7 1%positive (Sample.threads false)
                (sample_threads_refs_ok false) sample_self_join_refused) as [_ [_ H]].
    apply (H 5%positive (Sample.thread_obj false)); reflexivity.
  - destruct (le_thread_Join_cases Sample.pthread_join 64 7 1%positive (Sample.threads true)
                (sample_threads_refs_ok true) sample_self_join_refused) as [_ [_ H]].
    apply (H 5%positive (Sample.thread_obj true)); reflexivity.
Defined.

(** ** Link destinations *)

Lemma not_ends_with_slash_empty : ~ ends_with_slash "".
Proof. intros [[|a p] H]; discriminate. Qed.

Lemma ends_with_slash_cons (a : ascii) (s : string) :
  s <> "" -> (ends_with_slash (String a s) <-> ends_with_slash s).
Proof.
  intros Hne. split.
  - intros [[|b p] H]; simpl in H.
    + injection H as _ H. congruence.
    + injection H as _ H. exists p. exact H.
  - intros [p H]. exists (String a p). simpl. rewrite H. reflexivity.
Qed.

Lemma last_char (s : string) :
  s <> "" ->
  exists c, String.get (String.length s - 1) s = Some c
            /\ (Ascii.eqb c "/" = true <-> ends_with_slash s).
Proof.
  induction s as [|a s IH]; intros Hne; [congruence|].
  destruct s as [|b r].
  - exists a. split; [reflexivity|]. rewrite Ascii.eqb_eq. split.
    + intros ->. exists "". reflexivity.
    + intros [[|c p] H]; simpl in H.
      * injection H as H. exact H.
      * injection H as _ H. destruct p; discriminate.
  - destruct IH as [c [Hget Hc]]; [discriminate|].
    exists c. split.
    + simpl in *. rewrite Nat.sub_0_r in Hget. exact Hget.
    + rewrite Hc. symmetry. apply ends_with_slash_cons. discriminate.
Qed.

Section LinkDestination.

Variable X : Ext.

(** C8: [GetAbsDestPath] joins the working directory, the destination
    and, when the destination ends in ['/'], the basename of the source;
    otherwise it joins the working directory and the destination as it
    is.  This holds for every destination that is not empty, which is
    what the callers pass, and for the empty one as well unless the
    byte that memory holds in front of it is a ['/']. *)
Theorem GetAbsDestPath_joins (before : ascii) (destPtr srcPtr appRunDir : string)
    (bufSize : nat) :
  (destPtr = "" -> before <> "/"%char) ->
  GetAbsDestPath_claim X before destPtr srcPtr appRunDir bufSize.
Proof.
  intros Hb. unfold GetAbsDestPath_claim, GetAbsDestPath.
  destruct (decide (destPtr = "")) as [->|Hne].
  - simpl. specialize (Hb eq_refl).
    assert (E : Ascii.eqb before "/" = false) by (apply Ascii.eqb_neq; exact Hb).
    rewrite E. split; intros H; [|reflexivity].
    exfalso. exact (not_ends_with_slash_empty H).
  - destruct (last_char destPtr Hne) as [c [Hget Hc]].
    rewrite Hget.
    split; intros H.
    + apply Hc in H. rewrite H. reflexivity.
    + destruct (Ascii.eqb c "/") eqn:E; [|reflexivity].
      exfalso. apply H, Hc. reflexivity.
Qed.

(** A destination that is not empty does not make the function look in
    front of the string. *)
Lemma GetAbsDestPath_in_bounds (b b' : ascii) (destPtr srcPtr appRunDir : string)
    (bufSize : nat) :
  destPtr <> "" ->
  GetAbsDestPath X b destPtr srcPtr appRunDir bufSize
  = GetAbsDestPath X b' destPtr srcPtr appRunDir bufSize.
Proof.
  intros Hne. unfold GetAbsDestPath.
  destruct (last_char destPtr Hne) as [c [Hget _]]. rewrite Hget. reflexivity.
Qed.

End LinkDestination.

Lemma GetAbsDestPath_joins_witness :
  GetAbsDestPath (Sample.ext Sample.quiet) Ascii.zero "/dev/" "/dev/log"
                 "/legato/appsWriteable/a" 512
    = le_path_Concat (Sample.ext Sample.quiet) "/" "" 512
        ["/legato/appsWriteable/a"; "/dev/"; "log"]
  /\ GetAbsDestPath (Sample.ext Sample.quiet) Ascii.zero "/bin/tool" "/usr/bin/x"
                    "/legato/appsWriteable/a" 512
    = le_path_Concat (Sample.ext Sample.quiet) "/" "" 512
        ["/legato/appsWriteable/a"; "/bin/tool"]
  /\ GetAbsDestPath (Sample.ext Sample.quiet) Ascii.zero "" "/usr/bin/x"
                    "/legato/appsWriteable/a" 512
    = le_path_Concat (Sample.ext Sample.quiet) "/" "" 512
        ["/legato/appsWriteable/a"; ""].
Proof.
  split; [|split].
  - destruct (GetAbsDestPath_joins (Sample.ext Sample.quiet) Ascii.zero "/dev/" "/dev/log"
                "/legato/appsWriteable/a" 512) as [H _]; [discriminate|].
    apply H. exists "/dev". reflexivity.
  - destruct (GetAbsDestPath_joins (Sample.ext Sample.quiet) Ascii.zero "/bin/tool"
                "/usr/bin/x" "/legato/appsWriteable/a" 512) as [_ H]; [discriminate|].
    apply H. intros [p Hp].
    destruct (last_char "/bin/tool") as [c [Hg Hc]]; [discriminate|].
    simpl in Hg. injection Hg as <-.
    assert (Hs : ends_with_slash "/bin/tool") by (exists p; exact Hp).
    apply Hc in Hs. discriminate.
  - destruct (GetAbsDestPath_joins (Sample.ext Sample.quiet) Ascii.zero "" "/usr/bin/x"
                "/legato/appsWriteable/a" 512) as [_ H]; [discriminate|].
    apply H. exact not_ends_with_slash_empty.
Defined.


(** * Further properties of [app.c] *)

(** ** Process containers *)

Section Containers.

Variable X : Ext.

Lemma FindProcContainerInList_Some (tr : Trace) (pid : pid_t) (l : list ProcContainer_t) :
  forall i j c, FindProcContainerInList X tr l pid i = Some (j, c) ->
    (i <= j)%nat /\ l !! (j - i)%nat = Some c /\ proc_GetPID X tr (procRef c) = pid.
Proof.
  induction l as [|d rest IH]; intros i j c H; simpl in H; [discriminate|].
  case_decide as Hd.
  - injection H as <- <-. rewrite Nat.sub_diag. auto.
  - destruct (IH _ _ _ H) as [Hle [Hl Hp]].
    split; [lia|]. split; [|exact Hp].
    replace (j - i)%nat with (S (j - S i)) by lia. exact Hl.
Qed.

Lemma FindProcContainer_Some (tr : Trace) (a : App_t) (pid : pid_t) loc c :
  FindProcContainer X tr a pid = Some (loc, c) ->
  container_at loc a = Some c
  /\ proc_GetPID X tr (procRef c) = pid
  /\ store_container loc c a = a
  /\ (forall i, loc = InAuxProcs i ->
        Forall (fun d => proc_GetPID X tr (procRef d) <> pid) (procs a)).
Proof.
  unfold FindProcContainer. intros H.
  destruct (FindProcContainerInList X tr (procs a) pid 0) as [[i d]|] eqn:E1.
  - injection H as <- <-.
    destruct (FindProcContainerInList_Some _ _ _ _ _ _ E1) as [_ [Hl Hp]].
    rewrite Nat.sub_0_r in Hl. simpl.
    split; [exact Hl|]. split; [exact Hp|].
    split; [|discriminate].
    unfold set_procs. rewrite list_insert_id by exact Hl. destruct a; reflexivity.
  - destruct (FindProcContainerInList X tr (auxProcs a) pid 0) as [[i d]|] eqn:E2;
      [|discriminate].
    injection H as <- <-.
    destruct (FindProcContainerInList_Some _ _ _ _ _ _ E2) as [_ [Hl Hp]].
    rewrite Nat.sub_0_r in Hl. simpl.
    split; [exact Hl|]. split; [exact Hp|].
    split.
    + unfold set_auxProcs. rewrite list_insert_id by exact Hl. destruct a; reflexivity.
    + intros _ _. apply (FindProcContainerInList_None X tr pid (procs a) 0). exact E1.
Qed.

(** X1: the pointer that [FindProcContainer] returns is a pointer to a
    container of the app whose process has the pid (so that writing the
    container back through it changes nothing), and a container of
    [auxProcs] is returned only when no container of [procs] has the
    pid. *)
Theorem FindProcContainer_found (tr : Trace) (a : App_t) (pid : pid_t) loc c :
  FindProcContainer X tr a pid = Some (loc, c) ->
  container_at loc a = Some c
  /\ proc_GetPID X tr (procRef c) = pid
  /\ store_container loc c a = a
  /\ (forall i, loc = InAuxProcs i ->
        Forall (fun d => proc_GetPID X tr (procRef d) <> pid) (procs a)).
Proof. apply FindProcContainer_Some. Qed.

(** X2: [app_HasTopLevelProc] is true exactly when a container of
    [procs] or of [auxProcs] holds a process with the pid. *)
Theorem app_HasTopLevelProc_iff (tr : Trace) (a : App_t) (pid : pid_t) :
  app_HasTopLevelProc X tr a pid = true
  <-> exists c, c ∈ procs a ++ auxProcs a /\ proc_GetPID X tr (procRef c) = pid.
Proof.
  unfold app_HasTopLevelProc. split.
  - destruct (FindProcContainer X tr a pid) as [[loc c]|] eqn:E; [|discriminate].
    intros _. unfold FindProcContainer in E.
    destruct (FindProcContainerInList X tr (procs a) pid 0) as [[i d]|] eqn:E1.
    + injection E as <- <-.
      destruct (FindProcContainerInList_Some _ _ _ _ _ _ E1) as [_ [Hl Hp]].
      exists d. split; [|exact Hp]. apply elem_of_app. left.
      apply list_elem_of_lookup. eauto.
    + destruct (FindProcContainerInList X tr (auxProcs a) pid 0) as [[i d]|] eqn:E2;
        [|discriminate].
      injection E as <- <-.
      destruct (FindProcContainerInList_Some _ _ _ _ _ _ E2) as [_ [Hl Hp]].
      exists d. split; [|exact Hp]. apply elem_of_app. right.
      apply list_elem_of_lookup. eauto.
  - intros [c [Hin Hp]].
    destruct (FindProcContainer X tr a pid) as [[loc d]|] eqn:E; [reflexivity|].
    exfalso. apply (FindProcContainer_None X) in E.
    rewrite Forall_forall in E. exact (E c Hin Hp).
Qed.

Lemma find_by_name_Some (n : string) (l : list ProcContainer_t) :
  forall i j c, find_by_name X l n i = Some (j, c) ->
    (i <= j)%nat /\ l !! (j - i)%nat = Some c /\ proc_GetName X (procRef c) = n
    /\ forall k d, (k < j - i)%nat -> l !! k = Some d -> proc_GetName X (procRef d) <> n.
Proof.
  induction l as [|d rest IH]; intros i j c H; simpl in H; [discriminate|].
  destruct (String.eqb n (proc_GetName X (procRef d))) eqn:E.
  - injection H as <- <-. apply String.eqb_eq in E. rewrite Nat.sub_diag.
    split; [lia|]. split; [reflexivity|]. split; [congruence|]. intros k e Hk. lia.
  - apply String.eqb_neq in E.
    destruct (IH _ _ _ H) as [Hle [Hl [Hn Hfirst]]].
    split; [lia|].
    replace (j - i)%nat with (S (j - S i)) by lia.
    split; [exact Hl|]. split; [exact Hn|].
    intros [|k] e Hk He.
    + simpl in He. injection He as <-. congruence.
    + simpl in He. apply (Hfirst k e); [lia|exact He].
Qed.

Lemma find_by_name_None (n : string) (l : list ProcContainer_t) :
  forall i, find_by_name X l n i = None ->
    forall k d, l !! k = Some d -> proc_GetName X (procRef d) <> n.
Proof.
  induction l as [|d rest IH]; intros i H k e He; [discriminate|].
  simpl in H. destruct (String.eqb n (proc_GetName X (procRef d))) eqn:E; [discriminate|].
  apply String.eqb_neq in E. destruct k as [|k].
  - simpl in He. injection He as <-. congruence.
  - simpl in He. exact (IH _ H k e He).
Qed.

(** X3: [app_GetProcState] reports a process as running exactly when
    the app is RUNNING and the first container of [procs] whose process
    has the name holds a process that is running; the containers of
    [auxProcs] are not looked at. *)
Theorem app_GetProcState_running (tr : Trace) (a : App_t) (n : string) :
  app_GetProcState X tr a n = APP_PROC_STATE_RUNNING
  <-> state a = APP_STATE_RUNNING
      /\ exists i c, procs a !! i = Some c
           /\ proc_GetName X (procRef c) = n
           /\ (forall k d, (k < i)%nat -> procs a !! k = Some d ->
                 proc_GetName X (procRef d) <> n)
           /\ proc_GetState X tr (procRef c) = PROC_STATE_RUNNING.
Proof.
  unfold app_GetProcState. split.
  - destruct (decide (state a = APP_STATE_RUNNING)) as [Hs|]; [|discriminate].
    destruct (find_by_name X (procs a) n 0) as [[i c]|] eqn:E; [|discriminate].
    destruct (find_by_name_Some _ _ _ _ _ E) as [_ [Hl [Hn Hfirst]]].
    rewrite Nat.sub_0_r in Hl, Hfirst.
    destruct (proc_GetState X tr (procRef c)) eqn:Est; [discriminate|].
    intros _. split; [exact Hs|]. exists i, c. auto.
  - intros [Hs [i [c [Hl [Hn [Hfirst Hst]]]]]].
    rewrite decide_True by exact Hs.
    destruct (find_by_name X (procs a) n 0) as [[j d]|] eqn:E.
    + destruct (find_by_name_Some _ _ _ _ _ E) as [_ [Hl' [Hn' Hfirst']]].
      rewrite Nat.sub_0_r in Hl', Hfirst'.
      assert (j = i).
      { destruct (Nat.lt_trichotomy j i) as [Hlt|[Heq|Hgt]]; [|exact Heq|].
        - exfalso. exact (Hfirst j d Hlt Hl' Hn').
        - exfalso. exact (Hfirst' i c Hgt Hl Hn). }
      subst j. rewrite Hl in Hl'. injection Hl' as <-. rewrite Hst. reflexivity.
    + exfalso. exact (find_by_name_None _ _ _ E i c Hl Hn).
Qed.

End Containers.

Lemma FindProcContainer_found_witness :
  container_at (InProcs 0) (Sample.app APP_STATE_RUNNING false None) = Some Sample.proc1
  /\ proc_GetPID (Sample.ext Sample.quiet) [] (procRef Sample.proc1) = 101
  /\ store_container (InProcs 0) Sample.proc1 (Sample.app APP_STATE_RUNNING false None)
     = Sample.app APP_STATE_RUNNING false None
  /\ (forall i, InProcs 0 = InAuxProcs i ->
        Forall (fun d => proc_GetPID (Sample.ext Sample.quiet) [] (procRef d) <> 101)
               (procs (Sample.app APP_STATE_RUNNING false None))).
Proof.
  apply (FindProcContainer_found (Sample.ext Sample.quiet) []
           (Sample.app APP_STATE_RUNNING false None) 101 (InProcs 0) Sample.proc1).
  reflexivity.
Defined.

(** ** Kills and the restart handlers *)

Section KillDetaches.

Variable X : Ext.

Lemma wait_frozen_trace (fuel : nat) (cgroup : string) : forall s u s',
  wait_frozen X fuel cgroup s = Done u s' ->
  st_app s' = st_app s /\ exists pre, st_trace s' = st_trace s ++ pre.
Proof.
  induction fuel as [|fuel IH]; intros s u s' H; simpl in H; [discriminate|].
  unfold bind, call in H. simpl in H.
  destruct (cgrp_frz_GetState X (st_trace s) cgroup).
  - injection H as _ <-. split; [reflexivity|]. eexists. reflexivity.
  - apply IH in H. destruct H as [Ha [pre Hp]]. split; [exact Ha|].
    cbn [st_trace] in Hp. rewrite <- app_assoc in Hp. eexists. exact Hp.
  - injection H as _ <-. split; [reflexivity|]. eexists. reflexivity.
Qed.

Lemma told_or_stopped_shift (tr a evs : Trace) (c c' : ProcContainer_t) :
  told_or_stopped X (tr ++ a) evs c c' -> told_or_stopped X tr (a ++ evs) c c'.
Proof.
  intros [[Hc [pre [post [He Hs]]]]|[Hc [pre [post [He Hs]]]]]; [left|right];
    (split; [exact Hc|]); exists (a ++ pre), post;
    rewrite <- app_assoc in Hs; (split; [|exact Hs]);
    rewrite He, <- app_assoc; reflexivity.
Qed.

Lemma told_or_stopped_extend (tr evs b : Trace) (c c' : ProcContainer_t) :
  told_or_stopped X tr evs c c' -> told_or_stopped X tr (evs ++ b) c c'.
Proof.
  intros [[Hc [pre [post [He Hs]]]]|[Hc [pre [post [He Hs]]]]]; [left|right];
    (split; [exact Hc|]); exists pre, (post ++ b); (split; [|exact Hs]);
    rewrite He, <- app_assoc; reflexivity.
Qed.

Lemma tell_stopping_told (l : list ProcContainer_t) : forall s l' s',
  tell_stopping X l s = Done l' s' ->
  st_app s' = st_app s
  /\ exists evs, st_trace s' = st_trace s ++ evs
       /\ Forall2 (told_or_stopped X (st_trace s) evs) l l'.
Proof.
  induction l as [|c rest IH]; intros s l' s' H; simpl in H.
  - injection H as <- <-. split; [reflexivity|]. exists [].
    rewrite app_nil_r. split; [reflexivity|constructor].
  - unfold bind at 1 in H. unfold query at 1 in H.
    unfold bind at 1 in H.
    destruct (decide (proc_GetState X (st_trace s) (procRef c) <> PROC_STATE_STOPPED))
      as [Hrun|Hstop].
    + unfold bind at 1 in H. unfold emit at 1 in H. unfold ret at 1 in H.
      unfold bind at 1 in H.
      destruct (tell_stopping X rest _) as [rest' s2| |] eqn:Er; try discriminate.
      injection H as <- <-.
      destruct (IH _ _ _ Er) as [Ha [evs [Htr Hf]]]. cbn [st_app st_trace] in *.
      split; [exact Ha|].
      exists ([E_proc_Stopping (procRef c)] ++ evs).
      split; [rewrite Htr, <- app_assoc; reflexivity|].
      constructor.
      * right. split; [reflexivity|]. exists [], evs.
        split; [reflexivity|]. rewrite app_nil_r. exact Hrun.
      * eapply Forall2_impl; [exact Hf|]. intros x y Hxy.
        apply told_or_stopped_shift. exact Hxy.
    + unfold ret at 1 in H. unfold bind at 1 in H.
      destruct (tell_stopping X rest _) as [rest' s2| |] eqn:Er; try discriminate.
      injection H as <- <-.
      destruct (IH _ _ _ Er) as [Ha [evs [Htr Hf]]].
      split; [exact Ha|]. exists evs. split; [exact Htr|].
      constructor; [|exact Hf].
      left. split; [reflexivity|]. exists [], evs.
      split; [reflexivity|]. rewrite app_nil_r.
      destruct (decide (proc_GetState X (st_trace s) (procRef c) = PROC_STATE_STOPPED));
        [assumption|contradiction].
Qed.

(** What a kill leaves of the app object and of the history. *)
Lemma KillAppProcs_told (fuel : nat) (killType : KillType_t) (s : St) r s' :
  KillAppProcs X fuel killType s = Done r s' ->
  exists l' evs,
    st_app s' = set_procs l' (st_app s)
    /\ st_trace s' = st_trace s ++ evs
    /\ Forall2 (told_or_stopped X (st_trace s) evs) (procs (st_app s)) l'.
Proof.
  unfold KillAppProcs. unfold bind at 1. unfold get_app.
  unfold bind at 1. unfold call at 1. cbn [st_app st_trace].
  unfold bind at 1.
  match goal with |- context [(if ?d then ?a else ?b) ?s0] =>
    assert (Hw : forall u s1, (if d then a else b) s0 = Done u s1 ->
                   st_app s1 = st_app s /\ exists pre, st_trace s1 = st_trace s ++ pre);
    [ intros u s1; destruct d;
      [ intros Hw; apply wait_frozen_trace in Hw; destruct Hw as [Ha [pre Hp]];
        split; [exact Ha|]; cbn [st_trace] in Hp; rewrite <- app_assoc in Hp;
        eexists; exact Hp
      | intros Hw; injection Hw as _ <-; split; [reflexivity|]; eexists; reflexivity ]
    | destruct ((if d then a else b) s0) as [u s1| |] eqn:Ew; try discriminate ]
  end.
  destruct (Hw _ _ eq_refl) as [Hw1 [pre Hpre]].
  unfold bind at 1.
  destruct (tell_stopping X (procs (st_app s)) s1) as [l' s2| |] eqn:Et; try discriminate.
  destruct (tell_stopping_told _ _ _ _ Et) as [Ha [evs [Htr Hf]]].
  unfold bind at 1. unfold modify_app at 1. cbn [st_app st_trace].
  unfold bind at 1. unfold call at 1. cbn [st_app st_trace].
  intros H.
  rewrite Hpre in Hf, Htr.
  assert (Hf' : forall b, Forall2 (told_or_stopped X (st_trace s) (pre ++ evs ++ b))
                                  (procs (st_app s)) l').
  { intros b. eapply Forall2_impl; [exact Hf|]. intros x y Hxy.
    apply told_or_stopped_shift, told_or_stopped_extend. exact Hxy. }
  assert (Hs' : st_app s' = set_procs l' (st_app s)
                /\ exists post, st_trace s' = st_trace s2 ++ post).
  { rewrite Ha, Hw1 in H.
    destruct (decide _) in H.
    - injection H as _ <-. cbn [st_app st_trace]. split; [reflexivity|].
      eexists. reflexivity.
    - unfold bind, call in H. cbn [st_app st_trace] in H.
      destruct (decide _) in H; injection H as _ <-; cbn [st_app st_trace];
        (split; [reflexivity|]); eexists; rewrite <- app_assoc; reflexivity. }
  destruct Hs' as [Happ [post Hpost]].
  exists l', (pre ++ evs ++ post). split; [exact Happ|]. split; [|apply Hf'].
  rewrite Hpost, Htr, <- !app_assoc. reflexivity.
Qed.

(** X4: a kill, soft or hard, once the freeze has settled, returns and
    leaves the state of the app, its kill timer and the containers of
    [auxProcs] as they are.  A container of [procs] is left as it was
    only if the process module said, when it was asked in this call,
    that the process is stopped; every other container has lost its
    stop handler, after the process module was told of the kill: no
    container whose process was found not stopped keeps a handler that
    would restart the process. *)
Theorem KillAppProcs_detaches_stop_handlers (fuel : nat) (killType : KillType_t) (s : St) :
  freeze_settles X fuel s = true ->
  exists r s' evs,
    KillAppProcs X fuel killType s = Done r s'
    /\ st_trace s' = st_trace s ++ evs
    /\ state (st_app s') = state (st_app s)
    /\ killTimer (st_app s') = killTimer (st_app s)
    /\ auxProcs (st_app s') = auxProcs (st_app s)
    /\ Forall2 (told_or_stopped X (st_trace s) evs)
               (procs (st_app s)) (procs (st_app s')).
Proof.
  intros Hfs.
  destruct (KillAppProcs_returns X fuel killType s Hfs) as [r [sk [_ [Hk _]]]].
  destruct (KillAppProcs_told _ _ _ _ _ Hk) as [l' [evs [Ha [Htr Hf]]]].
  exists r, sk, evs. split; [exact Hk|]. split; [exact Htr|].
  rewrite Ha. simpl. auto.
Qed.

End KillDetaches.

(** A hard kill of an app whose only process waits to be restarted:
    the process module says that the process is running, so the
    container loses its handler. *)
Lemma KillAppProcs_detaches_stop_handlers_witness :
  exists r s',
    KillAppProcs (Sample.ext Sample.quiet) 1 KILL_HARD
      (mkSt (Sample.app_with [set_stopHandler (Some StopHandler_proc_Start) Sample.proc1]
                             APP_STATE_RUNNING false None) []) = Done r s'
    /\ procs (st_app s') = [Sample.proc1].
Proof.
  destruct (KillAppProcs_detaches_stop_handlers (Sample.ext Sample.quiet) 1 KILL_HARD
              (mkSt (Sample.app_with [set_stopHandler (Some StopHandler_proc_Start) Sample.proc1]
                                     APP_STATE_RUNNING false None) []) eq_refl)
    as [r [s' [evs [Hk [_ [_ [_ [_ Hf]]]]]]]].
  exists r, s'. split; [exact Hk|].
  inversion Hf as [|c c' l l' Hc Hl Hl1 Hl2]; subst. inversion Hl; subst.
  f_equal.
  destruct Hc as [[_ [pre [post [_ Hs]]]]|[-> _]]; [discriminate Hs|reflexivity].
Defined.

(** ** SIGCHLD: what is handed to the caller, and restarts *)

Section SigChildMore.

Variable X : Ext.


(** The check of the cgroup that ends [app_SigChildHandler]. *)
Lemma app_SigChildHandler_end (procPid : pid_t) (procExitStatus : Z) (s : St) fa pre :
  sigchild_proc X procPid procExitStatus s = Done fa (mkSt (st_app s) (st_trace s ++ pre)) ->
  exists s', app_SigChildHandler X procPid procExitStatus s = Done fa s'
    /\ procs (st_app s') = procs (st_app s)
    /\ auxProcs (st_app s') = auxProcs (st_app s)
    /\ st_trace s' = st_trace s ++ pre
                     ++ [E_cgrp_IsEmpty (name (st_app s))
                           (cgrp_IsEmpty X (st_trace s ++ pre) (name (st_app s)))].
Proof.
  intros Hp. unfold app_SigChildHandler. unfold bind at 1. rewrite Hp.
  unfold bind at 1. unfold HasRunningProc. unfold bind at 1. unfold get_app.
  unfold bind at 1. unfold call. simpl.
  destruct (cgrp_IsEmpty X (st_trace s ++ pre) (name (st_app s))); simpl.
  - destruct (killTimer (st_app s)) as [tm|] eqn:Et;
      unfold bind, get_app, modify_app, ret; simpl; rewrite Et; simpl;
      eexists; (split; [reflexivity|]); rewrite <- app_assoc; auto.
  - unfold bind, ret. simpl. eexists. split; [reflexivity|].
    rewrite <- app_assoc. auto.
Qed.


(** X6: when a process whose container carries the restart handler
    (which the watchdog attaches) dies and the process module asks for
    nothing, [app_SigChildHandler] starts the process again; it hands
    [FAULT_ACTION_STOP_APP] to the caller when that start fails and
    [FAULT_ACTION_IGNORE] otherwise, and it leaves the handler attached. *)
Theorem app_SigChildHandler_restarts (procPid : pid_t) (procExitStatus : Z) (s : St) loc c :
  FindProcContainer X (st_trace s) (st_app s) procPid = Some (loc, c) ->
  stopHandler c = Some StopHandler_proc_Start ->
  let told := st_trace s
              ++ match externStopHandler c with
                 | Some h => [E_externStopHandler h procExitStatus (externContextPtr c)]
                 | None => []
                 end in
  proc_SigChildHandler X told (procRef c) procExitStatus = FAULT_ACTION_NONE ->
  let asked := told ++ [E_proc_SigChildHandler (procRef c) procExitStatus FAULT_ACTION_NONE] in
  let r := proc_Start X asked (procRef c) in
  exists s' empty,
    app_SigChildHandler X procPid procExitStatus s
    = Done (if decide (r = LE_OK) then FAULT_ACTION_IGNORE else FAULT_ACTION_STOP_APP) s'
    /\ st_trace s' = asked ++ [E_proc_Start (procRef c) r;
                               E_cgrp_IsEmpty (name (st_app s)) empty]
    /\ procs (st_app s') = procs (st_app s)
    /\ auxProcs (st_app s') = auxProcs (st_app s).
Proof.
  intros Hf Hh told Hnone asked r.
  assert (Hp : sigchild_proc X procPid procExitStatus s
               = Done (if decide (r = LE_OK) then FAULT_ACTION_IGNORE else FAULT_ACTION_STOP_APP)
                      (mkSt (st_app s)
                            (st_trace s
                             ++ (match externStopHandler c with
                                 | Some h => [E_externStopHandler h procExitStatus
                                                (externContextPtr c)]
                                 | None => []
                                 end
                                 ++ [E_proc_SigChildHandler (procRef c) procExitStatus
                                       FAULT_ACTION_NONE;
                                     E_proc_Start (procRef c) r])))).
  { unfold sigchild_proc. unfold bind at 1. unfold get_app.
    unfold bind at 1. unfold query. rewrite Hf.
    subst r asked told.
    destruct (externStopHandler c) as [h|].
    - unfold bind at 1. unfold emit at 1. unfold bind at 1. unfold call at 1.
      cbn [st_app st_trace]. rewrite Hnone.
      unfold handle_proc_fault. rewrite Hh. unfold call_stopHandler, bind, call.
      cbn [st_app st_trace].
      case_decide; case_decide; try contradiction; norm_trace; reflexivity.
    - unfold bind at 1. unfold ret at 1. unfold bind at 1. unfold call at 1.
      cbn [st_app st_trace]. rewrite app_nil_r in *. rewrite Hnone.
      unfold handle_proc_fault. rewrite Hh. unfold call_stopHandler, bind, call.
      cbn [st_app st_trace].
      case_decide; case_decide; try contradiction; norm_trace; reflexivity. }
  destruct (app_SigChildHandler_end _ _ _ _ _ Hp) as [s' [Hrun [Hprocs [Haux Htr]]]].
  exists s'. eexists. split; [exact Hrun|].
  split; [|split; assumption].
  rewrite Htr. subst asked told. rewrite <- !app_assoc. reflexivity.
Qed.

End SigChildMore.

(** The process of the sample app, set to restart, exits. *)
Lemma app_SigChildHandler_restarts_witness :
  exists s' empty,
    app_SigChildHandler (Sample.ext Sample.quiet) 101 0
      (mkSt (Sample.app_with [set_stopHandler (Some StopHandler_proc_Start) Sample.proc1]
                             APP_STATE_RUNNING false None) [])
    = Done FAULT_ACTION_IGNORE s'
    /\ st_trace s' = [E_proc_SigChildHandler 1%nat 0 FAULT_ACTION_NONE;
                      E_proc_Start 1%nat LE_OK;
                      E_cgrp_IsEmpty "a" empty]
    /\ procs (st_app s') = [set_stopHandler (Some StopHandler_proc_Start) Sample.proc1]
    /\ auxProcs (st_app s') = [].
Proof.
  apply (app_SigChildHandler_restarts (Sample.ext Sample.quiet) 101 0
           (mkSt (Sample.app_with [set_stopHandler (Some StopHandler_proc_Start) Sample.proc1]
                                  APP_STATE_RUNNING false None) [])
           (InProcs 0) (set_stopHandler (Some StopHandler_proc_Start) Sample.proc1));
    reflexivity.
Defined.

(** ** The watchdog's actions *)

Section WatchdogTable.

Variable X : Ext.

(** X7: for a pid that a container has, [app_WatchdogTimeoutHandler]
    returns [LE_OK] and acts by the action it resolves.  It stops the
    process (tells the process module and hard-kills the pid) exactly
    for [NOT_FOUND], [RESTART] and [STOP]; it attaches the restart
    handler to the container exactly for [NOT_FOUND] and [RESTART]; it
    hands [RESTART_APP], [STOP_APP] and [REBOOT] to the caller as they
    are and reports [HANDLED] for every other action. *)
Theorem app_WatchdogTimeoutHandler_table (procPid : pid_t) (s : St) loc c :
  FindProcContainer X (st_trace s) (st_app s) procPid = Some (loc, c) ->
  let act := resolved_watchdog_action X s c in
  let looked := st_trace s ++ fallback_events X s c in
  let stops := bool_decide (act = WATCHDOG_ACTION_NOT_FOUND \/ act = WATCHDOG_ACTION_RESTART
                            \/ act = WATCHDOG_ACTION_STOP) in
  let restarts := bool_decide (act = WATCHDOG_ACTION_NOT_FOUND
                               \/ act = WATCHDOG_ACTION_RESTART) in
  let passes := bool_decide (act = WATCHDOG_ACTION_RESTART_APP
                             \/ act = WATCHDOG_ACTION_STOP_APP
                             \/ act = WATCHDOG_ACTION_REBOOT) in
  exists s',
    app_WatchdogTimeoutHandler X procPid s
    = Done (LE_OK, Some (if passes then act else WATCHDOG_ACTION_HANDLED)) s'
    /\ st_app s' = (if restarts
                    then store_container loc (set_stopHandler (Some StopHandler_proc_Start) c)
                                         (st_app s)
                    else st_app s)
    /\ st_trace s' = looked ++ (if stops then stop_events X looked (procRef c) else []).
Proof.
  intros Hf. cbv zeta.
  rewrite (app_WatchdogTimeoutHandler_run X procPid s loc c Hf).
  destruct (resolved_watchdog_action X s c);
    repeat match goal with
           | |- context [bool_decide ?P] =>
               let b := eval vm_compute in (bool_decide P) in
               change (bool_decide P) with b
           end;
    cbv iota; eexists; (split; [reflexivity|]); cbn [st_app st_trace];
    rewrite ?app_nil_r; auto.
Qed.

End WatchdogTable.

(** A process whose watchdog action is [stop]: it is killed and not set
    to restart. *)
Lemma app_WatchdogTimeoutHandler_table_witness :
  exists s',
    app_WatchdogTimeoutHandler
      (Sample.ext (Sample.mkWorld Sample.no_config 1 false (fun _ => LE_OK)
                     FAULT_ACTION_NONE WATCHDOG_ACTION_STOP 0))
      101 (mkSt (Sample.app APP_STATE_RUNNING false None) [])
    = Done (LE_OK, Some WATCHDOG_ACTION_HANDLED) s'
    /\ st_app s' = Sample.app APP_STATE_RUNNING false None
    /\ st_trace s' = [E_proc_Stopping 1%nat; E_kill_Hard 101].
Proof.
  apply (app_WatchdogTimeoutHandler_table
           (Sample.ext (Sample.mkWorld Sample.no_config 1 false (fun _ => LE_OK)
                          FAULT_ACTION_NONE WATCHDOG_ACTION_STOP 0))
           101 (mkSt (Sample.app APP_STATE_RUNNING false None) []) (InProcs 0) Sample.proc1).
  reflexivity.
Defined.

(** ** The stop handler of the caller *)

Section ExternStopHandler.

Variable X : Ext.

Lemma FindProcContainerInList_insert (tr : Trace) (pid : pid_t) (c' : ProcContainer_t)
    (l : list ProcContainer_t) :
  forall i j c, FindProcContainerInList X tr l pid i = Some (j, c) ->
    procRef c' = procRef c ->
    FindProcContainerInList X tr (<[(j - i)%nat := c']> l) pid i = Some (j, c').
Proof.
  induction l as [|d rest IH]; intros i j c H Hr; simpl in H; [discriminate|].
  case_decide as Hd.
  - injection H as <- <-. rewrite Nat.sub_diag. simpl.
    rewrite Hr. rewrite decide_True by exact Hd. reflexivity.
  - destruct (FindProcContainerInList_Some X _ _ _ _ _ _ H) as [Hle _].
    replace (j - i)%nat with (S (j - S i)) by lia. simpl.
    rewrite decide_False by exact Hd. apply (IH _ _ c); assumption.
Qed.

Lemma FindProcContainer_store (tr : Trace) (a : App_t) (pid : pid_t) loc c c' :
  FindProcContainer X tr a pid = Some (loc, c) ->
  procRef c' = procRef c ->
  FindProcContainer X tr (store_container loc c' a) pid = Some (loc, c').
Proof.
  unfold FindProcContainer. intros H Hr.
  destruct (FindProcContainerInList X tr (procs a) pid 0) as [[i d]|] eqn:E1.
  - injection H as <- <-. simpl.
    pose proof (FindProcContainerInList_insert tr pid c' _ _ _ _ E1 Hr) as Hi.
    rewrite Nat.sub_0_r in Hi. rewrite Hi. reflexivity.
  - destruct (FindProcContainerInList X tr (auxProcs a) pid 0) as [[i d]|] eqn:E2;
      [|discriminate].
    injection H as <- <-. simpl. rewrite E1.
    pose proof (FindProcContainerInList_insert tr pid c' _ _ _ _ E2 Hr) as Hi.
    rewrite Nat.sub_0_r in Hi. rewrite Hi. reflexivity.
Qed.

(** X8: once a stop handler is registered with
    [app_SetProcStopHandler] for the container of the process with pid
    [procPid], [app_SigChildHandler] for that pid calls the handler with
    the exit status and the registered context, and it does so before
    it tells the process module of the death. *)
Theorem app_SetProcStopHandler_called (procPid : pid_t) (procExitStatus : Z) (s : St)
    loc c (h : nat) (ctx : Z) :
  FindProcContainer X (st_trace s) (st_app s) procPid = Some (loc, c) ->
  exists s1 fa s2 asked post,
    app_SetProcStopHandler loc (Some h) ctx s = Done tt s1
    /\ app_SigChildHandler X procPid procExitStatus s1 = Done fa s2
    /\ st_trace s2 = st_trace s
                     ++ E_externStopHandler h procExitStatus ctx
                     :: E_proc_SigChildHandler (procRef c) procExitStatus asked
                     :: post.
Proof.
  intros Hf.
  destruct (FindProcContainer_Some X _ _ _ _ _ Hf) as [Hat _].
  set (c1 := set_externStopHandler (Some h) ctx c).
  set (s1 := mkSt (store_container loc c1 (st_app s)) (st_trace s)).
  assert (H1 : app_SetProcStopHandler loc (Some h) ctx s = Done tt s1).
  { unfold app_SetProcStopHandler, bind, get_app. rewrite Hat. reflexivity. }
  assert (Hf1 : FindProcContainer X (st_trace s1) (st_app s1) procPid = Some (loc, c1)).
  { apply (FindProcContainer_store _ _ _ _ c); [exact Hf|reflexivity]. }
  destruct (sigchild_proc_total X procPid procExitStatus s1) as [fa [pre [Hp _]]].
  destruct (app_SigChildHandler_end X _ _ _ _ _ Hp) as [s2 [Hrun [_ [_ Htr]]]].
  exists s1, fa, s2. 
  unfold sigchild_proc in Hp. unfold bind at 1 in Hp. unfold get_app in Hp.
  unfold bind at 1 in Hp. unfold query in Hp. rewrite Hf1 in Hp.
  change (externStopHandler c1) with (Some h) in Hp.
  change (externContextPtr c1) with ctx in Hp.
  change (procRef c1) with (procRef c) in Hp.
  unfold bind at 1 in Hp. unfold emit at 1 in Hp.
  unfold bind at 1 in Hp. unfold call at 1 in Hp. cbn [st_app st_trace] in Hp.
  match type of Hp with handle_proc_fault X c1 ?pfa ?sx = _ =>
    destruct (handle_proc_fault_total X c1 pfa sx) as [r' [pre' Hh]];
    rewrite Hh in Hp; injection Hp as _ Hpre; exists pfa
  end.
  cbn [st_app st_trace] in Hpre.
  eexists. split; [exact H1|]. split; [exact Hrun|].
  rewrite Htr. change (st_trace s1) with (st_trace s) in *.
  rewrite app_assoc, <- Hpre. rewrite <- !app_assoc. simpl. reflexivity.
Qed.

End ExternStopHandler.

Lemma app_SetProcStopHandler_called_witness :
  exists s1 fa s2 asked post,
    app_SetProcStopHandler (InProcs 0) (Some 9%nat) 4
      (mkSt (Sample.app APP_STATE_RUNNING false None) []) = Done tt s1
    /\ app_SigChildHandler (Sample.ext Sample.quiet) 101 0 s1 = Done fa s2
    /\ st_trace s2 = [] ++ E_externStopHandler 9 0 4
                        :: E_proc_SigChildHandler 1%nat 0 asked :: post.
Proof.
  apply (app_SetProcStopHandler_called (Sample.ext Sample.quiet) 101 0
           (mkSt (Sample.app APP_STATE_RUNNING false None) []) (InProcs 0) Sample.proc1 9%nat 4).
  reflexivity.
Defined.

(** ** Reasoning about runs that leave the app object alone *)

Section Runs.

Variable starved : Prop.

Lemma runs_ret {A} (Q : option A -> list Event -> Prop) (a : A) (s : St) :
  Q (Some a) [] -> runs starved Q (ret a) s.
Proof.
  intros H. unfold runs, ret. split; [reflexivity|].
  exists []. rewrite app_nil_r. auto.
Qed.

Lemma runs_fatal {A} (Q : option A -> list Event -> Prop) (s : St) :
  Q None [] -> runs starved Q fatal s.
Proof.
  intros H. unfold runs, fatal. split; [reflexivity|].
  exists []. rewrite app_nil_r. auto.
Qed.

Lemma runs_get_app (s : St) :
  runs starved (fun o evs => o = Some (st_app s) /\ evs = []) get_app s.
Proof.
  unfold runs, get_app. split; [reflexivity|]. exists []. rewrite app_nil_r. auto.
Qed.

Lemma runs_call {R} (answer : Trace -> R) (entry : R -> Event) (s : St) :
  runs starved
       (fun o evs => o = Some (answer (st_trace s)) /\ evs = [entry (answer (st_trace s))])
       (call answer entry) s.
Proof. unfold runs, call. simpl. split; [reflexivity|]. eexists. auto. Qed.

Lemma runs_emit (e : Event) (s : St) :
  runs starved (fun o evs => o = Some tt /\ evs = [e]) (emit e) s.
Proof. unfold runs, emit. simpl. split; [reflexivity|]. eexists. auto. Qed.

Lemma runs_query {R} (answer : Trace -> R) (s : St) :
  runs starved (fun o evs => o = Some (answer (st_trace s)) /\ evs = []) (query answer) s.
Proof.
  unfold runs, query. split; [reflexivity|]. exists []. rewrite app_nil_r. auto.
Qed.

Lemma runs_query_bind {R B} (answer : Trace -> R) (k : R -> M B)
    (Q : option B -> list Event -> Prop) (s : St) :
  runs starved Q (k (answer (st_trace s))) s ->
  runs starved Q (let! r := query answer in k r) s.
Proof. unfold runs, bind, query. auto. Qed.

Lemma runs_bind {A B} (Q1 : option A -> list Event -> Prop)
    (Q : option B -> list Event -> Prop) (m : M A) (k : A -> M B) (s : St) :
  runs starved Q1 m s ->
  (forall evs, Q1 None evs -> Q None evs) ->
  (forall a s' evs,
      st_app s' = st_app s -> st_trace s' = st_trace s ++ evs -> Q1 (Some a) evs ->
      runs starved (fun o evs2 => Q o (evs ++ evs2)) (k a) s') ->
  runs starved Q (bind m k) s.
Proof.
  unfold runs, bind. intros Hm Hf Hk.
  destruct (m s) as [a s1|s1|].
  - destruct Hm as [Ha [evs [Ht HQ]]].
    specialize (Hk a s1 evs Ha Ht HQ).
    destruct (k a s1) as [b s2|s2|].
    + destruct Hk as [Ha2 [evs2 [Ht2 HQ2]]].
      split; [congruence|]. exists (evs ++ evs2).
      split; [rewrite Ht2, Ht, app_assoc; reflexivity|exact HQ2].
    + destruct Hk as [Ha2 [evs2 [Ht2 HQ2]]].
      split; [congruence|]. exists (evs ++ evs2).
      split; [rewrite Ht2, Ht, app_assoc; reflexivity|exact HQ2].
    + exact Hk.
  - destruct Hm as [Ha [evs [Ht HQ]]].
    split; [exact Ha|]. exists evs. split; [exact Ht|]. apply Hf. exact HQ.
  - exact Hm.
Qed.

Lemma runs_weaken {A} (Q Q' : option A -> list Event -> Prop) (m : M A) (s : St) :
  runs starved Q m s -> (forall o evs, Q o evs -> Q' o evs) -> runs starved Q' m s.
Proof.
  unfold runs. intros H HQ. destruct (m s) as [a s1|s1|]; [| |exact H];
    destruct H as [Ha [evs [Ht Hq]]]; (split; [exact Ha|]); exists evs; auto.
Qed.

End Runs.

Lemma runs_starved {A} (P P' : Prop) (Q : option A -> list Event -> Prop) (m : M A) (s : St) :
  runs P Q m s -> (P -> P') -> runs P' Q m s.
Proof. unfold runs. intros H HP. destruct (m s); auto. Qed.

(** One step of a run: a primitive whose answer and entry are known. *)
Ltac run_with lem :=
  eapply runs_bind;
  [ apply lem
  | intros ? [? ?]; discriminate
  | let a := fresh "a" in
    let s' := fresh "s" in
    let evs := fresh "evs" in
    let Happ := fresh "Happ" in
    let Htr := fresh "Htr" in
    let Ha := fresh "Ha" in
    let He := fresh "He" in
    intros a s' evs Happ Htr [Ha He]; injection Ha as Ha; subst a evs; cbv beta ].

(** ** Links into the working area *)

Section Links.

Variable X : Ext.

Lemma CreateIntermediateDirs_runs (P : Prop) (pathPtr smackLabelPtr : string) (b : bool)
    (s : St) :
  runs P (fun o evs => Forall (link_event b) evs /\ o <> None)
       (CreateIntermediateDirs X pathPtr smackLabelPtr) s.
Proof.
  unfold CreateIntermediateDirs.
  destruct (decide (fst (le_path_GetDir X pathPtr "/" (LIMIT_MAX_PATH_BYTES X)) <> LE_OK)).
  - apply runs_ret. split; [constructor|discriminate].
  - run_with @runs_call.
    case_decide; apply runs_ret; (split; [repeat constructor|discriminate]).
Qed.

Lemma DoesLinkExist_runs (P : Prop) (srcStat : stat_t) (destPath : string) (s : St) :
  runs P (fun o evs =>
          Forall (link_event (sandboxed (st_app s))) evs /\ o <> None
          /\ (o = Some true ->
              exists destStat, evs = [E_stat destPath (Some destStat)]
                               /\ st_ino destStat = st_ino srcStat))
       (DoesLinkExist X srcStat destPath) s.
Proof.
  unfold DoesLinkExist.
  run_with runs_get_app.
  run_with @runs_call.
  destruct (stat X (st_trace s0) destPath) as [destStat|].
  - case_decide as Hino.
    + apply runs_ret. split; [repeat constructor|]. split; [discriminate|].
      intros _. exists destStat. auto.
    + destruct (sandboxed (st_app s)) eqn:Esb; simpl negb; cbv iota.
      * eapply (runs_bind _ (fun o evs => o = Some tt /\ evs = []));
          [apply runs_ret; auto | intros ? [? ?]; discriminate |].
        intros [] s2 evs _ _ [_ ->]. apply runs_ret. simpl.
        split; [repeat constructor|]. split; discriminate.
      * eapply (runs_bind _ (fun o evs => o = Some tt /\ exists u, evs = [E_unlink destPath u])).
        { unfold runs, bind, call, ret. simpl. split; [reflexivity|].
          eexists. split; [reflexivity|]. split; [reflexivity|]. eexists; reflexivity. }
        { intros ? [? ?]; discriminate. }
        intros [] s2 evs _ _ [_ [u ->]]. apply runs_ret. simpl.
        split; [|split; discriminate]. repeat constructor.
  - apply runs_ret. split; [repeat constructor|]. split; discriminate.
Qed.

Lemma open_retry_runs (b : bool) (path : string) (fuel : nat) : forall s,
  b = true ->
  runs (b = true) (fun o evs => Forall (link_event b) evs /\ o <> None)
       (open_retry X fuel path) s.
Proof.
  induction fuel as [|fuel IH]; intros s Hb; simpl; [exact Hb|].
  run_with @runs_call.
  case_decide.
  - eapply runs_weaken; [apply (IH s0 Hb)|].
    intros o evs [Hf Ho]. split; [|exact Ho].
    constructor; [exact Hb|exact Hf].
  - apply runs_ret. split; [repeat constructor; exact Hb|discriminate].
Qed.

(** What [CreateFileLink] does, in one statement. *)
Lemma CreateFileLink_runs (fuel : nat) (appDirLabelPtr srcPtr destPtr : string) (s : St) :
  runs (sandboxed (st_app s) = true) (fun o evs =>
          Forall (link_event (sandboxed (st_app s))) evs
          /\ (o = Some LE_OK -> link_in_place false srcPtr evs)
          /\ o <> None
          /\ (o = Some LE_OK \/ o = Some LE_FAULT))
       (CreateFileLink X fuel appDirLabelPtr srcPtr destPtr) s.
Proof.
  unfold CreateFileLink.
  run_with runs_get_app.
  run_with @runs_call.
  destruct (stat X (st_trace s0) srcPtr) as [srcStat|].
  2: { apply runs_ret. split; [repeat constructor|]. split; [discriminate|].
       split; [discriminate|auto]. }
  destruct (st_isdir srcStat) eqn:Edir.
  { apply runs_ret. split; [repeat constructor|]. split; [discriminate|].
    split; [discriminate|auto]. }
  apply runs_query_bind. cbv beta zeta.
  set (destPath := snd (GetAbsDestPath X _ destPtr srcPtr _ _)).
  case_decide.
  { apply runs_ret. split; [repeat constructor|]. split; [discriminate|].
    split; [discriminate|auto]. }
  eapply runs_bind;
    [apply (CreateIntermediateDirs_runs _ destPath appDirLabelPtr (sandboxed (st_app s)))
    | intros ? [_ Hc]; congruence |].
  intros r1 s2 evs1 Happ2 Htr2 [Hf1 _]. cbv beta.
  case_decide.
  { apply runs_ret. rewrite !app_nil_r. split; [constructor; [exact I|exact Hf1]|].
    split; [discriminate|]. split; [discriminate|auto]. }
  eapply runs_bind; [apply DoesLinkExist_runs | intros ? [_ [Hc _]]; congruence |].
  intros ex s3 evs2 Happ3 Htr3 [Hf2 [_ Hex]]. cbv beta.
  replace (st_app s2) with (st_app s) in Hf2 by congruence.
  destruct ex.
  { apply runs_ret. rewrite !app_nil_r.
    split; [constructor; [exact I|]; apply Forall_app; split; assumption|].
    split; [|split; [discriminate|auto]].
    intros _. destruct (Hex eq_refl) as [destStat [-> Hino]].
    exists srcStat, evs1, (E_stat destPath (Some destStat)). auto. }
  destruct (sandboxed (st_app s)) eqn:Esb.
  - eapply runs_bind; [apply (open_retry_runs true destPath fuel s3 eq_refl)
                      | intros ? [_ Hc]; congruence |].
    intros fd s4 evs3 Happ4 Htr4 [Hf3 _]. cbv beta.
    case_decide.
    { apply runs_ret. rewrite !app_nil_r.
      split; [constructor; [exact I|]; rewrite !Forall_app; auto|].
      split; [discriminate|]. split; [discriminate|auto]. }
    run_with runs_emit.
    run_with @runs_call.
    case_decide as Hm.
    + apply runs_ret. rewrite !app_nil_r.
      split; [constructor; [exact I|]; rewrite !Forall_app; repeat split; auto;
              repeat constructor|].
      split; [discriminate|]. split; [discriminate|auto].
    + apply runs_ret. rewrite !app_nil_r.
      split; [constructor; [exact I|]; rewrite !Forall_app; repeat split; auto;
              repeat constructor|].
      split; [|split; [discriminate|auto]].
      intros _. eexists srcStat, (evs1 ++ evs2 ++ evs3 ++ [E_fd_Close fd]), _.
      split; [simpl; rewrite <- !app_assoc; reflexivity|].
      split; [exact Edir|]. split; [reflexivity|]. split; [reflexivity|].
      destruct (decide (mount X (st_trace s5) srcPtr destPath "" MS_BIND "" = 0)) as [E0|E0];
        [exact E0|contradiction].
  - run_with @runs_call.
    case_decide as Hm.
    + apply runs_ret. rewrite !app_nil_r.
      split; [constructor; [exact I|]; rewrite !Forall_app; repeat split; auto;
              repeat constructor|].
      split; [discriminate|]. split; [discriminate|auto].
    + apply runs_ret. rewrite !app_nil_r.
      split; [constructor; [exact I|]; rewrite !Forall_app; repeat split; auto;
              repeat constructor|].
      split; [|split; [discriminate|auto]].
      intros _. eexists srcStat, (evs1 ++ evs2), _.
      split; [simpl; rewrite <- !app_assoc; reflexivity|].
      split; [exact Edir|]. split; [reflexivity|].
      destruct (decide (symlink X (st_trace s3) srcPtr destPath = 0)) as [E0|E0];
        [exact E0|contradiction].
Qed.

End Links.

Section LinkProperties.

Variable X : Ext.

Lemma CreateFileLink_events (fuel : nat) (appDirLabelPtr srcPtr destPtr : string) (s : St) :
  runs (sandboxed (st_app s) = true)
       (fun _ evs => Forall (link_event (sandboxed (st_app s))) evs)
       (CreateFileLink X fuel appDirLabelPtr srcPtr destPtr) s.
Proof.
  eapply runs_weaken; [apply CreateFileLink_runs|]. intros o evs [H _]. exact H.
Qed.

(** X9: [CreateFileLink] leaves the app object as it is, and the only
    calls it makes besides looking at files and making the directories
    on the way are, for a sandboxed app, to create the file to mount on
    and to bind mount, and for an app that is not sandboxed, to remove a
    stale link and to make a symbolic link.  It never makes a symbolic
    link or removes anything for a sandboxed app, and it never mounts
    for an app that is not sandboxed; for such an app the call comes to
    an end whatever the fuel. *)
Theorem CreateFileLink_footprint (fuel : nat) (appDirLabelPtr srcPtr destPtr : string)
    (s : St) :
  runs (sandboxed (st_app s) = true)
       (fun _ evs => Forall (link_event (sandboxed (st_app s))) evs)
       (CreateFileLink X fuel appDirLabelPtr srcPtr destPtr) s.
Proof. apply CreateFileLink_events. Qed.



Lemma CreateTmpFs_runs (appDirLabelPtr : string) (s : St) :
  runs False
       (fun o evs =>
          o <> None
          /\ (o = Some LE_OK -> tmpfs_mounted appDirLabelPtr evs)
          /\ (forall pre src tgt ty fl data r post,
                evs = pre ++ E_mount src tgt ty fl data r :: post ->
                exists pre', pre = pre' ++ [E_fs_TryLazyUmount tgt]))
       (CreateTmpFs X appDirLabelPtr) s.
Proof.
  assert (Hnomount : forall l : list Event,
            (forall e, In e l -> match e with E_mount _ _ _ _ _ _ => False | _ => True end) ->
            forall pre src tgt ty fl data r post,
              l = pre ++ E_mount src tgt ty fl data r :: post ->
              exists pre', pre = pre' ++ [E_fs_TryLazyUmount tgt]).
  { intros l Hl pre src tgt ty fl data r post ->.
    exfalso. apply (Hl (E_mount src tgt ty fl data r)).
    apply in_app_iff. right. left. reflexivity. }
  unfold CreateTmpFs.
  run_with runs_get_app.
  case_decide.
  { apply runs_ret. split; [discriminate|]. split; [discriminate|].
    apply Hnomount. intros e []. }
  run_with @runs_call.
  case_decide.
  { apply runs_ret. split; [discriminate|]. split; [discriminate|].
    apply Hnomount. simpl. intros e [<-|[]]. exact I. }
  case_decide.
  { apply runs_ret. split; [discriminate|]. split; [discriminate|].
    apply Hnomount. simpl. intros e [<-|[]]. exact I. }
  run_with runs_emit.
  run_with @runs_call.
  assert (Hm : forall (tail : list Event),
            (forall e, In e tail -> match e with E_mount _ _ _ _ _ _ => False | _ => True end) ->
            forall mk tmp opt m pre src tgt ty fl data r post,
              [E_dir_MakeSmack tmp S_IRWXO appDirLabelPtr mk] ++ [E_fs_TryLazyUmount tmp]
              ++ [E_mount "tmpfs" tmp "tmpfs" MS_NOSUID opt m] ++ tail
              = pre ++ E_mount src tgt ty fl data r :: post ->
              exists pre', pre = pre' ++ [E_fs_TryLazyUmount tgt]).
  { intros tail Htail mk tmp opt m pre src tgt ty fl data r post Heq.
    destruct pre as [|e1 [|e2 [|e3 pre]]]; simpl in Heq; try discriminate.
    - simplify_eq. eexists [_]. reflexivity.
    - exfalso. simplify_eq.
      apply (Htail (E_mount src tgt ty fl data r)).
      apply in_app_iff. right. left. reflexivity. }
  case_decide.
  { apply runs_ret. split; [discriminate|]. split; [discriminate|].
    rewrite app_nil_r. apply (Hm []). intros e []. }
  eapply runs_weaken; [apply runs_call|].
  intros o evs [-> ->]. split; [discriminate|]. split.
  - intros Hok. injection Hok as Hok.
    eexists _, _, _, _. split; [simpl; rewrite Hok; reflexivity|].
    split; [assumption|].
    match goal with Hx : ?m <> -1 |- _ <> -1 => exact Hx end.
  - apply (Hm [_]). simpl. intros e [<-|[]]. exact I.
Qed.

Lemma CreateTmpFs_runs_app (appDirLabelPtr : string) (s : St) :
  runs False (fun _ _ => True) (CreateTmpFs X appDirLabelPtr) s.
Proof. eapply runs_weaken; [apply CreateTmpFs_runs|]. auto. Qed.

(** X12: [CreateTmpFs] leaves the app object as it is and always
    returns.  It returns [LE_OK] only after it has, in this order, made
    the directory, lazily unmounted what was mounted there, mounted a
    tmpfs without set-uid, and given it the label; and it never mounts
    without having unmounted just before. *)
Theorem CreateTmpFs_mounts (appDirLabelPtr : string) (s : St) :
  runs False
       (fun o evs =>
          o <> None
          /\ (o = Some LE_OK -> tmpfs_mounted appDirLabelPtr evs)
          /\ (forall pre src tgt ty fl data r post,
                evs = pre ++ E_mount src tgt ty fl data r :: post ->
                exists pre', pre = pre' ++ [E_fs_TryLazyUmount tgt]))
       (CreateTmpFs X appDirLabelPtr) s.
Proof. apply CreateTmpFs_runs. Qed.

End LinkProperties.

(** ** Starting: what [LE_OK] stands for *)

Section StartOk.

Variable X : Ext.

Lemma create_links_runs (fuel : nat) (appDirLabelPtr : string) (links : list (string * string)) :
  forall s, runs True (fun _ evs => Forall (link_event (sandboxed (st_app s))) evs)
                 (create_links X fuel appDirLabelPtr links) s.
Proof.
  induction links as [|[src dest] rest IH]; intros s; simpl.
  - apply runs_ret. constructor.
  - eapply runs_bind.
    + eapply runs_starved; [apply (CreateFileLink_events X)|auto].
    + auto.
    + intros r s' evs Happ Htr Hf. cbv beta in *.
      case_decide.
      * apply runs_ret. rewrite app_nil_r. exact Hf.
      * eapply runs_weaken; [apply IH|]. intros o evs2 Hf2. cbv beta in *.
        rewrite Happ in Hf2. apply Forall_app. split; assumption.
Qed.

Lemma start_sandbox_runs (fuel : nat) (s : St) :
  runs True (fun _ _ => True) (start_sandbox X fuel) s.
Proof.
  unfold start_sandbox.
  run_with runs_get_app.
  eapply runs_bind.
  - eapply runs_starved; [apply (CreateTmpFs_runs_app X)|intros []].
  - auto.
  - intros r s' evs _ _ _. cbv beta.
    case_decide; [apply runs_ret; exact I|].
    eapply runs_bind.
    + apply create_links_runs.
    + auto.
    + intros r2 s2 evs2 _ _ _. cbv beta. case_decide; apply runs_ret; exact I.
Qed.

Lemma start_procs_ok (fuel : nat) (l : list ProcContainer_t) : forall s0 s',
  start_procs X fuel l s0 = Done LE_OK s' ->
  s' = mkSt (st_app s0) (st_trace s0 ++ start_events l).
Proof.
  induction l as [|c rest IH]; intros s0 s' H; simpl in H.
  - injection H as <-. rewrite app_nil_r. destruct s0; reflexivity.
  - unfold bind at 1 in H. unfold call at 1 in H. cbn [st_app st_trace] in H.
    destruct (decide (proc_Start X (st_trace s0) (procRef c) <> LE_OK)) as [Hne|Hok].
    + unfold bind in H. destruct (app_Stop X fuel _); discriminate.
    + assert (Hr : proc_Start X (st_trace s0) (procRef c) = LE_OK).
      { destruct (decide (proc_Start X (st_trace s0) (procRef c) = LE_OK)); [assumption|].
        contradiction. }
      apply IH in H. rewrite H. simpl. rewrite Hr, <- app_assoc. reflexivity.
Qed.

(** X13: when [app_Start] returns [LE_OK], the app was STOPPED and is
    now RUNNING, nothing else in the app object has changed, the last
    entries of the history are the starts of all the configured
    processes, each successful, in the order of the list, and a second
    [app_Start] is refused with [LE_FAULT] without anything being
    done. *)
Theorem app_Start_ok (fuel : nat) (s s' : St) :
  app_Start X fuel s = Done LE_OK s' ->
  state (st_app s) = APP_STATE_STOPPED
  /\ st_app s' = set_state APP_STATE_RUNNING (st_app s)
  /\ (exists pre, st_trace s' = st_trace s ++ pre ++ start_events (procs (st_app s)))
  /\ app_Start X fuel s' = Done LE_FAULT s'.
Proof.
  intros H.
  assert (Hst : state (st_app s) = APP_STATE_STOPPED).
  { destruct (state (st_app s)) eqn:E; [reflexivity|].
    rewrite (app_Start_running X fuel s E) in H. discriminate. }
  split; [exact Hst|].
  unfold app_Start in H. unfold bind at 1 in H. unfold get_app in H.
  rewrite Hst in H. rewrite decide_False in H by discriminate.
  unfold bind at 1 in H. unfold modify_app at 1 in H.
  unfold bind at 1 in H.
  set (s1 := mkSt (set_state APP_STATE_RUNNING (st_app s)) (st_trace s)) in *.
  assert (Hsb : runs True (fun (_ : option le_result_t) _ => True)
                     (if sandboxed (st_app s) then start_sandbox X fuel else ret LE_OK) s1).
  { destruct (sandboxed (st_app s)); [apply start_sandbox_runs|apply runs_ret; exact I]. }
  unfold runs in Hsb.
  destruct ((if sandboxed (st_app s) then start_sandbox X fuel else ret LE_OK) s1)
    as [r s2| |]; try discriminate.
  destruct Hsb as [Happ [pre [Htr _]]].
  destruct (decide (r <> LE_OK)); [discriminate|].
  apply start_procs_ok in H. subst s'. cbn [st_app st_trace].
  split; [rewrite Happ; reflexivity|].
  split; [exists pre; rewrite Htr, <- app_assoc; reflexivity|].
  apply app_Start_running. cbn [st_app]. rewrite Happ. reflexivity.
Qed.

Lemma link_event_sandbox (e : Event) : link_event true e -> sandbox_event e.
Proof. destruct e; simpl; auto. Qed.

Lemma CreateTmpFs_events (appDirLabelPtr : string) (s : St) :
  runs False (fun _ evs => Forall sandbox_event evs) (CreateTmpFs X appDirLabelPtr) s.
Proof.
  unfold CreateTmpFs.
  run_with runs_get_app.
  case_decide; [apply runs_ret; constructor|].
  run_with @runs_call.
  case_decide; [apply runs_ret; repeat constructor|].
  case_decide; [apply runs_ret; repeat constructor|].
  run_with runs_emit.
  run_with @runs_call.
  case_decide; [apply runs_ret; repeat constructor|].
  eapply runs_weaken; [apply runs_call|].
  intros o evs [-> ->]. repeat constructor.
Qed.

Lemma start_sandbox_events (fuel : nat) (s : St) :
  sandboxed (st_app s) = true ->
  runs True (fun _ evs => Forall sandbox_event evs) (start_sandbox X fuel) s.
Proof.
  intros Hsb. unfold start_sandbox.
  run_with runs_get_app.
  eapply runs_bind.
  - eapply runs_starved; [apply CreateTmpFs_events|intros []].
  - auto.
  - intros r s' evs Hsame _ Hev. cbv beta.
    assert (Hsb' : sandboxed (st_app s') = true) by congruence.
    case_decide; [apply runs_ret; simpl; rewrite ?app_nil_r; exact Hev|].
    eapply runs_bind.
    + apply create_links_runs.
    + intros evs2 Hev2. cbv beta in *. simpl. apply Forall_app. split; [exact Hev|].
      eapply Forall_impl; [exact Hev2|]. intros e He.
      apply link_event_sandbox. rewrite Hsb' in He. exact He.
    + intros r2 s2 evs2 _ _ Hev2. cbv beta in *.
      assert (Hall : Forall sandbox_event (evs ++ evs2)).
      { apply Forall_app. split; [exact Hev|].
        eapply Forall_impl; [exact Hev2|]. intros e He.
        apply link_event_sandbox. rewrite Hsb' in He. exact He. }
      case_decide; apply runs_ret; simpl; rewrite ?app_nil_r; exact Hall.
Qed.

(** C3: where [app_Start] departs from the claim.  For a sandboxed app
    in state STOPPED whose sandbox set-up fails, that is, [CreateTmpFs]
    or [CreateDefaultTmpLinks] does not give [LE_OK], [app_Start]
    returns [LE_FAULT] and leaves the app marked RUNNING.  No process
    has been started and [app_Stop] has not been called: the entries
    added to the history are those of the set-up alone.  The next
    [app_Start] is refused, because the app is already running. *)
Theorem app_Start_sandbox_failure (fuel : nat) (s s0 : St) (r : le_result_t) :
  state (st_app s) = APP_STATE_STOPPED ->
  sandboxed (st_app s) = true ->
  start_sandbox X fuel (mkSt (set_state APP_STATE_RUNNING (st_app s)) (st_trace s))
  = Done r s0 ->
  r <> LE_OK ->
  app_Start X fuel s = Done LE_FAULT s0
  /\ st_app s0 = set_state APP_STATE_RUNNING (st_app s)
  /\ (exists evs, st_trace s0 = st_trace s ++ evs /\ Forall sandbox_event evs)
  /\ app_Start X fuel s0 = Done LE_FAULT s0.
Proof.
  intros Hst Hsb Hrun Hr.
  set (s1 := mkSt (set_state APP_STATE_RUNNING (st_app s)) (st_trace s)) in *.
  assert (Hev : runs True (fun (_ : option le_result_t) evs => Forall sandbox_event evs)
                     (start_sandbox X fuel) s1).
  { apply start_sandbox_events. subst s1. cbn [st_app]. destruct (st_app s); exact Hsb. }
  unfold runs in Hev. rewrite Hrun in Hev. destruct Hev as [Happ [evs [Htr Hevs]]].
  split.
  - unfold app_Start. unfold bind at 1. unfold get_app.
    rewrite Hst. rewrite decide_False by discriminate.
    unfold bind at 1. unfold modify_app at 1.
    unfold bind at 1. rewrite Hsb. fold s1. rewrite Hrun.
    rewrite decide_True by exact Hr. reflexivity.
  - split; [exact Happ|]. split; [exists evs; exact (conj Htr Hevs)|].
    apply app_Start_running. rewrite Happ. subst s1. cbn [st_app].
    destruct (st_app s); reflexivity.
Qed.

End StartOk.

(** A sandboxed app on a system where the tmpfs cannot be mounted. *)
Lemma app_Start_sandbox_failure_witness :
  exists s0,
    app_Start (Sample.ext (Sample.mkWorld Sample.no_config 0 true (fun _ => LE_OK)
                             FAULT_ACTION_NONE WATCHDOG_ACTION_NOT_FOUND (-1)))
              1 (mkSt (Sample.app APP_STATE_STOPPED true None) [])
    = Done LE_FAULT s0
    /\ state (st_app s0) = APP_STATE_RUNNING
    /\ Forall sandbox_event (st_trace s0)
    /\ app_Start (Sample.ext (Sample.mkWorld Sample.no_config 0 true (fun _ => LE_OK)
                                FAULT_ACTION_NONE WATCHDOG_ACTION_NOT_FOUND (-1)))
                 1 s0
       = Done LE_FAULT s0.
Proof.
  assert (Hrun : exists r s0,
            start_sandbox (Sample.ext (Sample.mkWorld Sample.no_config 0 true (fun _ => LE_OK)
                                         FAULT_ACTION_NONE WATCHDOG_ACTION_NOT_FOUND (-1)))
                          1 (mkSt (set_state APP_STATE_RUNNING
                                     (st_app (mkSt (Sample.app APP_STATE_STOPPED true None) [])))
                                  [])
            = Done r s0 /\ r <> LE_OK).
  { vm_compute. eexists _, _. split; [reflexivity|discriminate]. }
  destruct Hrun as [r [s0 [Hrun Hr]]].
  destruct (app_Start_sandbox_failure
              (Sample.ext (Sample.mkWorld Sample.no_config 0 true (fun _ => LE_OK)
                             FAULT_ACTION_NONE WATCHDOG_ACTION_NOT_FOUND (-1)))
              1 (mkSt (Sample.app APP_STATE_STOPPED true None) []) s0 r
              eq_refl eq_refl Hrun Hr) as [H1 [H2 [[evs [H3 H4]] H5]]].
  exists s0. split; [exact H1|]. split; [rewrite H2; reflexivity|].
  split; [rewrite H3; exact H4|exact H5].
Defined.

(** The sample app, not sandboxed, with its one process. *)
Lemma app_Start_ok_witness :
  state (Sample.app APP_STATE_STOPPED false None) = APP_STATE_STOPPED
  /\ st_app (mkSt (Sample.app APP_STATE_RUNNING false None) [E_proc_Start 1%nat LE_OK])
     = set_state APP_STATE_RUNNING (Sample.app APP_STATE_STOPPED false None)
  /\ (exists pre, [E_proc_Start 1%nat LE_OK]
                  = [] ++ pre ++ start_events (procs (Sample.app APP_STATE_STOPPED false None)))
  /\ app_Start (Sample.ext Sample.quiet) 1
       (mkSt (Sample.app APP_STATE_RUNNING false None) [E_proc_Start 1%nat LE_OK])
     = Done LE_FAULT (mkSt (Sample.app APP_STATE_RUNNING false None) [E_proc_Start 1%nat LE_OK]).
Proof.
  apply (app_Start_ok (Sample.ext Sample.quiet) 1
           (mkSt (Sample.app APP_STATE_STOPPED false None) [])
           (mkSt (Sample.app APP_STATE_RUNNING false None) [E_proc_Start 1%nat LE_OK])).
  reflexivity.
Defined.

(** ** The links that the config asks for *)

Section RequiredLinks.

Variable X : Ext.

Lemma into_buffer_ok (y : string) (n : nat) :
  fst (Cfg.into_buffer y n) = LE_OK -> snd (Cfg.into_buffer y n) = y /\ (String.length y < n)%nat.
Proof.
  unfold Cfg.into_buffer. destruct (String.length y <? n)%nat eqn:E; [|discriminate].
  intros _. split; [reflexivity|]. apply Nat.ltb_lt. exact E.
Qed.

Lemma GetString_into_buffer (it : Cfg.Iter) (path : string) (n : nat) (default : string) :
  exists y, Cfg.GetString it path n default = Cfg.into_buffer y n.
Proof.
  unfold Cfg.GetString. destruct (Cfg.target it path) as [[nm [| |] ch]|]; eexists; reflexivity.
Qed.

Lemma get_0_None (y : string) : String.get 0 y = None -> y = "".
Proof. destruct y; [reflexivity|discriminate]. Qed.

Lemma le_cfg_GetString_runs (P : Prop) (it : Cfg.Iter) (path : string) (n : nat)
    (default : string) (s : St) :
  runs P (fun o evs => o <> None /\ Forall is_cfg_event evs
                       /\ (Cfg.live it = true ->
                           evs = [] /\ o = Some (Cfg.GetString it path n default)))
       (le_cfg_GetString X it path n default) s.
Proof.
  unfold le_cfg_GetString. destruct (Cfg.live it).
  - apply runs_ret. split; [discriminate|]. split; [constructor|]. auto.
  - unfold on_cancelled. eapply runs_weaken; [apply runs_call|].
    intros o evs [-> ->]. split; [discriminate|]. split; [repeat constructor|].
    discriminate.
Qed.

Lemma GetPath_runs (P : Prop) (key : string) (it : Cfg.Iter) (n : nat) (s : St)
    (f : M (le_result_t * string)) :
  f = (let! r := le_cfg_GetString X it key n "" in
       if decide (fst r <> LE_OK) then ret (LE_FAULT, snd r)
       else if decide (String.get 0 (snd r) = None) then ret (LE_FAULT, snd r)
       else ret (LE_OK, snd r)) ->
  runs P (fun o evs =>
            o <> None /\ Forall is_cfg_event evs
            /\ (forall path, o = Some (LE_OK, path) ->
                  path <> ""
                  /\ (Cfg.live it = true -> evs = [] /\ (String.length path < n)%nat)))
       f s.
Proof.
  intros ->.
  eapply runs_bind; [apply le_cfg_GetString_runs | intros ? [Hc _]; congruence |].
  intros r s' evs _ _ [_ [Hev Hlive]]. cbv beta.
  case_decide as Hr.
  { apply runs_ret. rewrite app_nil_r. split; [discriminate|]. split; [exact Hev|].
    intros path Hp. discriminate. }
  case_decide as Hg.
  { apply runs_ret. rewrite app_nil_r. split; [discriminate|]. split; [exact Hev|].
    intros path Hp. discriminate. }
  apply runs_ret. rewrite app_nil_r. split; [discriminate|]. split; [exact Hev|].
  intros path Hp. injection Hp as <-.
  split; [intros Hc; apply Hg; rewrite Hc; reflexivity|].
  intros Hl. destruct (Hlive Hl) as [-> Ho]. split; [reflexivity|].
  injection Ho as ->.
  destruct (GetString_into_buffer it key n "") as [y Hy]. rewrite Hy in *.
  assert (Hok : fst (Cfg.into_buffer y n) = LE_OK).
  { destruct (decide (fst (Cfg.into_buffer y n) = LE_OK)); [assumption|contradiction]. }
  destruct (into_buffer_ok y n Hok) as [-> Hlen]. exact Hlen.
Qed.

(** X14: a destination path that [GetDestPath] accepts is not empty,
    so [GetAbsDestPath] does not look in front of the string: what it
    computes does not depend on the byte there.  Read on a live
    transaction, the path fits the buffer with its terminator and
    nothing is entered in the history.  The function always returns. *)
Theorem GetDestPath_accepted (cfgIter : Cfg.Iter) (bufSize : nat) (s : St) :
  runs False
       (fun o evs =>
          o <> None
          /\ forall destPtr, o = Some (LE_OK, destPtr) ->
               destPtr <> ""
               /\ (forall b b' srcPtr appRunDir n,
                      GetAbsDestPath X b destPtr srcPtr appRunDir n
                      = GetAbsDestPath X b' destPtr srcPtr appRunDir n)
               /\ (Cfg.live cfgIter = true ->
                   evs = [] /\ (String.length destPtr < bufSize)%nat))
       (GetDestPath X cfgIter bufSize) s.
Proof.
  eapply runs_weaken; [apply (GetPath_runs False "dest"); reflexivity|].
  intros o evs [Ho [_ Hp]]. split; [exact Ho|].
  intros destPtr Hd. destruct (Hp destPtr Hd) as [Hne Hl].
  split; [exact Hne|]. split; [|exact Hl].
  intros b b' srcPtr appRunDir n. apply GetAbsDestPath_in_bounds. exact Hne.
Qed.

Lemma le_cfg_GoToNextSibling_runs (P : Prop) (it : Cfg.Iter) (s : St) :
  runs P (fun o evs => o <> None /\ Forall is_cfg_event evs) (le_cfg_GoToNextSibling X it) s.
Proof.
  unfold le_cfg_GoToNextSibling. destruct (Cfg.live it).
  - apply runs_ret. split; [discriminate|constructor].
  - unfold on_cancelled.
    eapply runs_bind; [apply runs_call | intros ? [? ?]; discriminate |].
    intros a s' evs _ _ [_ ->]. apply runs_ret. simpl.
    split; [discriminate|repeat constructor].
Qed.

(** X15: the loop of [CreateRequiredFileLinks] over the files that the
    config requires never ends in a fatal error.  It leaves the app
    object as it is, and all it does besides reading the config is
    what [CreateFileLink] does for an app of this kind. *)
Theorem required_links_loop_safe (appDirLabelPtr : string) (fuel : nat) :
  forall (cfgIter : Cfg.Iter) (s : St),
    runs True
         (fun o evs =>
            o <> None
            /\ Forall (fun e => is_cfg_event e \/ link_event (sandboxed (st_app s)) e) evs)
         (required_links_loop X fuel appDirLabelPtr cfgIter) s.
Proof.
  induction fuel as [|fuel IH]; intros cfgIter s; simpl; [exact I|].
  assert (Hcfg : forall evs : list Event, Forall is_cfg_event evs ->
            Forall (fun e => is_cfg_event e \/ link_event (sandboxed (st_app s)) e) evs).
  { intros evs Hev. eapply Forall_impl; [exact Hev|]. auto. }
  eapply runs_bind; [apply (GetPath_runs True "src"); reflexivity
                    | intros ? [Hc _]; congruence |].
  intros src s1 evs1 Happ1 _ [_ [Hev1 Hsrc]]. cbv beta.
  case_decide as Hs.
  { apply runs_ret. rewrite app_nil_r. split; [discriminate|auto]. }
  eapply runs_bind; [apply (GetPath_runs True "dest"); reflexivity
                    | intros ? [Hc _]; congruence |].
  intros dest s2 evs2 Happ2 _ [_ [Hev2 Hdest]]. cbv beta.
  case_decide as Hd.
  { apply runs_ret. rewrite app_nil_r. split; [discriminate|].
    apply Forall_app. auto. }
  eapply runs_bind.
  { eapply runs_starved; [apply (CreateFileLink_runs X)|auto]. }
  { intros evs [_ [_ [Hc _]]]. exfalso. exact (Hc eq_refl). }
  intros r s3 evs3 Happ3 _ [Hev3 _]. cbv beta.
  replace (st_app s2) with (st_app s) in Hev3 by congruence.
  assert (Hall : Forall (fun e => is_cfg_event e \/ link_event (sandboxed (st_app s)) e)
                        (evs1 ++ evs2 ++ evs3)).
  { rewrite !Forall_app. repeat split; auto. eapply Forall_impl; [exact Hev3|]. auto. }
  case_decide as Hr.
  { apply runs_ret. rewrite app_nil_r. split; [discriminate|exact Hall]. }
  eapply runs_bind; [apply le_cfg_GoToNextSibling_runs | intros ? [Hc _]; congruence |].
  intros nx s4 evs4 Happ4 _ [_ Hev4]. cbv beta.
  case_decide.
  - eapply runs_weaken; [apply IH|]. intros o evs [Ho Hev]. split; [exact Ho|].
    replace (st_app s4) with (st_app s) in Hev by congruence.
    rewrite !Forall_app in *. destruct Hall as [? [? ?]]. repeat split; auto.
  - apply runs_ret. rewrite app_nil_r. split; [discriminate|].
    rewrite !Forall_app in *. destruct Hall as [? [? ?]]. repeat split; auto.
Qed.

End RequiredLinks.

(** ** Device permissions and the default SMACK rules *)

Section Smack.

Variable X : Ext.

(** X16: [GetCfgPermissions] ends in a fatal error exactly when the
    buffer has fewer than [MAX_DEVICE_PERM_STR_BYTES] bytes.  Otherwise
    it returns one of the strings ["r"], ["w"], ["rw"] and the empty
    string (for a device that is neither readable nor writable), which
    fits the buffer with its terminator; on a live transaction the
    string spells the two flags of the node and nothing is entered in
    the history. *)
Theorem GetCfgPermissions_string (cfgIter : Cfg.Iter) (bufSize : nat) (s : St) :
  ((bufSize < MAX_DEVICE_PERM_STR_BYTES)%nat -> GetCfgPermissions X cfgIter bufSize s = Fatal s)
  /\ ((MAX_DEVICE_PERM_STR_BYTES <= bufSize)%nat ->
      exists p s',
        GetCfgPermissions X cfgIter bufSize s = Done p s'
        /\ st_app s' = st_app s
        /\ (p = "" \/ p = "r" \/ p = "w" \/ p = "rw")
        /\ (String.length p < bufSize)%nat
        /\ (Cfg.live cfgIter = true ->
            s' = s
            /\ p = (if Cfg.GetBool cfgIter "isReadable" false then "r" else "")
                   +:+ (if Cfg.GetBool cfgIter "isWritable" false then "w" else ""))).
Proof.
  unfold GetCfgPermissions, MAX_DEVICE_PERM_STR_BYTES. split; intros Hb.
  - rewrite decide_True by exact Hb. reflexivity.
  - rewrite decide_False by lia.
    unfold le_cfg_GetBool. destruct (Cfg.live cfgIter).
    + unfold bind, ret.
      destruct (Cfg.GetBool cfgIter "isReadable" false),
               (Cfg.GetBool cfgIter "isWritable" false);
        eexists _, _; (split; [reflexivity|]); (split; [reflexivity|]);
        (split; [auto|]); (split; [simpl; lia|]); auto.
    + unfold on_cancelled, bind, call, ret. cbn [st_app st_trace fst snd].
      repeat match goal with
             | |- context [if ?b then _ else _] => destruct b
             end;
        eexists _, _; (split; [reflexivity|]); (split; [reflexivity|]);
        (split; [auto|]); (split; [simpl; lia|]); discriminate.
Qed.

Lemma folder_rules_run (appNamePtr appLabelPtr : string) (perms : list string) : forall s,
  folder_rules X appNamePtr appLabelPtr perms s
  = Done tt (mkSt (st_app s)
               (st_trace s
                ++ map (fun perm => E_smack_SetRule appLabelPtr perm
                                      (smack_GetAppAccessLabel X appNamePtr
                                         (mode_of_permission perm))) perms)).
Proof.
  induction perms as [|p rest IH]; intros s; simpl.
  - unfold ret. rewrite app_nil_r. destruct s; reflexivity.
  - unfold bind, emit. rewrite IH. simpl. rewrite <- app_assoc. reflexivity.
Qed.

(** X17: [SetDefaultSmackRules] sets ten rules.  For every combination
    of read, write and execute that is not empty there is the rule that
    gives the app this access to the label of its directories with
    exactly these user mode bits; the other three rules let the
    framework write to the app, the app read from and write to the
    framework, and the app write to the syslog. *)
Theorem SetDefaultSmackRules_rules (appNamePtr appLabelPtr : string) (s : St) :
  exists rules,
    SetDefaultSmackRules X appNamePtr appLabelPtr s
    = Done tt (mkSt (st_app s) (st_trace s ++ rules))
    /\ length rules = 10%nat
    /\ (forall r w x : bool, r || w || x = true ->
          In (folder_rule X appNamePtr appLabelPtr r w x) rules)
    /\ In (E_smack_SetRule "framework" "w" appLabelPtr) rules
    /\ In (E_smack_SetRule appLabelPtr "rw" "framework") rules
    /\ In (E_smack_SetRule appLabelPtr "w" "syslog") rules.
Proof.
  unfold SetDefaultSmackRules. unfold bind at 1. rewrite folder_rules_run.
  unfold bind, emit. cbn [st_app st_trace]. rewrite <- !app_assoc.
  eexists. split; [reflexivity|].
  split; [reflexivity|].
  split.
  - intros [|] [|] [|] H; try discriminate H; unfold folder_rule; simpl; tauto.
  - simpl. tauto.
Qed.

End Smack.

Lemma GetCfgPermissions_string_witness :
  GetCfgPermissions (Sample.ext Sample.quiet)
    (Cfg.mkIter true (Some (Cfg.Node "ttyS0" Cfg.VEmpty
                              [Cfg.Node "isReadable" (Cfg.VBool true) [];
                               Cfg.Node "isWritable" (Cfg.VBool true) []])) [])
    2 (mkSt (Sample.app APP_STATE_STOPPED true None) [])
  = Fatal (mkSt (Sample.app APP_STATE_STOPPED true None) [])
  /\ exists p s',
      GetCfgPermissions (Sample.ext Sample.quiet)
        (Cfg.mkIter true (Some (Cfg.Node "ttyS0" Cfg.VEmpty
                                  [Cfg.Node "isReadable" (Cfg.VBool true) [];
                                   Cfg.Node "isWritable" (Cfg.VBool true) []])) [])
        3 (mkSt (Sample.app APP_STATE_STOPPED true None) [])
      = Done p s' /\ p = "rw".
Proof.
  split.
  - apply (GetCfgPermissions_string (Sample.ext Sample.quiet) _ 2
             (mkSt (Sample.app APP_STATE_STOPPED true None) [])).
    unfold MAX_DEVICE_PERM_STR_BYTES. lia.
  - destruct (GetCfgPermissions_string (Sample.ext Sample.quiet)
                (Cfg.mkIter true (Some (Cfg.Node "ttyS0" Cfg.VEmpty
                                          [Cfg.Node "isReadable" (Cfg.VBool true) [];
                                           Cfg.Node "isWritable" (Cfg.VBool true) []])) [])
                3 (mkSt (Sample.app APP_STATE_STOPPED true None) [])) as [_ H].
    destruct H as [p [s' [Hrun [_ [_ [_ Hlive]]]]]]; [unfold MAX_DEVICE_PERM_STR_BYTES; lia|].
    exists p, s'. split; [exact Hrun|]. apply Hlive. reflexivity.
Defined.

(** ** Deleting the app *)

Section Delete.

Variable X : Ext.

Lemma DeleteProcContainersList_run (l : list ProcContainer_t) : forall s,
  DeleteProcContainersList l s = Done tt (mkSt (st_app s) (st_trace s ++ deleted l)).
Proof.
  induction l as [|c rest IH]; intros s; simpl.
  - unfold ret. unfold deleted. simpl. rewrite app_nil_r. destruct s; reflexivity.
  - unfold bind, emit. cbn [st_app st_trace]. rewrite IH. cbn [st_app st_trace].
    unfold deleted. simpl. rewrite <- !app_assoc. reflexivity.
Qed.

(** X18: [app_Delete] always returns.  It revokes the SMACK rules of
    the app and removes its resource limits, then deletes the process
    and releases the container of every entry of [procs] and then of
    [auxProcs], each once and in the order of the lists, deletes the
    kill timer if there is one, and releases the app object last. *)
Theorem app_Delete_releases (s : St) :
  app_Delete X s
  = Done tt (mkSt (st_app s)
               (st_trace s
                ++ [E_smack_RevokeSubject (smack_GetAppLabel X (name (st_app s)));
                    E_resLim_CleanupApp (name (st_app s))]
                ++ deleted (procs (st_app s))
                ++ deleted (auxProcs (st_app s))
                ++ match killTimer (st_app s) with
                   | Some tm => [E_le_timer_Delete (Timer.name tm)]
                   | None => []
                   end
                ++ [E_le_mem_Release "App"])).
Proof.
  unfold app_Delete. unfold bind at 1. unfold get_app.
  unfold bind at 1. unfold CleanupAppSmackSettings, bind, get_app, emit.
  cbn [st_app st_trace]. rewrite !DeleteProcContainersList_run. cbn [st_app st_trace].
  destruct (killTimer (st_app s)); unfold ret; cbn [st_app st_trace];
    rewrite <- !app_assoc; reflexivity.
Qed.

End Delete.

(** ** Supplementary groups: from the config to the caller *)

Section Groups.

Variable X : Ext.

Local Abbreviation MAX := (LIMIT_MAX_NUM_SUPPLEMENTARY_GROUPS X).

Lemma GetNodeName_here (it : Cfg.Iter) (c : Cfg.Tree) (n : nat) :
  Cfg.here it = Some c -> Cfg.GetNodeName it "" n = Cfg.into_buffer (Cfg.node_name c) n.
Proof. intros H. unfold Cfg.GetNodeName, Cfg.target. simpl. rewrite H. reflexivity. Qed.

(** The loop of [CreateSupplementaryGroups], left through [break]: the
    groups created and the slots written. *)
Lemma groups_loop_gids (k : nat) : forall i it c s j it' s',
  Cfg.live it = true -> Cfg.here it = Some c ->
  (i + k = MAX)%nat -> (1 <= k)%nat ->
  (MAX <= length (supplementGids (st_app s)))%nat ->
  groups_loop X k i it s = Done (Some (j, it')) s' ->
  exists evs,
    st_trace s' = st_trace s ++ evs
    /\ map fst (created_groups evs) = map Cfg.node_name (c :: Cfg.following it)
    /\ j = (i + length (Cfg.following it))%nat
    /\ supplementGids (st_app s')
       = take i (supplementGids (st_app s)) ++ map snd (created_groups evs)
         ++ drop (S j) (supplementGids (st_app s))
    /\ numSupplementGids (st_app s') = numSupplementGids (st_app s).
Proof.
  induction k as [|k IH]; intros i it c s j it' s' Hlive Hhere Hik Hk Hlen Hrun; [lia|].
  simpl groups_loop in Hrun.
  unfold le_cfg_GetNodeName, le_cfg_GoToNextSibling in Hrun. rewrite Hlive in Hrun.
  rewrite (GetNodeName_here it c _ Hhere) in Hrun.
  unfold bind at 1 in Hrun. unfold ret at 1 in Hrun.
  destruct (decide (fst (Cfg.into_buffer (Cfg.node_name c) (LIMIT_MAX_USER_NAME_BYTES X))
                    <> LE_OK)) as [Hn|Hn].
  { rewrite (bind_Done _ _ _ _ _ (le_cfg_CancelTxn_run _ _)) in Hrun. discriminate. }
  assert (Hok : fst (Cfg.into_buffer (Cfg.node_name c) (LIMIT_MAX_USER_NAME_BYTES X)) = LE_OK).
  { destruct (decide (fst (Cfg.into_buffer (Cfg.node_name c) (LIMIT_MAX_USER_NAME_BYTES X))
                      = LE_OK)); [assumption|contradiction]. }
  destruct (into_buffer_ok _ _ Hok) as [Hname _]. rewrite Hname in Hrun.
  unfold bind at 1 in Hrun. unfold call at 1 in Hrun.
  cbn [st_app st_trace fst snd] in Hrun.
  set (g := user_CreateGroup X (st_trace s) (Cfg.node_name c)) in *.
  destruct (decide (fst g = LE_FAULT)).
  { rewrite (bind_Done _ _ _ _ _ (le_cfg_CancelTxn_run _ _)) in Hrun. discriminate. }
  unfold bind at 1 in Hrun. unfold modify_app at 1 in Hrun.
  cbn [st_app st_trace] in Hrun.
  unfold bind at 1 in Hrun. unfold ret at 1 in Hrun.
  unfold Cfg.GoToNextSibling in Hrun.
  assert (Hi : (i < length (supplementGids (st_app s)))%nat) by lia.
  destruct (Cfg.following it) as [|c' rest] eqn:Ef.
  - cbn [fst snd] in Hrun. rewrite decide_True in Hrun by discriminate.
    injection Hrun as <- <- <-. cbn [st_app st_trace].
    exists [E_user_CreateGroup (Cfg.node_name c) (fst g) (snd g)].
    split; [reflexivity|]. split; [reflexivity|]. split; [simpl; lia|].
    split; [|reflexivity]. simpl.
    rewrite ?Nat.add_0_r. apply insert_take_drop. exact Hi.
  - cbn [fst snd] in Hrun.
    rewrite decide_False in Hrun by (intros Hc; apply Hc; reflexivity).
    destruct (decide (MAX - 1 <= i)%nat) as [Hfull|Hroom].
    { rewrite (bind_Done _ _ _ _ _ (le_cfg_CancelTxn_run _ _)) in Hrun. discriminate. }
    apply (IH (S i) _ c') in Hrun;
      [|exact Hlive|reflexivity|lia|lia|simpl; rewrite length_insert; lia].
    destruct Hrun as [evs [Htr [Hnames [Hj [Hg Hcount]]]]].
    cbn [st_app st_trace Cfg.following] in *.
    exists (E_user_CreateGroup (Cfg.node_name c) (fst g) (snd g) :: evs).
    split; [rewrite Htr, <- app_assoc; reflexivity|].
    split; [simpl; rewrite Hnames; reflexivity|].
    split; [simpl; lia|].
    split; [|exact Hcount].
    rewrite Hg. simpl.
    rewrite (take_S_r _ _ (snd g)) by (apply list_lookup_insert_eq; exact Hi).
    rewrite take_insert_ge by lia.
    rewrite drop_insert_lt by lia.
    rewrite <- app_assoc. reflexivity.
Qed.

Lemma created_groups_app (l1 l2 : list Event) :
  created_groups (l1 ++ l2) = created_groups l1 ++ created_groups l2.
Proof. unfold created_groups. apply omap_app. Qed.

(** X19: the supplementary groups make the round trip from the config
    to the caller.  When [CreateSupplementaryGroups] returns [LE_OK] for
    an app with groups in its config, it has asked [user_CreateGroup]
    for one group per child of the groups node, by the name of the
    child and in the order of the config; the count is the number of
    children; and [app_GetSupplementaryGroups], given room for the
    count, returns [LE_OK] with exactly the gids that were handed out,
    in that order, at the front of the buffer. *)
Theorem CreateSupplementaryGroups_gids (s s' : St) :
  (1 <= MAX)%nat ->
  (MAX <= length (supplementGids (st_app s)))%nat ->
  config_children X CFG_NODE_GROUPS s <> [] ->
  CreateSupplementaryGroups X s = Done LE_OK s' ->
  exists evs,
    st_trace s' = st_trace s ++ evs
    /\ map fst (created_groups evs)
       = map Cfg.node_name (config_children X CFG_NODE_GROUPS s)
    /\ numSupplementGids (st_app s') = length (config_children X CFG_NODE_GROUPS s)
    /\ forall (groupsPtr : list gid_t) (numGroups : nat),
         (numSupplementGids (st_app s') <= numGroups)%nat ->
         (numGroups <= length groupsPtr)%nat ->
         app_GetSupplementaryGroups (st_app s') groupsPtr numGroups
         = Some (LE_OK,
                 map snd (created_groups evs)
                 ++ drop (numSupplementGids (st_app s')) groupsPtr,
                 numSupplementGids (st_app s')).
Proof.
  intros Hmax Hlen Hsome Hrun.
  unfold CreateSupplementaryGroups in Hrun.
  unfold bind at 1 in Hrun. unfold get_app in Hrun.
  rewrite (bind_Done _ _ _ _ _ (le_cfg_CreateReadTxn_run X _ s)) in Hrun.
  rewrite (bind_Done _ _ _ _ _ (le_cfg_GoToNode_live X (Cfg.CreateReadTxn _) _ _ eq_refl))
    in Hrun.
  fold (node_iter X CFG_NODE_GROUPS s) in Hrun.
  rewrite (bind_Done _ _ _ _ _ (le_cfg_GoToFirstChild_live X _ _ (node_iter_live X _ s)))
    in Hrun.
  rewrite GoToFirstChild_node in Hrun.
  destruct (config_children X CFG_NODE_GROUPS s) as [|c rest] eqn:Ec; [contradiction|].
  cbn [fst snd] in Hrun.
  rewrite decide_False in Hrun by (intros Hc; apply Hc; reflexivity).
  unfold bind at 1 in Hrun.
  destruct (groups_loop X MAX 0 (Cfg.mkIter true (Some c) rest) _) as [res s1| |] eqn:El;
    try discriminate.
  destruct res as [[j it']|]; [|discriminate].
  apply (groups_loop_gids MAX 0 _ c) in El; [|reflexivity|reflexivity|lia|lia|exact Hlen].
  destruct El as [evs [Htr [Hnames [Hj [Hg Hcount]]]]].
  cbn [st_app st_trace Cfg.following] in *.
  unfold bind at 1 in Hrun. unfold modify_app at 1 in Hrun.
  rewrite (bind_Done _ _ _ _ _ (le_cfg_CancelTxn_run _ _)) in Hrun.
  injection Hrun as <-. cbn [st_app st_trace].
  exists ((E_le_cfg_CreateReadTxn (cfgPathRoot (st_app s)) :: evs)
          ++ [E_le_cfg_CancelTxn (Cfg.live it')]).
  split; [rewrite Htr, <- !app_assoc; reflexivity|].
  rewrite created_groups_app. simpl. rewrite app_nil_r.
  change (created_groups (E_le_cfg_CreateReadTxn (cfgPathRoot (st_app s)) :: evs))
    with (created_groups evs).
  split; [exact Hnames|].
  split; [simpl; lia|].
  intros groupsPtr numGroups Hn Hb.
  assert (Hgs : length (map snd (created_groups evs)) = (j + 1)%nat).
  { rewrite length_map, <- (length_map fst), Hnames, length_map. simpl. lia. }
  unfold app_GetSupplementaryGroups. cbn [numSupplementGids supplementGids set_numSupplementGids].
  rewrite decide_True by exact Hn.
  rewrite copy_gids_spec.
  - simpl. rewrite Hg. simpl.
    rewrite drop_0, take_app_length' by (symmetry; exact Hgs). reflexivity.
  - simpl. rewrite Hg, !length_app, Hgs. lia.
  - simpl. lia.
Qed.

End Groups.

(** An app with the groups [audio] and [video] in its config. *)
Lemma CreateSupplementaryGroups_gids_witness :
  exists evs,
    [E_le_cfg_CreateReadTxn "/apps/a";
     E_user_CreateGroup "audio" LE_OK 2001;
     E_user_CreateGroup "video" LE_OK 2002;
     E_le_cfg_CancelTxn true] = [] ++ evs
    /\ map fst (created_groups evs) = ["audio"; "video"]
    /\ app_GetSupplementaryGroups
         (set_numSupplementGids 2
            (set_supplementGids [2001; 2002; 0] (Sample.app APP_STATE_STOPPED true None)))
         [7; 7; 7] 3
       = Some (LE_OK, map snd (created_groups evs) ++ [7], 2%nat).
Proof.
  destruct (CreateSupplementaryGroups_gids
              (Sample.ext (Sample.mkWorld
                             (Cfg.Node "a" Cfg.VEmpty
                                [Cfg.Node "groups" Cfg.VEmpty
                                   [Cfg.Node "audio" Cfg.VEmpty [];
                                    Cfg.Node "video" Cfg.VEmpty []]])
                             0 true (fun _ => LE_OK) FAULT_ACTION_NONE
                             WATCHDOG_ACTION_NOT_FOUND 0))
              (mkSt (Sample.app APP_STATE_STOPPED true None) [])
              (mkSt (set_numSupplementGids 2
                       (set_supplementGids [2001; 2002; 0]
                          (Sample.app APP_STATE_STOPPED true None)))
                    [E_le_cfg_CreateReadTxn "/apps/a";
                     E_user_CreateGroup "audio" LE_OK 2001;
                     E_user_CreateGroup "video" LE_OK 2002;
                     E_le_cfg_CancelTxn true]))
    as [evs [Htr [Hnames [_ Hget]]]].
  - simpl. lia.
  - simpl. lia.
  - discriminate.
  - reflexivity.
  - exists evs. split; [exact Htr|]. split; [exact Hnames|].
    apply (Hget [7; 7; 7] 3%nat); simpl; lia.
Defined.

(** ** The thread runtime *)

Section ThreadRuntime.

Import Thread ThreadApi.

Variable os : OS.
Variable user_code : nat -> Z -> T unit.

Ltac tsimpl :=
  repeat progress
    (unfold tbind, tret, get, put, modify, ask, log, LE_FATAL, dangle, starve, deref,
       store_obj, store_more, lookup_or_die, GetCurrentThreadPtr, thread_InitThread,
       set_data, set_more, set_DestructorPool, set_ThreadLocalData, le_ref_Lookup in *;
     simpl in *).

Lemma refs_ok_insert_obj d p obj obj' :
  refs_ok d -> ThreadPool d !! p = Some obj -> safeRef obj' = safeRef obj ->
  refs_ok (mkThreadSt (ThreadRefMap d) (ThreadObjList d) (ThreadObjListChangeCount d)
                      (<[p := obj']> (ThreadPool d))).
Proof.
  intros Hok Hp Hs r q Hr. simpl in *.
  destruct (Hok r q Hr) as [o [Ho Hso]].
  destruct (decide (p = q)) as [<-|Hne].
  - exists obj'. rewrite lookup_insert_eq. split; [reflexivity|]. congruence.
  - exists o. rewrite lookup_insert_ne by exact Hne. auto.
Qed.

Lemma listed_ok_insert_obj d p obj' l c :
  listed_ok d -> l = ThreadObjList d ->
  listed_ok (mkThreadSt (ThreadRefMap d) l c (<[p := obj']> (ThreadPool d))).
Proof.
  intros Hok -> q Hq. simpl in *.
  destruct (decide (p = q)) as [<-|Hne].
  - rewrite lookup_insert_eq. eauto.
  - rewrite lookup_insert_ne by exact Hne. auto.
Qed.

Lemma wf_insert_obj d p obj obj' :
  wf d -> ThreadPool d !! p = Some obj -> safeRef obj' = safeRef obj ->
  wf (mkThreadSt (ThreadRefMap d) (ThreadObjList d) (ThreadObjListChangeCount d)
                 (<[p := obj']> (ThreadPool d))).
Proof.
  intros [H1 H2] Hp Hs. split.
  - eapply refs_ok_insert_obj; eauto.
  - eapply listed_ok_insert_obj; eauto.
Qed.

(** Dropping a thread: its reference, its place in the list, its block. *)
Lemma wf_drop d p obj c :
  wf d -> ThreadPool d !! p = Some obj ->
  wf (DeleteThread p (mkThreadSt (le_ref_DeleteRef (ThreadRefMap d) (safeRef obj))
                                 (le_dls_Remove (ThreadObjList d) p) c (ThreadPool d))).
Proof.
  intros [Hr Hl] Hp. split.
  - intros r q Hq. unfold DeleteThread, le_ref_DeleteRef in *. simpl in *.
    rewrite lookup_delete in Hq. case_decide as Hd; [discriminate|].
    destruct (Hr r q Hq) as [o [Ho Hso]].
    exists o. split; [|exact Hso].
    rewrite lookup_delete_ne; [exact Ho|].
    intros ->. rewrite Hp in Ho. simplify_eq; try congruence.
  - intros q Hq. unfold DeleteThread, le_dls_Remove in *. simpl in *.
    apply list_elem_of_filter in Hq as [Hne Hin].
    rewrite lookup_delete_ne by auto. auto.
Qed.

(** X20: once a thread has left the state NEW, the functions that
    prepare it end the process: [le_thread_SetJoinable],
    [le_thread_SetStackSize], [le_thread_AddChildDestructor] and
    [le_thread_Start] abort with nothing changed, and so does
    [le_thread_SetPriority] for every priority it knows; for a
    priority out of range it returns [LE_OUT_OF_RANGE] instead. *)
Theorem setters_abort_after_start (t : le_thread_Ref_t) (p : ptr) (obj : thread_Obj_t)
    (s : Sys) (prio size : Z) (f : option nat) (c : Z) :
  le_ref_Lookup (ThreadRefMap (data s)) t = Some p ->
  ThreadPool (data s) !! p = Some obj ->
  state obj <> THREAD_STATE_NEW ->
  le_thread_SetJoinable os t s = Aborts s
  /\ le_thread_SetStackSize os t size s = Aborts s
  /\ le_thread_AddChildDestructor os t f c s = Aborts s
  /\ le_thread_Start os t s = Aborts s
  /\ le_thread_SetPriority os t prio s =
       (if decide (prio = LE_THREAD_PRIORITY_NORMAL os \/ prio = LE_THREAD_PRIORITY_IDLE os
                   \/ (LE_THREAD_PRIORITY_RT_LOWEST os <= prio
                       /\ prio <= LE_THREAD_PRIORITY_RT_HIGHEST os))
        then Aborts s else Returns LE_OUT_OF_RANGE s).
Proof.
  intros Hl Hp Hst.
  unfold le_thread_SetJoinable, le_thread_SetStackSize, le_thread_AddChildDestructor,
    le_thread_Start, le_thread_SetPriority, SetSchedPolicyAttr.
  tsimpl. rewrite Hl. simpl. rewrite Hp. simpl.
  rewrite !decide_True by exact Hst.
  repeat split.
  repeat case_decide; simpl; try rewrite Hp; simpl;
    try rewrite decide_True by exact Hst; try reflexivity; tauto.
Qed.

(** *** Creating a thread *)

Lemma CreateThread_cases (name : string) (f : option nat) (c : Z) (s : Sys) :
  let p := le_mem_ForceAlloc os (history s) (ThreadPool (data s)) in
  (pthread_attr os (history s) attr_init p <> 0
   /\ exists s', CreateThread os name f c s = Aborts s' /\ data s' = data s)
  \/ (pthread_attr os (history s) attr_init p = 0
      /\ exists r s',
           CreateThread os name f c s = Returns p s'
           /\ (exists h, r = le_ref_CreateRef os h (ThreadRefMap (data s)) p)
           /\ data s' =
                mkThreadSt (<[r := p]> (ThreadRefMap (data s)))
                           (ThreadObjList (data s) ++ [p])
                           ((ThreadObjListChangeCount (data s) + 1) mod 2 ^ size_bits os)
                           (<[p := mkThreadObj (snd (le_utf8_Copy os name (MAX_THREAD_NAME_SIZE os)))
                                               false THREAD_STATE_NEW 0 r]>
                              (ThreadPool (data s)))
           /\ more s' = <[p := mkMore (LE_THREAD_PRIORITY_NORMAL os) f c []]> (more s)
           /\ DestructorPool s' = DestructorPool s
           /\ ThreadLocalData s' = ThreadLocalData s
           /\ initialised s' = initialised s
           /\ exists evs, history s' = history s ++ evs).
Proof.
  intros p. unfold CreateThread. tsimpl. fold p.
  destruct (decide (pthread_attr os (history s) attr_init p <> 0)) as [Hne|He].
  - left. split; [exact Hne|]. eexists. split; reflexivity.
  - right. split; [lia|]. eexists _, _. split; [reflexivity|]. simpl.
    split; [eexists; reflexivity|].
    repeat split. eexists. rewrite <- !app_assoc. reflexivity.
Qed.

Lemma wf_create d r p obj c :
  wf d -> ThreadRefMap d !! r = None -> ThreadPool d !! p = None -> safeRef obj = r ->
  wf (mkThreadSt (<[r := p]> (ThreadRefMap d)) (ThreadObjList d ++ [p]) c
                 (<[p := obj]> (ThreadPool d))).
Proof.
  intros [Hr Hl] Hfr Hfp Hs. split.
  - intros r' q Hq. simpl in *. rewrite lookup_insert in Hq.
    case_decide as Hd.
    + simplify_eq. exists obj. rewrite lookup_insert_eq. auto.
    + destruct (Hr r' q Hq) as [o [Ho Hso]]. exists o. split; [|exact Hso].
      rewrite lookup_insert_ne; [exact Ho|]. intros ->. congruence.
  - intros q Hq. simpl in *. apply elem_of_app in Hq as [Hq|Hq].
    + destruct (decide (p = q)) as [<-|Hne].
      * rewrite lookup_insert_eq. eauto.
      * rewrite lookup_insert_ne by exact Hne. auto.
    + apply list_elem_of_singleton in Hq as ->. rewrite lookup_insert_eq. eauto.
Qed.

Lemma CreateThread_keeps (name : string) (f : option nat) (c : Z) :
  fresh_blocks os -> fresh_refs os -> keeps wf (CreateThread os name f c).
Proof.
  intros Hfb Hfr s p s' Hwf Hrun.
  destruct (CreateThread_cases name f c s) as [[_ [s1 [Hr _]]]|[_ [r [s1 [Hr [[h Hh] [Hd _]]]]]]].
  - congruence.
  - rewrite Hr in Hrun. simplify_eq. rewrite Hd.
    apply wf_create; auto.
Qed.

(** X21: [le_thread_Create], with allocators that hand out what is not in
    use and [pthread_attr_init] succeeding, returns a reference that was
    not valid before and now stands for a new thread object: detached,
    in state NEW, with the (copied) name, the main function and its
    argument, at normal priority, without destructors and last in the
    thread object list.  Every other reference and object is as it
    was. *)
Theorem le_thread_Create_registers (name : string) (f : option nat) (c : Z) (s : Sys) :
  fresh_blocks os -> fresh_refs os ->
  pthread_attr os (history s) attr_init
               (le_mem_ForceAlloc os (history s) (ThreadPool (data s))) = 0 ->
  exists t p s',
    le_thread_Create os name f c s = Returns t s'
    /\ ThreadRefMap (data s) !! t = None
    /\ ThreadPool (data s) !! p = None
    /\ le_ref_Lookup (ThreadRefMap (data s')) t = Some p
    /\ ThreadPool (data s') !! p =
         Some (mkThreadObj (snd (le_utf8_Copy os name (MAX_THREAD_NAME_SIZE os)))
                           false THREAD_STATE_NEW 0 t)
    /\ more s' p = mkMore (LE_THREAD_PRIORITY_NORMAL os) f c []
    /\ ThreadObjList (data s') = ThreadObjList (data s) ++ [p]
    /\ (forall r, r <> t -> ThreadRefMap (data s') !! r = ThreadRefMap (data s) !! r)
    /\ (forall q, q <> p ->
          ThreadPool (data s') !! q = ThreadPool (data s) !! q /\ more s' q = more s q).
Proof.
  intros Hfb Hfr H0.
  destruct (CreateThread_cases name f c s)
    as [[Hne _]|[_ [r [s1 [Hr [[h Hh] [Hd [Hm _]]]]]]]]; [contradiction|].
  set (p := le_mem_ForceAlloc os (history s) (ThreadPool (data s))) in *.
  exists r, p, s1. unfold le_thread_Create. tsimpl. rewrite Hr. simpl.
  rewrite Hd, Hm. simpl. rewrite !lookup_insert_eq, fn_lookup_insert. simpl.
  repeat split.
  - subst r. apply Hfr.
  - apply Hfb.
  - intros r0 Hne. rewrite lookup_insert_ne; auto.
  - rewrite lookup_insert_ne; auto.
  - rewrite fn_lookup_insert_ne; auto.
Qed.

(** *** The clean-up of a thread *)

Lemma call_destructors_nil (fuel : nat) (p : ptr) (s : Sys) (obj : thread_Obj_t) :
  ThreadPool (data s) !! p = Some obj -> destructorList (more s p) = [] ->
  call_destructors user_code (S fuel) p s = Returns tt s.
Proof. intros Hp Hl. simpl. tsimpl. rewrite Hp. simpl. rewrite Hl. reflexivity. Qed.

Lemma call_destructors_cons (fuel : nat) (p : ptr) (s : Sys) (obj : thread_Obj_t)
    (d : le_thread_DestructorRef_t) (rest : list le_thread_DestructorRef_t)
    (o : Destructor.t) :
  ThreadPool (data s) !! p = Some obj -> destructorList (more s p) = d :: rest ->
  DestructorPool s !! d = Some o ->
  call_destructors user_code (S fuel) p s =
    (((match Destructor.destructor o with
       | Some f => log (C_user f (Destructor.context o)) ;;*
                   user_code f (Destructor.context o)
       | None => tret tt
       end) ;;*
      modify (fun s => set_DestructorPool (delete d (DestructorPool s)) s) ;;*
      call_destructors user_code fuel p)
       (set_more (<[p := set_destructorList rest (more s p)]> (more s)) s)).
Proof.
  intros Hp Hl Hd. simpl. unfold tbind at 1. unfold deref. rewrite Hp. simpl. rewrite Hl.
  unfold tbind at 1. unfold store_more, modify. unfold tbind at 1. unfold get.
  unfold set_more at 2. simpl. rewrite Hd. reflexivity.
Qed.

Lemma call_destructors_keeps (P : ThreadSt -> Prop) :
  (forall f c, keeps P (user_code f c)) ->
  forall fuel p, keeps P (call_destructors user_code fuel p).
Proof.
  intros Hu fuel p. induction fuel as [|fuel IH]; intros s a s' HP Hrun.
  - discriminate.
  - destruct (ThreadPool (data s) !! p) as [obj|] eqn:Hp;
      [|simpl in Hrun; tsimpl; rewrite Hp in Hrun; discriminate].
    destruct (destructorList (more s p)) as [|d rest] eqn:Hl.
    { rewrite (call_destructors_nil _ _ _ _ Hp Hl) in Hrun. simplify_eq. exact HP. }
    destruct (DestructorPool s !! d) as [o|] eqn:Hd;
      [|simpl in Hrun; tsimpl; rewrite Hp in Hrun; simpl in Hrun; rewrite Hl in Hrun;
        rewrite Hd in Hrun; discriminate].
    rewrite (call_destructors_cons _ _ _ _ _ _ _ Hp Hl Hd) in Hrun.
    unfold tbind at 1 in Hrun.
    destruct (Destructor.destructor o) as [f|].
    + unfold tbind at 1 in Hrun. unfold log at 1 in Hrun.
      match type of Hrun with
      | match user_code ?f ?c ?s1 with _ => _ end = _ =>
          destruct (user_code f c s1) as [[] s2| | |] eqn:Hu1; try discriminate;
          assert (HP2 : P (data s2)) by (eapply (Hu f c s1); [exact HP|exact Hu1])
      end.
      unfold tbind at 1, modify in Hrun.
      eapply IH; [|exact Hrun]. exact HP2.
    + unfold tret at 1 in Hrun. unfold tbind at 1, modify in Hrun.
      eapply IH; [|exact Hrun]. exact HP.
Qed.

Lemma calls_of_delete (pool : gmap le_thread_DestructorRef_t Destructor.t)
    (d : le_thread_DestructorRef_t) (l : list le_thread_DestructorRef_t) :
  d ∉ l -> calls_of (delete d pool) l = calls_of pool l.
Proof.
  induction l as [|x l IH]; intros Hn; [reflexivity|].
  apply not_elem_of_cons in Hn as [Hne Hn].
  unfold calls_of in *. simpl. rewrite lookup_delete_ne by exact Hne.
  rewrite IH by exact Hn. reflexivity.
Qed.

(** With user code that stays out of the runtime the loop empties the
    stack from the top: one call for each destructor object that
    carries a function, each object released. *)
Lemma call_destructors_quiet (p : ptr) (obj : thread_Obj_t) :
  quiet user_code ->
  forall l fuel s,
    ThreadPool (data s) !! p = Some obj ->
    destructorList (more s p) = l -> NoDup l ->
    (forall d, d ∈ l -> is_Some (DestructorPool s !! d)) ->
    (length l < fuel)%nat ->
    exists s',
      call_destructors user_code fuel p s = Returns tt s'
      /\ data s' = data s
      /\ more s' p = set_destructorList [] (more s p)
      /\ (forall q, q <> p -> more s' q = more s q)
      /\ (forall d, DestructorPool s' !! d =
                      if decide (d ∈ l) then None else DestructorPool s !! d)
      /\ ThreadLocalData s' = ThreadLocalData s
      /\ initialised s' = initialised s
      /\ history s' = history s ++ calls_of (DestructorPool s) l.
Proof.
  intros Hq l. induction l as [|d rest IH]; intros fuel s Hp Hl Hnd Hall Hfuel;
    (destruct fuel as [|fuel]; [simpl in Hfuel; lia|]).
  - exists s. rewrite (call_destructors_nil _ _ _ _ Hp Hl).
    repeat split.
    + destruct (more s p); simpl in *; subst; reflexivity.
    + simpl. rewrite app_nil_r. reflexivity.
  - destruct (Hall d) as [o Ho]; [left|].
    apply NoDup_cons in Hnd as [Hnin Hnd].
    rewrite (call_destructors_cons _ _ _ _ _ _ _ Hp Hl Ho).
    set (s1 := set_more (<[p := set_destructorList rest (more s p)]> (more s)) s).
    set (called := match Destructor.destructor o with
                   | Some f => [C_user f (Destructor.context o)]
                   | None => []
                   end).
    set (s3 := mkSys (data s) (more s1) (delete d (DestructorPool s)) (ThreadLocalData s)
                     (initialised s) (history s ++ called)).
    assert (Hrun : forall k : T unit,
              (((match Destructor.destructor o with
                 | Some f => log (C_user f (Destructor.context o)) ;;*
                             user_code f (Destructor.context o)
                 | None => tret tt
                 end) ;;*
                modify (fun s => set_DestructorPool (delete d (DestructorPool s)) s) ;;* k)
                 s1) = k s3).
    { intros k. unfold tbind at 1. subst called s3.
      destruct (Destructor.destructor o) as [f|].
      - unfold tbind at 1, log at 1. rewrite Hq. unfold tbind, modify. reflexivity.
      - unfold tret at 1. unfold tbind, modify. subst s1. unfold set_more, set_DestructorPool.
        simpl. rewrite app_nil_r. reflexivity. }
    rewrite Hrun.
    destruct (IH fuel s3) as [s' [Hr [Hd' [Hm [Hmq [Hdp [Htl [Hin Hh]]]]]]]].
    + exact Hp.
    + subst s3 s1. simpl. rewrite fn_lookup_insert. reflexivity.
    + exact Hnd.
    + intros d' Hd'. subst s3. simpl. rewrite lookup_delete_ne.
      * apply Hall. right. exact Hd'.
      * intros ->. contradiction.
    + simpl in Hfuel. lia.
    + exists s'. split; [exact Hr|]. split; [exact Hd'|].
      split; [rewrite Hm; subst s3 s1; simpl; rewrite fn_lookup_insert; reflexivity|].
      split; [intros q Hne; rewrite (Hmq q Hne); subst s3 s1; simpl;
              rewrite fn_lookup_insert_ne by auto; reflexivity|].
      split.
      { intros d'. rewrite Hdp. subst s3. simpl.
        destruct (decide (d' = d)) as [->|Hne].
        - rewrite lookup_delete_eq. rewrite (decide_True (P := d ∈ d :: rest)) by left.
          destruct (decide (d ∈ rest)); reflexivity.
        - rewrite lookup_delete_ne by auto.
          destruct (decide (d' ∈ rest)) as [Hi|Hi].
          + rewrite decide_True by (right; exact Hi). reflexivity.
          + rewrite decide_False; [reflexivity|].
            intros Hc. apply elem_of_cons in Hc as [?|?]; contradiction. }
      split; [exact Htl|]. split; [exact Hin|].
      rewrite Hh. subst s3. simpl. rewrite calls_of_delete by exact Hnin.
      unfold calls_of at 2. simpl. rewrite Ho. fold (calls_of (DestructorPool s) rest).
      subst called. rewrite <- app_assoc. reflexivity.
Qed.

(** The module's data after [CleanupThread] of the thread at [p]. *)
Lemma CleanupThread_quiet (fuel : nat) (p : ptr) (obj : thread_Obj_t) (s : Sys) :
  quiet user_code ->
  ThreadPool (data s) !! p = Some obj ->
  destructors_ok s p ->
  (length (destructorList (more s p)) < fuel)%nat ->
  exists s',
    CleanupThread os user_code fuel p s = Returns tt s'
    /\ data s' =
         (let dying := <[p := set_state THREAD_STATE_DYING obj]> (ThreadPool (data s)) in
          if isJoinable obj
          then mkThreadSt (ThreadRefMap (data s)) (ThreadObjList (data s))
                          (ThreadObjListChangeCount (data s)) dying
          else DeleteThread p
                 (mkThreadSt (le_ref_DeleteRef (ThreadRefMap (data s)) (safeRef obj))
                             (le_dls_Remove (ThreadObjList (data s)) p)
                             ((ThreadObjListChangeCount (data s) + 1) mod 2 ^ size_bits os)
                             dying))
    /\ more s' p = set_destructorList [] (more s p)
    /\ (forall q, q <> p -> more s' q = more s q)
    /\ (forall d, DestructorPool s' !! d =
                    if decide (d ∈ destructorList (more s p)) then None
                    else DestructorPool s !! d)
    /\ ThreadLocalData s' = ThreadLocalData s
    /\ initialised s' = initialised s
    /\ history s' = history s ++ calls_of (DestructorPool s) (destructorList (more s p))
                               ++ [C_event_DestructThread; C_timer_DestructThread].
Proof.
  intros Hq Hp [Hnd Hall] Hfuel.
  unfold CleanupThread. unfold tbind at 1. unfold deref at 1. rewrite Hp.
  unfold tbind at 1. unfold store_obj at 1, modify. simpl fst.
  set (s1 := set_data _ s).
  assert (Hp1 : ThreadPool (data s1) !! p = Some (set_state THREAD_STATE_DYING obj)).
  { subst s1. simpl. apply lookup_insert_eq. }
  destruct (call_destructors_quiet p _ Hq (destructorList (more s p)) fuel s1 Hp1)
    as [s2 [Hr [Hd [Hm [Hmq [Hdp [Htl [Hin Hh]]]]]]]]; auto.
  unfold tbind at 1. rewrite Hr.
  unfold tbind at 1, log at 1. unfold tbind at 1, log at 1. simpl.
  unfold tbind at 1, deref at 1. simpl. rewrite Hd, Hp1. simpl.
  destruct (isJoinable obj) eqn:Hj; simpl.
  - eexists. split; [reflexivity|]. simpl.
    split; [try rewrite Hd; subst s1; reflexivity|]. split; [exact Hm|]. split; [exact Hmq|].
    split; [exact Hdp|]. split; [exact Htl|]. split; [exact Hin|].
    rewrite Hh. subst s1. simpl. rewrite <- !app_assoc. reflexivity.
  - eexists. split; [reflexivity|]. simpl.
    split; [try rewrite Hd; subst s1; reflexivity|]. split; [exact Hm|]. split; [exact Hmq|].
    split; [exact Hdp|]. split; [exact Htl|]. split; [exact Hin|].
    rewrite Hh. subst s1. simpl. rewrite <- !app_assoc. reflexivity.
Qed.

Lemma CleanupThread_keeps (fuel : nat) (p : ptr) :
  (forall f c, keeps wf (user_code f c)) ->
  keeps wf (CleanupThread os user_code fuel p).
Proof.
  intros Hu s a s' Hwf Hrun. unfold CleanupThread in Hrun.
  unfold tbind at 1 in Hrun. unfold deref at 1 in Hrun.
  destruct (ThreadPool (data s) !! p) as [obj|] eqn:Hp; [|discriminate].
  unfold tbind at 1 in Hrun. unfold store_obj at 1, modify in Hrun. simpl fst in Hrun.
  set (s1 := set_data _ s) in Hrun.
  assert (Hwf1 : wf (data s1)).
  { subst s1. simpl. eapply wf_insert_obj; eauto. }
  unfold tbind at 1 in Hrun.
  destruct (call_destructors user_code fuel p s1) as [[] s2| | |] eqn:Hc; try discriminate.
  assert (Hwf2 : wf (data s2)) by (eapply (call_destructors_keeps wf Hu); eauto).
  unfold tbind at 1, log at 1 in Hrun. unfold tbind at 1, log at 1 in Hrun.
  unfold tbind at 1, deref at 1 in Hrun. simpl in Hrun.
  destruct (ThreadPool (data s2) !! p) as [obj2|] eqn:Hp2; [|discriminate].
  simpl in Hrun. destruct (isJoinable obj2); simpl in Hrun.
  - unfold tret in Hrun. simplify_eq. exact Hwf2.
  - unfold modify in Hrun. simplify_eq. simpl. eapply wf_drop; eauto.
Qed.

(** *** What every function of the module keeps *)

Ltac split_run H :=
  repeat (match goal with
          | H' : context [match ?x with _ => _ end] |- _ => destruct x eqn:?
          end; simpl in *; try discriminate).

Ltac keeps_wf :=
  rewrite ?lookup_insert_eq in *; simplify_eq; simpl; rewrite ?insert_insert_eq;
  try (eapply wf_insert_obj; [| eassumption | reflexivity]);
  try assumption.

Lemma le_thread_Create_keeps (name : string) (f : option nat) (c : Z) :
  fresh_blocks os -> fresh_refs os -> keeps wf (le_thread_Create os name f c).
Proof.
  intros Hfb Hfr s a s' Hwf Hrun. unfold le_thread_Create in Hrun.
  unfold tbind at 1 in Hrun.
  destruct (CreateThread os name f c s) as [p s1| | |] eqn:Hc; try discriminate.
  pose proof (CreateThread_keeps name f c Hfb Hfr s p s1 Hwf Hc) as Hwf1.
  tsimpl. split_run Hrun. keeps_wf.
Qed.

Lemma le_thread_SetPriority_keeps (t : le_thread_Ref_t) (prio : Z) :
  keeps wf (le_thread_SetPriority os t prio).
Proof.
  intros s a s' Hwf Hrun. unfold le_thread_SetPriority, SetSchedPolicyAttr in Hrun.
  tsimpl. split_run Hrun; keeps_wf.
Qed.

Lemma le_thread_SetStackSize_keeps (t : le_thread_Ref_t) (size : Z) :
  keeps wf (le_thread_SetStackSize os t size).
Proof.
  intros s a s' Hwf Hrun. unfold le_thread_SetStackSize in Hrun.
  tsimpl. split_run Hrun; keeps_wf.
Qed.

Lemma le_thread_SetJoinable_keeps (t : le_thread_Ref_t) :
  keeps wf (le_thread_SetJoinable os t).
Proof.
  intros s a s' Hwf Hrun. unfold le_thread_SetJoinable in Hrun.
  tsimpl. split_run Hrun; keeps_wf.
Qed.

Lemma le_thread_Start_keeps (t : le_thread_Ref_t) :
  keeps wf (le_thread_Start os t).
Proof.
  intros s a s' Hwf Hrun. unfold le_thread_Start in Hrun.
  tsimpl. split_run Hrun; keeps_wf.
Qed.

Lemma PThreadStartRoutine_keeps (fuel : nat) (self : pthread_t) (p : ptr) :
  (forall f c, keeps wf (user_code f c)) ->
  keeps wf (PThreadStartRoutine os user_code fuel self p).
Proof.
  intros Hu s a s' Hwf Hrun. unfold PThreadStartRoutine in Hrun.
  unfold tbind at 1, ask at 1 in Hrun.
  destruct (decide (pthread_setspecific os (history s) self p <> 0)); [discriminate|].
  unfold tbind at 1, modify at 1 in Hrun.
  unfold tbind at 1, deref at 1 in Hrun. simpl in Hrun.
  destruct (ThreadPool (data s) !! p) as [obj|] eqn:Hp; [|discriminate].
  simpl in Hrun.
  unfold tbind at 1 in Hrun.
  match type of Hrun with
  | match ?m ?s0 with _ => _ end = _ =>
      assert (Hs : exists s1, m s0 = Returns tt s1 /\ data s1 = data s)
  end.
  { case_decide; tsimpl; eexists; split; reflexivity. }
  destruct Hs as [s1 [Hs1 Hd1]]. rewrite Hs1 in Hrun.
  unfold tbind at 1, thread_InitThread, log at 1 in Hrun.
  destruct (mainFunc (more s p)) as [f|]; [|discriminate].
  unfold tbind at 1, log at 1 in Hrun. unfold tbind at 1 in Hrun.
  match type of Hrun with
  | match user_code ?f ?c ?s2 with _ => _ end = _ =>
      destruct (user_code f c s2) as [[] s3| | |] eqn:Hu1; try discriminate;
      assert (Hwf3 : wf (data s3))
        by (eapply (Hu f c s2); [simpl; rewrite Hd1; exact Hwf|exact Hu1])
  end.
  eapply CleanupThread_keeps; eauto.
Qed.

Lemma le_thread_Join_keeps (self : pthread_t) (t : le_thread_Ref_t) :
  keeps wf (ThreadApi.le_thread_Join os self t).
Proof.
  intros s a s' Hwf Hrun. unfold ThreadApi.le_thread_Join, Thread.le_thread_Join in Hrun.
  unfold le_ref_Lookup in Hrun.
  destruct (ThreadRefMap (data s) !! t) as [p|] eqn:Hl; simpl in Hrun;
    [|simplify_eq; exact Hwf].
  destruct (ThreadPool (data s) !! p) as [obj|] eqn:Hp; simpl in Hrun; [|discriminate].
  destruct (isJoinable obj); simpl in Hrun; [|simplify_eq; exact Hwf].
  repeat case_decide; simplify_eq; simpl; try exact Hwf.
  eapply wf_drop; eauto.
Qed.

Lemma AddDestructor_data (p : ptr) (f : option nat) (c : Z) (s : Sys)
    (d : le_thread_DestructorRef_t) (s' : Sys) :
  AddDestructor os p f c s = Returns d s' -> data s' = data s.
Proof.
  intros Hrun. unfold AddDestructor in Hrun. tsimpl. split_run Hrun. simplify_eq. reflexivity.
Qed.

Lemma le_thread_Cancel_keeps (t : le_thread_Ref_t) : keeps wf (le_thread_Cancel os t).
Proof.
  intros s a s' Hwf Hrun. unfold le_thread_Cancel in Hrun.
  tsimpl. split_run Hrun; keeps_wf.
Qed.

Lemma le_thread_AddDestructor_keeps (self : pthread_t) (f : option nat) (c : Z) :
  keeps wf (le_thread_AddDestructor os self f c).
Proof.
  intros s a s' Hwf Hrun. unfold le_thread_AddDestructor, AddDestructor in Hrun.
  tsimpl. split_run Hrun; keeps_wf.
Qed.

Lemma le_thread_AddChildDestructor_keeps (t : le_thread_Ref_t) (f : option nat) (c : Z) :
  keeps wf (le_thread_AddChildDestructor os t f c).
Proof.
  intros s a s' Hwf Hrun. unfold le_thread_AddChildDestructor, AddDestructor in Hrun.
  tsimpl. split_run Hrun; keeps_wf.
Qed.

Lemma le_thread_RemoveDestructor_keeps (self : pthread_t) (d : le_thread_DestructorRef_t) :
  keeps wf (le_thread_RemoveDestructor self d).
Proof.
  intros s a s' Hwf Hrun. unfold le_thread_RemoveDestructor in Hrun.
  tsimpl. split_run Hrun; keeps_wf.
Qed.

Lemma le_thread_InitLegatoThreadData_keeps (self : pthread_t) (name : string) :
  fresh_blocks os -> fresh_refs os ->
  keeps wf (le_thread_InitLegatoThreadData os self name).
Proof.
  intros Hfb Hfr s a s' Hwf Hrun. unfold le_thread_InitLegatoThreadData in Hrun.
  unfold tbind at 1, get at 1 in Hrun.
  destruct (negb (initialised s)); [discriminate|].
  destruct (decide (ThreadLocalData s !! self <> None)); [discriminate|].
  unfold tbind at 1 in Hrun.
  destruct (CreateThread os name None 0 s) as [p s1| | |] eqn:Hc; try discriminate.
  pose proof (CreateThread_keeps name None 0 Hfb Hfr s p s1 Hwf Hc) as Hwf1.
  tsimpl. split_run Hrun; keeps_wf.
Qed.

Lemma le_thread_CleanupLegatoThreadData_keeps (fuel : nat) (self : pthread_t) :
  (forall f c, keeps wf (user_code f c)) ->
  keeps wf (le_thread_CleanupLegatoThreadData os user_code fuel self).
Proof.
  intros Hu s a s' Hwf Hrun. unfold le_thread_CleanupLegatoThreadData in Hrun.
  unfold tbind at 1, GetCurrentThreadPtr, get in Hrun. unfold tbind at 1 in Hrun.
  destruct (ThreadLocalData s !! self) as [p|]; [|discriminate].
  unfold tret at 1 in Hrun. unfold tbind at 1, deref at 1 in Hrun.
  destruct (ThreadPool (data s) !! p) as [obj|]; [|discriminate].
  simpl in Hrun. destruct (mainFunc (more s p)).
  - unfold tret in Hrun. simplify_eq. exact Hwf.
  - eapply CleanupThread_keeps; eauto.
Qed.

(** X22: the thread runtime keeps its bookkeeping sound.  If every
    reference of the map points to an allocated object that carries
    this reference, and the thread object list holds allocated objects
    only, then this is so again after any function of the module has
    returned: creating, setting up and starting a thread, the run of a
    thread up to its end, join, cancel, the destructor functions, and
    the adoption and release of a thread that Legato did not start.
    The pools and the reference map must hand out what is not in use,
    and user code must keep the property as well. *)
Theorem runtime_keeps_wf :
  fresh_blocks os -> fresh_refs os ->
  (forall f c, keeps wf (user_code f c)) ->
  (forall name f c, keeps wf (le_thread_Create os name f c))
  /\ (forall t prio, keeps wf (le_thread_SetPriority os t prio))
  /\ (forall t size, keeps wf (le_thread_SetStackSize os t size))
  /\ (forall t, keeps wf (le_thread_SetJoinable os t))
  /\ (forall t, keeps wf (le_thread_Start os t))
  /\ (forall fuel self p, keeps wf (PThreadStartRoutine os user_code fuel self p))
  /\ (forall self t, keeps wf (ThreadApi.le_thread_Join os self t))
  /\ (forall t, keeps wf (le_thread_Cancel os t))
  /\ (forall self f c, keeps wf (le_thread_AddDestructor os self f c))
  /\ (forall t f c, keeps wf (le_thread_AddChildDestructor os t f c))
  /\ (forall self d, keeps wf (le_thread_RemoveDestructor self d))
  /\ (forall self name, keeps wf (le_thread_InitLegatoThreadData os self name))
  /\ (forall fuel self,
        keeps wf (le_thread_CleanupLegatoThreadData os user_code fuel self)).
Proof.
  intros Hfb Hfr Hu.
  repeat match goal with |- _ /\ _ => split end; intros.
  - apply le_thread_Create_keeps; assumption.
  - apply le_thread_SetPriority_keeps.
  - apply le_thread_SetStackSize_keeps.
  - apply le_thread_SetJoinable_keeps.
  - apply le_thread_Start_keeps.
  - apply PThreadStartRoutine_keeps; assumption.
  - apply le_thread_Join_keeps.
  - apply le_thread_Cancel_keeps.
  - apply le_thread_AddDestructor_keeps.
  - apply le_thread_AddChildDestructor_keeps.
  - apply le_thread_RemoveDestructor_keeps.
  - apply le_thread_InitLegatoThreadData_keeps; assumption.
  - apply le_thread_CleanupLegatoThreadData_keeps; assumption.
Qed.

(** *** The end of a thread *)

(** X23: when a thread ends, [CleanupThread] empties its destructor
    stack from the top.  With destructors that stay out of the thread
    runtime, the functions of the destructor objects are called one
    after the other in stack order, each with its context, before the
    event loop and the timers of the thread are torn down; objects
    without a function are skipped; every object of the stack is
    released, and no other destructor object is touched. *)
Theorem CleanupThread_runs_destructors (fuel : nat) (p : ptr) (obj : thread_Obj_t)
    (s : Sys) :
  quiet user_code ->
  ThreadPool (data s) !! p = Some obj ->
  destructors_ok s p ->
  (length (destructorList (more s p)) < fuel)%nat ->
  exists s',
    CleanupThread os user_code fuel p s = Returns tt s'
    /\ history s' = history s ++ calls_of (DestructorPool s) (destructorList (more s p))
                               ++ [C_event_DestructThread; C_timer_DestructThread]
    /\ destructorList (more s' p) = []
    /\ (forall d, d ∈ destructorList (more s p) -> DestructorPool s' !! d = None)
    /\ (forall d, d ∉ destructorList (more s p) ->
                   DestructorPool s' !! d = DestructorPool s !! d).
Proof.
  intros Hq Hp Hok Hfuel.
  destruct (CleanupThread_quiet fuel p obj s Hq Hp Hok Hfuel)
    as [s' [Hr [_ [Hm [_ [Hdp [_ [_ Hh]]]]]]]].
  exists s'. split; [exact Hr|]. split; [exact Hh|].
  split; [rewrite Hm; reflexivity|].
  split; intros d Hd; rewrite Hdp.
  - rewrite decide_True by exact Hd. reflexivity.
  - rewrite decide_False by exact Hd. reflexivity.
Qed.

(** X24: a thread that was not made joinable is gone once it has
    cleaned up: its reference is invalid, its object is released and
    off the thread object list, and the other references are as they
    were.  From then on [le_thread_Join] and [le_thread_Cancel] on the
    old reference answer [LE_NOT_FOUND] without a call of libc, and
    [le_thread_GetName] gives the copy of ["(dead)"]. *)
Theorem detached_thread_is_gone (fuel : nat) (p : ptr) (obj : thread_Obj_t) (s : Sys)
    (self : pthread_t) (n : nat) :
  quiet user_code ->
  ThreadPool (data s) !! p = Some obj ->
  isJoinable obj = false ->
  destructors_ok s p ->
  (length (destructorList (more s p)) < fuel)%nat ->
  exists s',
    CleanupThread os user_code fuel p s = Returns tt s'
    /\ ThreadRefMap (data s') !! safeRef obj = None
    /\ ThreadPool (data s') !! p = None
    /\ (p ∉ ThreadObjList (data s'))
    /\ (forall r, r <> safeRef obj ->
                   ThreadRefMap (data s') !! r = ThreadRefMap (data s) !! r)
    /\ ThreadApi.le_thread_Join os self (safeRef obj) s' = Returns LE_NOT_FOUND s'
    /\ le_thread_Cancel os (safeRef obj) s' = Returns LE_NOT_FOUND s'
    /\ le_thread_GetName os (safeRef obj) n s' = Returns (snd (le_utf8_Copy os "(dead)" n)) s'.
Proof.
  intros Hq Hp Hj Hok Hfuel.
  destruct (CleanupThread_quiet fuel p obj s Hq Hp Hok Hfuel) as [s' [Hr [Hd _]]].
  rewrite Hj in Hd. simpl in Hd.
  exists s'. split; [exact Hr|].
  assert (Hgone : ThreadRefMap (data s') !! safeRef obj = None).
  { rewrite Hd. unfold DeleteThread, le_ref_DeleteRef. simpl. apply lookup_delete_eq. }
  split; [exact Hgone|].
  split; [rewrite Hd; unfold DeleteThread; simpl; apply lookup_delete_eq|].
  split.
  { rewrite Hd. unfold DeleteThread, le_dls_Remove. simpl.
    intros Hin. apply list_elem_of_filter in Hin as [Hne _]. congruence. }
  split.
  { intros r Hne. rewrite Hd. unfold DeleteThread, le_ref_DeleteRef. simpl.
    apply lookup_delete_ne. congruence. }
  unfold ThreadApi.le_thread_Join, Thread.le_thread_Join, joined_handle, le_thread_Cancel,
    le_thread_GetName.
  tsimpl. rewrite Hgone. destruct s'. repeat split.
Qed.

(** *** From creation to join *)

Lemma le_thread_SetJoinable_ok (t : le_thread_Ref_t) (p : ptr) (obj : thread_Obj_t)
    (s : Sys) :
  ThreadRefMap (data s) !! t = Some p ->
  ThreadPool (data s) !! p = Some obj ->
  state obj = THREAD_STATE_NEW ->
  pthread_attr os (history s) (attr_setdetachstate true) p = 0 ->
  exists s',
    le_thread_SetJoinable os t s = Returns tt s'
    /\ data s' = mkThreadSt (ThreadRefMap (data s)) (ThreadObjList (data s))
                            (ThreadObjListChangeCount (data s))
                            (<[p := set_isJoinable true obj]> (ThreadPool (data s)))
    /\ more s' = more s
    /\ DestructorPool s' = DestructorPool s
    /\ exists evs, history s' = history s ++ evs.
Proof.
  intros Hl Hp Hst H0. unfold le_thread_SetJoinable. tsimpl.
  rewrite Hl. simpl. rewrite Hp. simpl.
  rewrite decide_False by (rewrite Hst; auto). simpl.
  rewrite decide_True by exact H0.
  eexists. split; [reflexivity|]. simpl. repeat split. eexists. reflexivity.
Qed.

Lemma le_thread_Start_ok (t : le_thread_Ref_t) (p : ptr) (obj : thread_Obj_t) (s : Sys) :
  ThreadRefMap (data s) !! t = Some p ->
  ThreadPool (data s) !! p = Some obj ->
  state obj = THREAD_STATE_NEW ->
  fst (pthread_create os (history s) p) = 0 ->
  exists s',
    le_thread_Start os t s = Returns tt s'
    /\ data s' = mkThreadSt (ThreadRefMap (data s)) (ThreadObjList (data s))
                            (ThreadObjListChangeCount (data s))
                            (<[p := set_threadHandle (snd (pthread_create os (history s) p))
                                                     (set_state THREAD_STATE_RUNNING obj)]>
                               (ThreadPool (data s)))
    /\ more s' = more s
    /\ DestructorPool s' = DestructorPool s
    /\ exists evs, history s' = history s ++ evs.
Proof.
  intros Hl Hp Hst H0. unfold le_thread_Start. tsimpl.
  rewrite Hl. simpl. rewrite Hp. simpl.
  rewrite decide_False by (rewrite Hst; auto). simpl.
  rewrite decide_False by (rewrite H0; auto). simpl.
  rewrite lookup_insert_eq. simpl.
  eexists. split; [reflexivity|]. simpl. rewrite insert_insert_eq.
  repeat split. eexists. reflexivity.
Qed.

Lemma PThreadStartRoutine_quiet (fuel : nat) (self : pthread_t) (p : ptr)
    (obj : thread_Obj_t) (f : nat) (s : Sys) :
  quiet user_code ->
  pthread_setspecific os (history s) self p = 0 ->
  ThreadPool (data s) !! p = Some obj ->
  mainFunc (more s p) = Some f ->
  destructors_ok s p ->
  (length (destructorList (more s p)) < fuel)%nat ->
  exists s',
    PThreadStartRoutine os user_code fuel self p s = Returns tt s'
    /\ data s' =
         (let dying := <[p := set_state THREAD_STATE_DYING obj]> (ThreadPool (data s)) in
          if isJoinable obj
          then mkThreadSt (ThreadRefMap (data s)) (ThreadObjList (data s))
                          (ThreadObjListChangeCount (data s)) dying
          else DeleteThread p
                 (mkThreadSt (le_ref_DeleteRef (ThreadRefMap (data s)) (safeRef obj))
                             (le_dls_Remove (ThreadObjList (data s)) p)
                             ((ThreadObjListChangeCount (data s) + 1) mod 2 ^ size_bits os)
                             dying))
    /\ (forall d, DestructorPool s' !! d =
                    if decide (d ∈ destructorList (more s p)) then None
                    else DestructorPool s !! d)
    /\ ThreadLocalData s' = <[self := p]> (ThreadLocalData s)
    /\ exists before after,
         history s' = history s ++ before ++ [C_user f (context (more s p))] ++ after.
Proof.
  intros Hq H0 Hp Hf Hok Hfuel. unfold PThreadStartRoutine.
  unfold tbind at 1, ask at 1. rewrite decide_False by (rewrite H0; auto).
  unfold tbind at 1, modify at 1.
  unfold tbind at 1, deref at 1. simpl. rewrite Hp. simpl.
  unfold tbind at 1.
  match goal with
  | |- exists s', match ?m ?s0 with _ => _ end = _ /\ _ =>
      assert (Hs : exists evs, m s0 = Returns tt
                (mkSys (data s) (more s) (DestructorPool s) (<[self := p]> (ThreadLocalData s))
                       (initialised s) (history s ++ evs)))
  end.
  { case_decide; tsimpl.
    - eexists. rewrite <- app_assoc. reflexivity.
    - eexists. reflexivity. }
  destruct Hs as [evs Hs]. rewrite Hs. clear Hs.
  unfold tbind at 1, thread_InitThread, log at 1. rewrite Hf.
  unfold tbind at 1, log at 1. unfold tbind at 1. rewrite Hq. simpl.
  match goal with
  | |- exists s', CleanupThread _ _ _ _ ?s2 = _ /\ _ =>
      destruct (CleanupThread_quiet fuel p obj s2 Hq Hp Hok Hfuel)
        as [s' [Hr [Hd [_ [_ [Hdp [Htl [_ Hh]]]]]]]]
  end.
  exists s'. split; [exact Hr|]. split; [exact Hd|]. split; [exact Hdp|].
  split; [exact Htl|].
  rewrite Hh. simpl. rewrite <- !app_assoc. simpl.
  exists (evs ++ [C_thread_InitThread self]). eexists.
  rewrite <- (app_assoc evs). simpl. reflexivity.
Qed.

Lemma filter_out_fresh (l : list ptr) (p : ptr) :
  p ∉ l -> filter (fun q => q <> p) (l ++ [p]) = l.
Proof.
  intros Hn. rewrite filter_app.
  rewrite (filter_cons_False (fun q => q <> p)) by auto.
  rewrite filter_nil, app_nil_r.
  induction l as [|x l IH]; [reflexivity|].
  apply not_elem_of_cons in Hn as [Hne Hn].
  rewrite filter_cons_True by congruence. rewrite IH by exact Hn. reflexivity.
Qed.

(** X25: the life of a joinable thread.  With allocators that hand out
    what is not in use, a libc that obliges and user code that stays
    out of the runtime: [le_thread_Create], [le_thread_SetJoinable]
    and [le_thread_Start] return, the thread calls its main function
    with its argument and cleans up, and [le_thread_Join] then gives
    [LE_OK].  After that the reference map, the thread object list and
    the pool are what they were before the thread was created; only
    the change counter of the list has moved, by two. *)
Theorem joinable_thread_round_trip (name : string) (f : nat) (c : Z) (fuel : nat)
    (self : pthread_t) (s : Sys) :
  fresh_blocks os -> fresh_refs os -> obliging os -> quiet user_code ->
  listed_ok (data s) ->
  (0 < fuel)%nat ->
  exists t p s1 s2 s3 s4 s5,
    le_thread_Create os name (Some f) c s = Returns t s1
    /\ le_ref_Lookup (ThreadRefMap (data s1)) t = Some p
    /\ le_thread_SetJoinable os t s1 = Returns tt s2
    /\ le_thread_Start os t s2 = Returns tt s3
    /\ (exists obj, ThreadPool (data s3) !! p = Some obj
                    /\ PThreadStartRoutine os user_code fuel (threadHandle obj) p s3
                       = Returns tt s4)
    /\ (exists before after, history s4 = history s3 ++ before ++ [C_user f c] ++ after)
    /\ ThreadApi.le_thread_Join os self t s4 = Returns LE_OK s5
    /\ data s5 = bump os 2 (data s).
Proof.
  intros Hfb Hfr [Hattr [Hcreate [Hspec Hjoin]]] Hq Hlist Hfuel.
  destruct (CreateThread_cases name (Some f) c s)
    as [[Hne _]|[_ [t [s1 [Hr1 [[h Hh] [Hd1 [Hm1 [Hdp1 _]]]]]]]]];
    [exfalso; apply Hne; apply Hattr|].
  set (p := le_mem_ForceAlloc os (history s) (ThreadPool (data s))) in *.
  set (obj1 := mkThreadObj (snd (le_utf8_Copy os name (MAX_THREAD_NAME_SIZE os)))
                           false THREAD_STATE_NEW 0 t) in *.
  assert (Hfp : ThreadPool (data s) !! p = None) by apply Hfb.
  assert (Hft : ThreadRefMap (data s) !! t = None) by (subst t; apply Hfr).
  assert (Hl1 : ThreadRefMap (data s1) !! t = Some p)
    by (rewrite Hd1; simpl; apply lookup_insert_eq).
  assert (Hp1 : ThreadPool (data s1) !! p = Some obj1)
    by (rewrite Hd1; simpl; apply lookup_insert_eq).
  destruct (le_thread_SetJoinable_ok t p obj1 s1 Hl1 Hp1 eq_refl (Hattr _ _ _))
    as [s2 [Hr2 [Hd2 [Hm2 [Hdp2 _]]]]].
  set (obj2 := set_isJoinable true obj1) in *.
  assert (Hl2 : ThreadRefMap (data s2) !! t = Some p) by (rewrite Hd2; exact Hl1).
  assert (Hp2 : ThreadPool (data s2) !! p = Some obj2)
    by (rewrite Hd2; simpl; apply lookup_insert_eq).
  destruct (le_thread_Start_ok t p obj2 s2 Hl2 Hp2 eq_refl (Hcreate _ _))
    as [s3 [Hr3 [Hd3 [Hm3 [Hdp3 _]]]]].
  set (obj3 := set_threadHandle (snd (pthread_create os (history s2) p))
                                (set_state THREAD_STATE_RUNNING obj2)) in *.
  assert (Hp3 : ThreadPool (data s3) !! p = Some obj3)
    by (rewrite Hd3; simpl; apply lookup_insert_eq).
  assert (Hmp3 : more s3 p = mkMore (LE_THREAD_PRIORITY_NORMAL os) (Some f) c []).
  { rewrite Hm3, Hm2, Hm1. apply fn_lookup_insert. }
  destruct (PThreadStartRoutine_quiet fuel (threadHandle obj3) p obj3 f s3 Hq
              (Hspec _ _ _) Hp3)
    as [s4 [Hr4 [Hd4 [_ [_ Hh4]]]]].
  { rewrite Hmp3. reflexivity. }
  { unfold destructors_ok. rewrite Hmp3. simpl. split; [constructor|]. intros d Hd.
    apply elem_of_nil in Hd. contradiction. }
  { rewrite Hmp3. simpl. exact Hfuel. }
  rewrite Hmp3 in Hh4. simpl in Hh4, Hd4.
  exists t, p, s1, s2, s3, s4.
  assert (Hjoin4 : exists s5, ThreadApi.le_thread_Join os self t s4 = Returns LE_OK s5
                              /\ data s5 = bump os 2 (data s)).
  { unfold ThreadApi.le_thread_Join, Thread.le_thread_Join, le_ref_Lookup.
    rewrite Hd4. simpl. rewrite Hd3. simpl. rewrite Hd2. simpl. rewrite Hd1. simpl.
    rewrite !lookup_insert_eq. simpl.
    rewrite decide_True by apply Hjoin.
    eexists. split; [reflexivity|]. simpl.
    unfold DeleteThread, le_ref_DeleteRef, le_dls_Remove, bump. simpl.
    rewrite !insert_insert_eq.
    rewrite delete_insert_id by exact Hft.
    rewrite delete_insert_id by exact Hfp.
    rewrite filter_out_fresh; [reflexivity|].
    intros Hin. destruct (Hlist p Hin) as [o Ho]. congruence. }
  destruct Hjoin4 as [s5 [Hr5 Hd5]].
  exists s5.
  split.
  { unfold le_thread_Create. tsimpl. rewrite Hr1. simpl. rewrite Hp1. reflexivity. }
  split; [exact Hl1|]. split; [exact Hr2|]. split; [exact Hr3|].
  split; [exists obj3; split; [exact Hp3|exact Hr4]|].
  split; [exact Hh4|]. split; [exact Hr5|exact Hd5].
Qed.

(** *** Destructors and adopted threads *)

(** X26: a destructor that a running thread registers for itself goes
    on top of its stack, in a destructor object that was not in use;
    removing it again puts the stack and the destructor pool back as
    they were, and the module's data and the history are untouched.
    Removing it once more changes nothing. *)
Theorem destructor_add_then_remove (self : pthread_t) (p : ptr) (obj : thread_Obj_t)
    (f : option nat) (c : Z) (s : Sys) :
  fresh_destructors os ->
  ThreadLocalData s !! self = Some p ->
  ThreadPool (data s) !! p = Some obj ->
  state obj = THREAD_STATE_RUNNING ->
  (forall d, d ∈ destructorList (more s p) -> is_Some (DestructorPool s !! d)) ->
  exists d s1 s2,
    le_thread_AddDestructor os self f c s = Returns d s1
    /\ DestructorPool s !! d = None
    /\ destructorList (more s1 p) = d :: destructorList (more s p)
    /\ DestructorPool s1 = <[d := Destructor.mk p f c]> (DestructorPool s)
    /\ le_thread_RemoveDestructor self d s1 = Returns tt s2
    /\ destructorList (more s2 p) = destructorList (more s p)
    /\ DestructorPool s2 = DestructorPool s
    /\ data s2 = data s
    /\ history s2 = history s
    /\ le_thread_RemoveDestructor self d s2 = Returns tt s2.
Proof.
  intros Hfd Htl Hp Hst Hall.
  set (d := le_mem_ForceAlloc_destructor os (history s) (DestructorPool s)).
  assert (Hd : DestructorPool s !! d = None) by apply Hfd.
  assert (Hnin : d ∉ destructorList (more s p)).
  { intros Hin. destruct (Hall d Hin) as [o Ho]. congruence. }
  assert (Hfilter : filter (fun x => x <> d) (destructorList (more s p))
                    = destructorList (more s p)).
  { clear -Hnin. induction (destructorList (more s p)) as [|x l IH]; [reflexivity|].
    apply not_elem_of_cons in Hnin as [Hne Hn].
    rewrite filter_cons_True by congruence. rewrite IH by exact Hn. reflexivity. }
  unfold le_thread_AddDestructor, le_thread_RemoveDestructor, AddDestructor. tsimpl.
  rewrite Htl. simpl. rewrite Hp. simpl.
  rewrite (decide_False (P := state obj <> THREAD_STATE_RUNNING)) by (rewrite Hst; auto).
  simpl. rewrite Hp. simpl. fold d.
  eexists _, _, _. split; [reflexivity|]. simpl.
  rewrite Htl. simpl. rewrite Hp. simpl. rewrite fn_lookup_insert. simpl.
  rewrite (decide_True (P := d ∈ d :: destructorList (more s p))) by left. simpl.
  split; [exact Hd|]. split; [reflexivity|]. split; [reflexivity|].
  split; [reflexivity|]. simpl. rewrite fn_lookup_insert. simpl.
  rewrite (filter_cons_False (fun x => x <> d)) by auto. rewrite Hfilter.
  rewrite (delete_insert_id _ _ _ Hd).
  split; [reflexivity|]. split; [reflexivity|]. split; [reflexivity|].
  split; [reflexivity|].
  rewrite Htl. simpl. rewrite Hp. simpl. rewrite fn_lookup_insert. simpl.
  rewrite decide_False by exact Hnin. reflexivity.
Qed.

Lemma le_thread_InitLegatoThreadData_ok (self : pthread_t) (name : string) (s : Sys) :
  obliging os ->
  initialised s = true ->
  ThreadLocalData s !! self = None ->
  let p := le_mem_ForceAlloc os (history s) (ThreadPool (data s)) in
  exists t s1,
    le_thread_InitLegatoThreadData os self name s = Returns tt s1
    /\ (exists h, t = le_ref_CreateRef os h (ThreadRefMap (data s)) p)
    /\ data s1 =
         mkThreadSt (<[t := p]> (ThreadRefMap (data s)))
                    (ThreadObjList (data s) ++ [p])
                    ((ThreadObjListChangeCount (data s) + 1) mod 2 ^ size_bits os)
                    (<[p := mkThreadObj (snd (le_utf8_Copy os name (MAX_THREAD_NAME_SIZE os)))
                                        false THREAD_STATE_RUNNING 0 t]>
                       (ThreadPool (data s)))
    /\ more s1 = <[p := mkMore (LE_THREAD_PRIORITY_NORMAL os) None 0 []]> (more s)
    /\ ThreadLocalData s1 = <[self := p]> (ThreadLocalData s)
    /\ initialised s1 = true.
Proof.
  intros [Hattr [_ [Hspec _]]] Hinit Htl p.
  destruct (CreateThread_cases name None 0 s)
    as [[Hne _]|[_ [t [s0 [Hr0 [Hh [Hd0 [Hm0 [Hdp0 [Htl0 [Hin0 _]]]]]]]]]]];
    [exfalso; apply Hne; apply Hattr|].
  fold p in Hr0, Hh, Hd0, Hm0.
  exists t.
  unfold le_thread_InitLegatoThreadData.
  unfold tbind at 1, get at 1. rewrite Hinit.
  change (negb true) with false. cbv beta iota.
  rewrite (decide_False (P := ThreadLocalData s !! self <> None)) by (rewrite Htl; auto).
  unfold tbind at 1. rewrite Hr0.
  unfold tbind at 1, deref at 1. rewrite Hd0. simpl ThreadPool. rewrite lookup_insert_eq.
  unfold tbind at 1, store_obj at 1, modify at 1.
  unfold tbind at 1, ask at 1.
  rewrite (decide_False (P := pthread_setspecific os _ self p <> 0))
    by (rewrite Hspec; auto).
  unfold tbind, modify, thread_InitThread, log.
  eexists. split; [reflexivity|]. simpl.
  split; [exact Hh|]. rewrite Hd0. simpl. rewrite insert_insert_eq.
  split; [reflexivity|]. split; [exact Hm0|]. rewrite Htl0, Hin0, Hinit.
  split; reflexivity.
Qed.

Lemma CleanupThread_bare (fuel : nat) (p : ptr) (obj : thread_Obj_t) (s : Sys) :
  ThreadPool (data s) !! p = Some obj ->
  destructorList (more s p) = [] ->
  (0 < fuel)%nat ->
  exists s',
    CleanupThread os user_code fuel p s = Returns tt s'
    /\ data s' =
         (let dying := <[p := set_state THREAD_STATE_DYING obj]> (ThreadPool (data s)) in
          if isJoinable obj
          then mkThreadSt (ThreadRefMap (data s)) (ThreadObjList (data s))
                          (ThreadObjListChangeCount (data s)) dying
          else DeleteThread p
                 (mkThreadSt (le_ref_DeleteRef (ThreadRefMap (data s)) (safeRef obj))
                             (le_dls_Remove (ThreadObjList (data s)) p)
                             ((ThreadObjListChangeCount (data s) + 1) mod 2 ^ size_bits os)
                             dying))
    /\ ThreadLocalData s' = ThreadLocalData s
    /\ initialised s' = initialised s.
Proof.
  intros Hp Hl Hfuel. destruct fuel as [|fuel]; [lia|].
  unfold CleanupThread. unfold tbind at 1. unfold deref at 1. rewrite Hp.
  unfold tbind at 1. unfold store_obj at 1, modify. simpl fst.
  set (s1 := set_data _ s).
  assert (Hp1 : ThreadPool (data s1) !! p = Some (set_state THREAD_STATE_DYING obj)).
  { subst s1. simpl. apply lookup_insert_eq. }
  unfold tbind at 1. rewrite (call_destructors_nil fuel p s1 _ Hp1 Hl).
  unfold tbind at 1, log at 1. unfold tbind at 1, log at 1. simpl.
  unfold tbind at 1, deref at 1. simpl. rewrite lookup_insert_eq. simpl.
  destruct (isJoinable obj); simpl; eexists; (split; [reflexivity|]); simpl;
    repeat split.
Qed.

(** X27: a thread that Legato did not start can be adopted once.
    [le_thread_InitLegatoThreadData] gives it a thread object under
    its name; a second call ends the process.
    [le_thread_CleanupLegatoThreadData] then releases the object: the
    reference map, the list and the pool are what they were before,
    with the change counter moved by two.  The thread-specific pointer
    is left behind, though: it points to the released block, so that
    [le_thread_GetCurrent] reads released memory, and a new adoption
    of this thread ends the process. *)
Theorem adopted_thread_round_trip (self : pthread_t) (name : string) (fuel : nat)
    (s : Sys) :
  fresh_blocks os -> fresh_refs os -> obliging os ->
  listed_ok (data s) ->
  initialised s = true ->
  ThreadLocalData s !! self = None ->
  (0 < fuel)%nat ->
  exists p s1 s2,
    le_thread_InitLegatoThreadData os self name s = Returns tt s1
    /\ ThreadLocalData s1 !! self = Some p
    /\ le_thread_GetMyName self s1
       = Returns (snd (le_utf8_Copy os name (MAX_THREAD_NAME_SIZE os))) s1
    /\ le_thread_InitLegatoThreadData os self name s1 = Aborts s1
    /\ le_thread_CleanupLegatoThreadData os user_code fuel self s1 = Returns tt s2
    /\ data s2 = bump os 2 (data s)
    /\ ThreadLocalData s2 !! self = Some p
    /\ ThreadPool (data s2) !! p = None
    /\ le_thread_GetCurrent self s2 = Dangles
    /\ le_thread_InitLegatoThreadData os self name s2 = Aborts s2.
Proof.
  intros Hfb Hfr Hob Hlist Hinit Htl Hfuel.
  destruct (le_thread_InitLegatoThreadData_ok self name s Hob Hinit Htl)
    as [t [s1 [Hr1 [[h Hh] [Hd1 [Hm1 [Htl1 Hin1]]]]]]].
  set (p := le_mem_ForceAlloc os (history s) (ThreadPool (data s))) in *.
  set (obj := mkThreadObj (snd (le_utf8_Copy os name (MAX_THREAD_NAME_SIZE os)))
                          false THREAD_STATE_RUNNING 0 t) in *.
  assert (Hfp : ThreadPool (data s) !! p = None) by apply Hfb.
  assert (Hft : ThreadRefMap (data s) !! t = None) by (subst t; apply Hfr).
  assert (Hself1 : ThreadLocalData s1 !! self = Some p)
    by (rewrite Htl1; apply lookup_insert_eq).
  assert (Hp1 : ThreadPool (data s1) !! p = Some obj)
    by (rewrite Hd1; simpl; apply lookup_insert_eq).
  assert (Hmp1 : more s1 p = mkMore (LE_THREAD_PRIORITY_NORMAL os) None 0 [])
    by (rewrite Hm1; apply fn_lookup_insert).
  destruct (CleanupThread_bare fuel p obj s1 Hp1) as [s2 [Hr2 [Hd2 [Htl2 Hin2]]]];
    [rewrite Hmp1; reflexivity|exact Hfuel|].
  simpl in Hd2.
  assert (Hself2 : ThreadLocalData s2 !! self = Some p) by (rewrite Htl2; exact Hself1).
  assert (Hp2 : ThreadPool (data s2) !! p = None).
  { rewrite Hd2. unfold DeleteThread. simpl. apply lookup_delete_eq. }
  exists p, s1, s2.
  split; [exact Hr1|]. split; [exact Hself1|].
  split.
  { unfold le_thread_GetMyName. tsimpl. rewrite Hself1. simpl. rewrite Hp1. reflexivity. }
  split.
  { unfold le_thread_InitLegatoThreadData. tsimpl. rewrite Hin1. simpl.
    rewrite (decide_True (P := ThreadLocalData s1 !! self <> None))
      by (rewrite Hself1; discriminate).
    reflexivity. }
  split.
  { unfold le_thread_CleanupLegatoThreadData.
    unfold tbind at 1, GetCurrentThreadPtr, get. unfold tbind at 1. rewrite Hself1.
    unfold tret at 1. unfold tbind at 1, deref at 1. rewrite Hp1. simpl snd.
    rewrite Hmp1. simpl. exact Hr2. }
  split.
  { rewrite Hd2, Hd1. unfold DeleteThread, le_ref_DeleteRef, le_dls_Remove, bump. simpl.
    rewrite !insert_insert_eq.
    rewrite delete_insert_id by exact Hft.
    rewrite delete_insert_id by exact Hfp.
    rewrite filter_out_fresh; [reflexivity|].
    intros Hin. destruct (Hlist p Hin) as [o Ho]. congruence. }
  split; [exact Hself2|]. split; [exact Hp2|].
  split.
  { unfold le_thread_GetCurrent. tsimpl. rewrite Hself2. simpl. rewrite Hp2. reflexivity. }
  unfold le_thread_InitLegatoThreadData. tsimpl. rewrite Hin2, Hin1. simpl.
  rewrite (decide_True (P := ThreadLocalData s2 !! self <> None))
    by (rewrite Hself2; discriminate).
  reflexivity.
Qed.

(** X28: [thread_Init] makes the calling thread the thread "main" of a
    fresh runtime, whatever was there before: one reference, one thread
    object (running, detached, without main function or destructors),
    an empty destructor pool, and the thread-specific pointer of the
    caller set, so that [le_thread_GetCurrent] gives the new
    reference.  If the thread object list was empty, as it is when the
    process starts, the bookkeeping is sound. *)
Theorem thread_Init_makes_main (self : pthread_t) (s : Sys) :
  obliging os ->
  pthread_key_create os (history s) = 0 ->
  exists t p s',
    thread_Init os self s = Returns tt s'
    /\ initialised s' = true
    /\ ThreadRefMap (data s') = <[t := p]> ∅
    /\ ThreadPool (data s') =
         <[p := mkThreadObj (snd (le_utf8_Copy os "main" (MAX_THREAD_NAME_SIZE os)))
                            false THREAD_STATE_RUNNING 0 t]> ∅
    /\ mainFunc (more s' p) = None
    /\ destructorList (more s' p) = []
    /\ DestructorPool s' = ∅
    /\ ThreadLocalData s' = <[self := p]> ∅
    /\ le_thread_GetCurrent self s' = Returns t s'
    /\ (ThreadObjList (data s) = [] -> wf (data s')).
Proof.
  intros [Hattr [_ [Hspec _]]] Hkey.
  unfold thread_Init.
  unfold tbind at 1, modify at 1. unfold tbind at 1, ask at 1. cbn [history].
  rewrite Hkey.
  rewrite (decide_False (P := 0 <> 0)) by auto.
  unfold tbind at 1, modify at 1. unfold tbind at 1.
  unfold set_ThreadLocalData at 1. simpl.
  match goal with
  | |- exists t p s', match CreateThread os ?n ?f ?c ?s0 with _ => _ end = _ /\ _ =>
      destruct (CreateThread_cases n f c s0)
        as [[Hne _]|[_ [t [s1 [Hr1 [_ [Hd1 [Hm1 [Hdp1 [Htl1 [Hin1 _]]]]]]]]]]];
        [exfalso; apply Hne; apply Hattr|];
      set (p := le_mem_ForceAlloc os (history s0) (ThreadPool (data s0))) in *
  end.
  rewrite Hr1. simpl in Hd1, Hm1, Hdp1, Htl1, Hin1.
  exists t, p.
  unfold tbind at 1, deref at 1. rewrite Hd1. simpl ThreadPool. rewrite lookup_insert_eq.
  unfold tbind at 1, store_obj at 1, modify at 1.
  unfold tbind at 1, ask at 1.
  rewrite (decide_False (P := pthread_setspecific os _ self p <> 0))
    by (rewrite Hspec; auto).
  unfold modify.
  eexists. split; [reflexivity|]. simpl.
  rewrite Hd1, Hm1, Hdp1, Htl1, Hin1. simpl.
  rewrite insert_insert_eq, fn_lookup_insert. simpl.
  split; [reflexivity|]. split; [reflexivity|]. split; [reflexivity|].
  split; [reflexivity|]. split; [reflexivity|]. split; [reflexivity|].
  split; [reflexivity|].
  split.
  { unfold le_thread_GetCurrent. tsimpl. rewrite lookup_insert_eq. simpl.
    rewrite lookup_insert_eq. reflexivity. }
  intros Hnil. rewrite Hnil. split.
  - intros r q Hq. simpl in *.
    rewrite lookup_insert in Hq. case_decide; [|rewrite lookup_empty in Hq; discriminate].
    simplify_eq. eexists. rewrite lookup_insert_eq. split; reflexivity.
  - intros q Hq. simpl in *.
    apply list_elem_of_singleton in Hq as ->. rewrite lookup_insert_eq. eauto.
Qed.

End ThreadRuntime.

(** *** The sample process *)

Section ThreadRuntimeExamples.

Import Thread ThreadApi.

Lemma sample_fresh_blocks : fresh_blocks Sample.os.
Proof. intros h pool. apply not_elem_of_dom. apply is_fresh. Qed.

Lemma sample_fresh_refs : fresh_refs Sample.os.
Proof. intros h m p. apply not_elem_of_dom. apply is_fresh. Qed.

Lemma sample_fresh_destructors : fresh_destructors Sample.os.
Proof. intros h pool. apply not_elem_of_dom. apply is_fresh. Qed.

Lemma sample_obliging : obliging Sample.os.
Proof. repeat split. Qed.

Lemma sample_quiet : quiet Sample.user_code.
Proof. intros f c s. reflexivity. Qed.

Lemma sample_keeps : forall f c, keeps wf (Sample.user_code f c).
Proof. intros f c s a s' Hwf Hrun. unfold Sample.user_code, tret in Hrun. congruence. Qed.

Lemma sample_listed_ok (j : bool) (l : list le_thread_DestructorRef_t) :
  listed_ok (data (Sample.sys j l)).
Proof.
  intros q Hq. simpl in *. apply list_elem_of_singleton in Hq as ->.
  unfold Sample.threads. simpl. rewrite lookup_singleton_eq. eauto.
Qed.

Lemma sample_destructors_ok : destructors_ok (Sample.sys false [2; 1]%positive) 5%positive.
Proof.
  split; simpl.
  - apply NoDup_cons. split; [|apply NoDup_singleton].
    intros Hin. apply list_elem_of_singleton in Hin. discriminate.
  - intros d Hd. apply elem_of_cons in Hd as [->|Hd].
    + vm_compute. eauto.
    + apply list_elem_of_singleton in Hd as ->. vm_compute. eauto.
Qed.

Lemma setters_abort_after_start_witness :
  le_thread_SetJoinable Sample.os 1%positive (Sample.sys false []) = Aborts (Sample.sys false [])
  /\ le_thread_SetStackSize Sample.os 1%positive 65536 (Sample.sys false [])
     = Aborts (Sample.sys false [])
  /\ le_thread_AddChildDestructor Sample.os 1%positive (Some 11%nat) 0 (Sample.sys false [])
     = Aborts (Sample.sys false [])
  /\ le_thread_Start Sample.os 1%positive (Sample.sys false []) = Aborts (Sample.sys false [])
  /\ le_thread_SetPriority Sample.os 1%positive 99 (Sample.sys false [])
     = Returns LE_OUT_OF_RANGE (Sample.sys false []).
Proof.
  apply (setters_abort_after_start Sample.os 1%positive 5%positive (Sample.thread_obj false)
           (Sample.sys false []) 99 65536 (Some 11%nat) 0).
  - reflexivity.
  - reflexivity.
  - discriminate.
Defined.

Lemma le_thread_Create_registers_witness :
  exists t p s',
    le_thread_Create Sample.os "worker2" (Some 4%nat) 0 (Sample.sys false []) = Returns t s'
    /\ ThreadRefMap (data (Sample.sys false [])) !! t = None
    /\ ThreadPool (data (Sample.sys false [])) !! p = None
    /\ le_ref_Lookup (ThreadRefMap (data s')) t = Some p
    /\ ThreadPool (data s') !! p =
         Some (mkThreadObj (snd (le_utf8_Copy Sample.os "worker2"
                                              (MAX_THREAD_NAME_SIZE Sample.os)))
                           false THREAD_STATE_NEW 0 t)
    /\ more s' p = mkMore (LE_THREAD_PRIORITY_NORMAL Sample.os) (Some 4%nat) 0 []
    /\ ThreadObjList (data s') = ThreadObjList (data (Sample.sys false [])) ++ [p]
    /\ (forall r, r <> t ->
          ThreadRefMap (data s') !! r = ThreadRefMap (data (Sample.sys false [])) !! r)
    /\ (forall q, q <> p ->
          ThreadPool (data s') !! q = ThreadPool (data (Sample.sys false [])) !! q
          /\ more s' q = more (Sample.sys false []) q).
Proof.
  apply (le_thread_Create_registers Sample.os "worker2" (Some 4%nat) 0 (Sample.sys false [])).
  - exact sample_fresh_blocks.
  - exact sample_fresh_refs.
  - reflexivity.
Defined.

Lemma sample_wf (j : bool) (l : list le_thread_DestructorRef_t) :
  wf (data (Sample.sys j l)).
Proof.
  split; [|apply sample_listed_ok].
  intros r p Hr. simpl in *. unfold Sample.threads in *. simpl in *.
  apply lookup_singleton_Some in Hr as [<- <-].
  eexists. split; [apply lookup_singleton_eq|reflexivity].
Qed.

Lemma runtime_keeps_wf_witness :
  exists t s',
    le_thread_Create Sample.os "worker2" (Some 4%nat) 0 (Sample.sys false []) = Returns t s'
    /\ wf (data s').
Proof.
  assert (Hrun : exists t s',
            le_thread_Create Sample.os "worker2" (Some 4%nat) 0 (Sample.sys false [])
            = Returns t s') by (vm_compute; eauto).
  destruct Hrun as [t [s' Hrun]]. exists t, s'. split; [exact Hrun|].
  exact (proj1 (runtime_keeps_wf Sample.os Sample.user_code sample_fresh_blocks
                  sample_fresh_refs sample_keeps)
               "worker2" (Some 4%nat) 0 (Sample.sys false []) t s' (sample_wf _ _) Hrun).
Defined.

Lemma CleanupThread_runs_destructors_witness :
  exists s',
    CleanupThread Sample.os Sample.user_code 3 5%positive (Sample.sys false [2; 1]%positive)
    = Returns tt s'
    /\ history s' = history (Sample.sys false [2; 1]%positive)
                    ++ calls_of (DestructorPool (Sample.sys false [2; 1]%positive))
                                (destructorList (more (Sample.sys false [2; 1]%positive)
                                                      5%positive))
                    ++ [C_event_DestructThread; C_timer_DestructThread]
    /\ destructorList (more s' 5%positive) = []
    /\ (forall d, d ∈ destructorList (more (Sample.sys false [2; 1]%positive) 5%positive) ->
                  DestructorPool s' !! d = None)
    /\ (forall d, d ∉ destructorList (more (Sample.sys false [2; 1]%positive) 5%positive) ->
                  DestructorPool s' !! d
                  = DestructorPool (Sample.sys false [2; 1]%positive) !! d).
Proof.
  apply (CleanupThread_runs_destructors Sample.os Sample.user_code 3 5%positive
           (Sample.thread_obj false) (Sample.sys false [2; 1]%positive)).
  - exact sample_quiet.
  - reflexivity.
  - exact sample_destructors_ok.
  - simpl. lia.
Defined.

Lemma detached_thread_is_gone_witness :
  exists s',
    CleanupThread Sample.os Sample.user_code 3 5%positive (Sample.sys false [2; 1]%positive)
    = Returns tt s'
    /\ ThreadRefMap (data s') !! safeRef (Sample.thread_obj false) = None
    /\ ThreadPool (data s') !! 5%positive = None
    /\ (5%positive ∉ ThreadObjList (data s'))
    /\ (forall r, r <> safeRef (Sample.thread_obj false) ->
                  ThreadRefMap (data s') !! r
                  = ThreadRefMap (data (Sample.sys false [2; 1]%positive)) !! r)
    /\ ThreadApi.le_thread_Join Sample.os 9 (safeRef (Sample.thread_obj false)) s'
       = Returns LE_NOT_FOUND s'
    /\ le_thread_Cancel Sample.os (safeRef (Sample.thread_obj false)) s'
       = Returns LE_NOT_FOUND s'
    /\ le_thread_GetName Sample.os (safeRef (Sample.thread_obj false)) 10 s'
       = Returns (snd (le_utf8_Copy Sample.os "(dead)" 10)) s'.
Proof.
  apply (detached_thread_is_gone Sample.os Sample.user_code 3 5%positive
           (Sample.thread_obj false) (Sample.sys false [2; 1]%positive) 9 10).
  - exact sample_quiet.
  - reflexivity.
  - reflexivity.
  - exact sample_destructors_ok.
  - simpl. lia.
Defined.

Lemma joinable_thread_round_trip_witness :
  exists t p s1 s2 s3 s4 s5,
    le_thread_Create Sample.os "worker2" (Some 4%nat) 0 (Sample.sys false []) = Returns t s1
    /\ le_ref_Lookup (ThreadRefMap (data s1)) t = Some p
    /\ le_thread_SetJoinable Sample.os t s1 = Returns tt s2
    /\ le_thread_Start Sample.os t s2 = Returns tt s3
    /\ (exists obj, ThreadPool (data s3) !! p = Some obj
                    /\ PThreadStartRoutine Sample.os Sample.user_code 1 (threadHandle obj) p s3
                       = Returns tt s4)
    /\ (exists before after, history s4 = history s3 ++ before ++ [C_user 4 0] ++ after)
    /\ ThreadApi.le_thread_Join Sample.os 7 t s4 = Returns LE_OK s5
    /\ data s5 = bump Sample.os 2 (data (Sample.sys false [])).
Proof.
  apply (joinable_thread_round_trip Sample.os Sample.user_code "worker2" 4 0 1 7
           (Sample.sys false [])).
  - exact sample_fresh_blocks.
  - exact sample_fresh_refs.
  - exact sample_obliging.
  - exact sample_quiet.
  - apply sample_listed_ok.
  - lia.
Defined.

Lemma destructor_add_then_remove_witness :
  exists d s1 s2,
    le_thread_AddDestructor Sample.os 7 (Some 12%nat) 5 (Sample.sys false [2; 1]%positive)
    = Returns d s1
    /\ DestructorPool (Sample.sys false [2; 1]%positive) !! d = None
    /\ destructorList (more s1 5%positive)
       = d :: destructorList (more (Sample.sys false [2; 1]%positive) 5%positive)
    /\ DestructorPool s1 = <[d := Destructor.mk 5%positive (Some 12%nat) 5]>
                             (DestructorPool (Sample.sys false [2; 1]%positive))
    /\ le_thread_RemoveDestructor 7 d s1 = Returns tt s2
    /\ destructorList (more s2 5%positive)
       = destructorList (more (Sample.sys false [2; 1]%positive) 5%positive)
    /\ DestructorPool s2 = DestructorPool (Sample.sys false [2; 1]%positive)
    /\ data s2 = data (Sample.sys false [2; 1]%positive)
    /\ history s2 = history (Sample.sys false [2; 1]%positive)
    /\ le_thread_RemoveDestructor 7 d s2 = Returns tt s2.
Proof.
  apply (destructor_add_then_remove Sample.os 7 5%positive (Sample.thread_obj false)
           (Some 12%nat) 5 (Sample.sys false [2; 1]%positive)).
  - exact sample_fresh_destructors.
  - reflexivity.
  - reflexivity.
  - reflexivity.
  - apply sample_destructors_ok.
Defined.

Lemma adopted_thread_round_trip_witness :
  exists p s1 s2,
    le_thread_InitLegatoThreadData Sample.os 9 "guest" (Sample.sys false []) = Returns tt s1
    /\ ThreadLocalData s1 !! 9 = Some p
    /\ le_thread_GetMyName 9 s1
       = Returns (snd (le_utf8_Copy Sample.os "guest" (MAX_THREAD_NAME_SIZE Sample.os))) s1
    /\ le_thread_InitLegatoThreadData Sample.os 9 "guest" s1 = Aborts s1
    /\ le_thread_CleanupLegatoThreadData Sample.os Sample.user_code 1 9 s1 = Returns tt s2
    /\ data s2 = bump Sample.os 2 (data (Sample.sys false []))
    /\ ThreadLocalData s2 !! 9 = Some p
    /\ ThreadPool (data s2) !! p = None
    /\ le_thread_GetCurrent 9 s2 = Dangles
    /\ le_thread_InitLegatoThreadData Sample.os 9 "guest" s2 = Aborts s2.
Proof.
  apply (adopted_thread_round_trip Sample.os Sample.user_code 9 "guest" 1
           (Sample.sys false [])).
  - exact sample_fresh_blocks.
  - exact sample_fresh_refs.
  - exact sample_obliging.
  - apply sample_listed_ok.
  - reflexivity.
  - reflexivity.
  - lia.
Defined.

Lemma thread_Init_makes_main_witness :
  exists t p s',
    thread_Init Sample.os 7 (Sample.sys false []) = Returns tt s'
    /\ initialised s' = true
    /\ ThreadRefMap (data s') = <[t := p]> ∅
    /\ ThreadPool (data s') =
         <[p := mkThreadObj (snd (le_utf8_Copy Sample.os "main"
                                               (MAX_THREAD_NAME_SIZE Sample.os)))
                            false THREAD_STATE_RUNNING 0 t]> ∅
    /\ mainFunc (more s' p) = None
    /\ destructorList (more s' p) = []
    /\ DestructorPool s' = ∅
    /\ ThreadLocalData s' = <[7 := p]> ∅
    /\ le_thread_GetCurrent 7 s' = Returns t s'
    /\ (ThreadObjList (data (Sample.sys false [])) = [] -> wf (data s')).
Proof.
  apply (thread_Init_makes_main Sample.os 7 (Sample.sys false [])).
  - exact sample_obliging.
  - reflexivity.
Defined.

End ThreadRuntimeExamples.
